(** * The exterior-point optimizer of Penrose

    A shallow embedding of the optimizer of the engine (the source file
    that imports "engine/Autodiff", "engine/EngineUtils" and
    "engine/Evaluator" and exports [step]): the exterior-point state
    machine [step], the unconstrained minimiser [minimize], the L-BFGS
    direction estimator [lbfgs], the Armijo-Wolfe line search
    [awLineSearch2] and the energy builder [evalEnergyOnCustom].

    JavaScript numbers are IEEE 754 binary64 values: they are modelled by
    Rocq's primitive floats, whose operations are the processor's. Loop
    counters and step budgets, which the program only ever increments by
    one from zero, are modelled by [Z]. Exceptions are modelled by the
    error type [JS.result]. Logging is left out.

    The modules the optimizer imports are not part of the sources at
    hand. They enter as type classes: [OtherUtils] (vector helpers),
    [Eigen] (matrices), [Types] and [Collaborators] (the rest of the
    engine). The helpers that raise exceptions (the vector operations on
    vectors of different lengths, the matrix operations on matrices whose
    dimensions do not fit, the colouring of the shapes) are partial: the
    optimizer propagates their exceptions. The module [Ref] gives one
    implementation of each class, with which the optimizer runs on concrete
    problems. *)

From Stdlib Require Import Floats ZArith List String Bool Lia DecimalString
  Permutation.
Import ListNotations.

Set Warnings "-inexact-float".
Set Implicit Arguments.

Local Open Scope Z_scope.

(** ** JavaScript values and numbers *)

Module JS.

Definition number := float.

Definition NaN : number := nan.
Definition Infinity : number := infinity.

(** [x > y] and [x >= y] are [y < x] and [y <= x]; every comparison with
    a NaN operand is false. *)
Definition lt (x y : number) : bool := PrimFloat.ltb x y.
Definition le (x y : number) : bool := PrimFloat.leb x y.
Definition gt (x y : number) : bool := PrimFloat.ltb y x.
Definition ge (x y : number) : bool := PrimFloat.leb y x.

Definition Math_abs (x : number) : number := PrimFloat.abs x.
Definition Math_sqrt (x : number) : number := PrimFloat.sqrt x.

(** The values the optimizer hands to [Number.isNaN]: numbers, and the
    strings a [for ... in] loop enumerates. *)
Inductive value : Type :=
| VNumber (x : number)
| VString (s : string).

(** [Number.isNaN] does not coerce its argument: it is true only of the
    number NaN. *)
Definition Number_isNaN (v : value) : bool :=
  match v with
  | VNumber x => PrimFloat.is_nan x
  | VString _ => false
  end.

(** The property keys of an array with [n] elements, as [for ... in]
    enumerates them: the decimal strings of the indices, in order. *)
Definition keys {A : Type} (a : list A) : list string :=
  map (fun i => NilEmpty.string_of_uint (Nat.to_uint i)) (seq 0 (List.length a)).

(** Exceptions: the [Error]s and [TypeError]s raised by the code at hand,
    and [Raised callee], an exception raised inside the imported function
    [callee], whose code is not at hand. *)
Inductive error : Type :=
| Error_ (msg : string)
| TypeError (msg : string)
| Raised (callee : string).

Inductive result (A : Type) : Type :=
| Ok (a : A)
| Throw (e : error).
Arguments Ok {A} a.
Arguments Throw {A} e.

Definition bind {A B : Type} (r : result A) (k : A -> result B) : result B :=
  match r with
  | Ok a => k a
  | Throw e => Throw e
  end.

(** A call of the imported function [callee], which may raise: [None] is a
    call that raises. *)
Definition call {A : Type} (callee : string) (r : option A) : result A :=
  match r with
  | Some a => Ok a
  | None => Throw (Raised callee)
  end.

End JS.

Import JS.

Notation "'let*' x ':=' r 'in' k" := (JS.bind r (fun x => k))
  (at level 10, x pattern, r at level 100, k at level 200).

(** ** Binary64 numbers, as the specification of the primitive floats
    describes them *)

(** The numbers that are not negative: the zeros, +infinity and the
    positive finite numbers; NaN is not among them. *)
Definition sf_nonneg (x : spec_float) : bool :=
  match x with
  | S754_zero _ => true
  | S754_infinity false => true
  | S754_finite false _ _ => true
  | _ => false
  end.

(** The second shift of a rounding, on the mantissa [m] and exponent [e]
    that the first shift and the choice between [m] and [m + 1] left. *)
Definition shift2_m (m e : Z) : Z :=
  let n := fexp prec emax (Zdigits2 m + e) - e in
  if 0 <? n then m / 2 ^ n else m.

Definition shift2_e (m e : Z) : Z :=
  let n := fexp prec emax (Zdigits2 m + e) - e in
  if 0 <? n then e + n else e.

(** The last step of a rounding: zero, overflow to infinity, or a finite
    number. *)
Definition finish (sx : bool) (m e : Z) : spec_float :=
  match m with
  | Z0 => S754_zero sx
  | Zpos p =>
      if e <=? emax - prec then S754_finite sx p e else S754_infinity sx
  | Zneg _ => S754_nan
  end.

(** The mantissa of 10 = [ten_m * 2^-49]. *)
Definition ten_m : positive := 5629499534213120.

(** [x] is a number and is not negative. *)
Definition nonneg (x : number) : Prop := JS.le 0%float x = true.

(** ** Collaborators that are not part of the optimizer *)

(** The vector helpers imported from utils/OtherUtils. The operations on
    two vectors raise an exception when the vectors differ in length
    ("can't add vectors of different length"): [addv], [subv] and [dot]
    answer [None] for a call that raises. *)
Class OtherUtils : Type := {
  addv : list number -> list number -> option (list number);
  subv : list number -> list number -> option (list number);
  negv : list number -> list number;
  scalev : number -> list number -> list number;
  dot : list number -> list number -> option number;
  normList : list number -> number;
  repeat : nat -> number -> list number
}.

(** The dense matrices of the eigen library, as far as the optimizer uses
    them. The library aborts an operation on matrices whose dimensions do
    not fit: [transpose], [matMul], [matAdd] and [matSub] answer [None] for
    a call that raises. *)
Class Eigen : Type := {
  Matrix : Type;
  constant : nat -> nat -> number -> Matrix;
  identity : nat -> nat -> Matrix;
  rows : Matrix -> nat;
  mget : Matrix -> nat -> nat -> number;
  mset : Matrix -> nat -> nat -> number -> Matrix;
  transpose : Matrix -> option Matrix;
  matMul : Matrix -> Matrix -> option Matrix;
  matAdd : Matrix -> Matrix -> option Matrix;
  matSub : Matrix -> Matrix -> option Matrix;
  mmul : Matrix -> number -> Matrix
}.

(** ** Globals *)

Definition weightGrowthFactor : number := 10%float.
Definition constraintWeight : number := 10e4%float.
Definition epStop : number := 1e-3%float.
Definition EPSD : number := 1e-11%float.
Definition uoStop : number := 1e-2%float.
Definition DEBUG_GRAD_DESCENT : bool := false.
Definition USE_LINE_SEARCH : bool := true.
Definition BREAK_EARLY : bool := true.
Definition DEBUG_LBFGS : bool := false.
Definition EPS : number := uoStop.

(** ** Convergence tests *)

Definition unconstrainedConverged2 (normGrad : number) : bool :=
  JS.lt normGrad uoStop.

Definition epConverged2 `{OtherUtils}
  (xs0 xs1 : list number) (fxs0 fxs1 : number) : result bool :=
  let* change := call "subv" (subv xs1 xs0) in
  let stateChange := normList change in
  let energyChange := Math_abs (fxs1 - fxs0)%float in
  Ok (JS.lt stateChange epStop || JS.lt energyChange epStop).

(** ** [containsNaN]

    The loop [for (var n in numberList)] binds [n] to the keys of the
    array, which are strings, and tests [Number.isNaN(n)]. *)
Definition containsNaN (numberList : list number) : bool :=
  existsb (fun n => Number_isNaN (VString n)) (JS.keys numberList).

(** ** The optimization state (types/state)

    The types of the surrounding system that the state mentions but the
    optimizer never inspects. *)
Class Types : Type := {
  Path : Type;
  Translation : Type;
  TranslationNum : Type;
  Shape : Type;
  VarAD : Type;
  ArgVal : Type;
  Value : Type;
  Fn : Type;
  VaryMap : Type;
  Graphs : Type
}.

Inductive OptStatus : Type :=
| NewIter
| UnconstrainedRunning
| UnconstrainedConverged
| EPConverged
| Error.

Section StateTypes.

Context {E : Eigen} {T : Types}.

(** The L-BFGS memory: [lastState] and [lastGrad] are [MaybeVal]s. *)
Record LbfgsParams : Type := mkLbfgsParams {
  lastState : option Matrix;
  lastGrad : option Matrix;
  s_list : list Matrix;
  y_list : list Matrix;
  numUnconstrSteps : Z;
  memSize : Z
}.

(** [objective] and [gradient] are absent ([undefined]) until the problem
    has been compiled; [step] tests them. *)
Record Params : Type := mkParams {
  optStatus : OptStatus;
  weight : number;
  UOround : Z;
  EPround : Z;
  lastUOstate : list number;
  lastUOenergy : number;
  lastEPstate : list number;
  lastEPenergy : number;
  lastGradient : list number;
  lastGradientPreconditioned : list number;
  lbfgsInfo : LbfgsParams;
  objective : option (number -> list number -> number);
  gradient : option (number -> list number -> list number);
  currObjective : list number -> number;
  currGradient : list number -> list number;
  functionsCompiled : bool;
  xsVars : list VarAD;
  graphs : option Graphs;
  energyGraph : option VarAD;
  constrWeightNode : option VarAD;
  epWeightNode : option VarAD
}.

Record State : Type := mkState {
  varyingValues : list number;
  varyingPaths : list Path;
  objFns : list Fn;
  constrFns : list Fn;
  translation : Translation;
  shapes : list Shape;
  params : Params
}.

(** The result of [minimize] (types/ad, [OptInfo]); its field [gradient]
    is [gradient_] here, the name being taken by [Params]. *)
Record OptInfo : Type := mkOptInfo {
  xs : list number;
  energyVal : number;
  normGrad : number;
  newLbfgsInfo : LbfgsParams;
  gradient_ : list number;
  gradientPreconditioned : list number;
  failed : bool
}.

(** Field updates: one per assignment [optParams.f = v] of the source. *)

Definition set_optStatus (v : OptStatus) (p : Params) : Params :=
  {| optStatus := v; weight := weight p; UOround := UOround p;
     EPround := EPround p; lastUOstate := lastUOstate p;
     lastUOenergy := lastUOenergy p; lastEPstate := lastEPstate p;
     lastEPenergy := lastEPenergy p; lastGradient := lastGradient p;
     lastGradientPreconditioned := lastGradientPreconditioned p;
     lbfgsInfo := lbfgsInfo p; objective := objective p;
     gradient := gradient p; currObjective := currObjective p;
     currGradient := currGradient p;
     functionsCompiled := functionsCompiled p; xsVars := xsVars p;
     graphs := graphs p; energyGraph := energyGraph p;
     constrWeightNode := constrWeightNode p;
     epWeightNode := epWeightNode p |}.

Definition set_weight (v : number) (p : Params) : Params :=
  {| optStatus := optStatus p; weight := v; UOround := UOround p;
     EPround := EPround p; lastUOstate := lastUOstate p;
     lastUOenergy := lastUOenergy p; lastEPstate := lastEPstate p;
     lastEPenergy := lastEPenergy p; lastGradient := lastGradient p;
     lastGradientPreconditioned := lastGradientPreconditioned p;
     lbfgsInfo := lbfgsInfo p; objective := objective p;
     gradient := gradient p; currObjective := currObjective p;
     currGradient := currGradient p;
     functionsCompiled := functionsCompiled p; xsVars := xsVars p;
     graphs := graphs p; energyGraph := energyGraph p;
     constrWeightNode := constrWeightNode p;
     epWeightNode := epWeightNode p |}.

Definition set_UOround (v : Z) (p : Params) : Params :=
  {| optStatus := optStatus p; weight := weight p; UOround := v;
     EPround := EPround p; lastUOstate := lastUOstate p;
     lastUOenergy := lastUOenergy p; lastEPstate := lastEPstate p;
     lastEPenergy := lastEPenergy p; lastGradient := lastGradient p;
     lastGradientPreconditioned := lastGradientPreconditioned p;
     lbfgsInfo := lbfgsInfo p; objective := objective p;
     gradient := gradient p; currObjective := currObjective p;
     currGradient := currGradient p;
     functionsCompiled := functionsCompiled p; xsVars := xsVars p;
     graphs := graphs p; energyGraph := energyGraph p;
     constrWeightNode := constrWeightNode p;
     epWeightNode := epWeightNode p |}.

Definition set_EPround (v : Z) (p : Params) : Params :=
  {| optStatus := optStatus p; weight := weight p; UOround := UOround p;
     EPround := v; lastUOstate := lastUOstate p;
     lastUOenergy := lastUOenergy p; lastEPstate := lastEPstate p;
     lastEPenergy := lastEPenergy p; lastGradient := lastGradient p;
     lastGradientPreconditioned := lastGradientPreconditioned p;
     lbfgsInfo := lbfgsInfo p; objective := objective p;
     gradient := gradient p; currObjective := currObjective p;
     currGradient := currGradient p;
     functionsCompiled := functionsCompiled p; xsVars := xsVars p;
     graphs := graphs p; energyGraph := energyGraph p;
     constrWeightNode := constrWeightNode p;
     epWeightNode := epWeightNode p |}.

Definition set_lastUOstate (v : list number) (p : Params) : Params :=
  {| optStatus := optStatus p; weight := weight p; UOround := UOround p;
     EPround := EPround p; lastUOstate := v;
     lastUOenergy := lastUOenergy p; lastEPstate := lastEPstate p;
     lastEPenergy := lastEPenergy p; lastGradient := lastGradient p;
     lastGradientPreconditioned := lastGradientPreconditioned p;
     lbfgsInfo := lbfgsInfo p; objective := objective p;
     gradient := gradient p; currObjective := currObjective p;
     currGradient := currGradient p;
     functionsCompiled := functionsCompiled p; xsVars := xsVars p;
     graphs := graphs p; energyGraph := energyGraph p;
     constrWeightNode := constrWeightNode p;
     epWeightNode := epWeightNode p |}.

Definition set_lastUOenergy (v : number) (p : Params) : Params :=
  {| optStatus := optStatus p; weight := weight p; UOround := UOround p;
     EPround := EPround p; lastUOstate := lastUOstate p; lastUOenergy := v;
     lastEPstate := lastEPstate p; lastEPenergy := lastEPenergy p;
     lastGradient := lastGradient p;
     lastGradientPreconditioned := lastGradientPreconditioned p;
     lbfgsInfo := lbfgsInfo p; objective := objective p;
     gradient := gradient p; currObjective := currObjective p;
     currGradient := currGradient p;
     functionsCompiled := functionsCompiled p; xsVars := xsVars p;
     graphs := graphs p; energyGraph := energyGraph p;
     constrWeightNode := constrWeightNode p;
     epWeightNode := epWeightNode p |}.

Definition set_lastEPstate (v : list number) (p : Params) : Params :=
  {| optStatus := optStatus p; weight := weight p; UOround := UOround p;
     EPround := EPround p; lastUOstate := lastUOstate p;
     lastUOenergy := lastUOenergy p; lastEPstate := v;
     lastEPenergy := lastEPenergy p; lastGradient := lastGradient p;
     lastGradientPreconditioned := lastGradientPreconditioned p;
     lbfgsInfo := lbfgsInfo p; objective := objective p;
     gradient := gradient p; currObjective := currObjective p;
     currGradient := currGradient p;
     functionsCompiled := functionsCompiled p; xsVars := xsVars p;
     graphs := graphs p; energyGraph := energyGraph p;
     constrWeightNode := constrWeightNode p;
     epWeightNode := epWeightNode p |}.

Definition set_lastEPenergy (v : number) (p : Params) : Params :=
  {| optStatus := optStatus p; weight := weight p; UOround := UOround p;
     EPround := EPround p; lastUOstate := lastUOstate p;
     lastUOenergy := lastUOenergy p; lastEPstate := lastEPstate p;
     lastEPenergy := v; lastGradient := lastGradient p;
     lastGradientPreconditioned := lastGradientPreconditioned p;
     lbfgsInfo := lbfgsInfo p; objective := objective p;
     gradient := gradient p; currObjective := currObjective p;
     currGradient := currGradient p;
     functionsCompiled := functionsCompiled p; xsVars := xsVars p;
     graphs := graphs p; energyGraph := energyGraph p;
     constrWeightNode := constrWeightNode p;
     epWeightNode := epWeightNode p |}.

Definition set_lastGradient (v : list number) (p : Params) : Params :=
  {| optStatus := optStatus p; weight := weight p; UOround := UOround p;
     EPround := EPround p; lastUOstate := lastUOstate p;
     lastUOenergy := lastUOenergy p; lastEPstate := lastEPstate p;
     lastEPenergy := lastEPenergy p; lastGradient := v;
     lastGradientPreconditioned := lastGradientPreconditioned p;
     lbfgsInfo := lbfgsInfo p; objective := objective p;
     gradient := gradient p; currObjective := currObjective p;
     currGradient := currGradient p;
     functionsCompiled := functionsCompiled p; xsVars := xsVars p;
     graphs := graphs p; energyGraph := energyGraph p;
     constrWeightNode := constrWeightNode p;
     epWeightNode := epWeightNode p |}.

Definition set_lastGradientPreconditioned (v : list number) (p : Params) : Params :=
  {| optStatus := optStatus p; weight := weight p; UOround := UOround p;
     EPround := EPround p; lastUOstate := lastUOstate p;
     lastUOenergy := lastUOenergy p; lastEPstate := lastEPstate p;
     lastEPenergy := lastEPenergy p; lastGradient := lastGradient p;
     lastGradientPreconditioned := v; lbfgsInfo := lbfgsInfo p;
     objective := objective p; gradient := gradient p;
     currObjective := currObjective p; currGradient := currGradient p;
     functionsCompiled := functionsCompiled p; xsVars := xsVars p;
     graphs := graphs p; energyGraph := energyGraph p;
     constrWeightNode := constrWeightNode p;
     epWeightNode := epWeightNode p |}.

Definition set_lbfgsInfo (v : LbfgsParams) (p : Params) : Params :=
  {| optStatus := optStatus p; weight := weight p; UOround := UOround p;
     EPround := EPround p; lastUOstate := lastUOstate p;
     lastUOenergy := lastUOenergy p; lastEPstate := lastEPstate p;
     lastEPenergy := lastEPenergy p; lastGradient := lastGradient p;
     lastGradientPreconditioned := lastGradientPreconditioned p;
     lbfgsInfo := v; objective := objective p; gradient := gradient p;
     currObjective := currObjective p; currGradient := currGradient p;
     functionsCompiled := functionsCompiled p; xsVars := xsVars p;
     graphs := graphs p; energyGraph := energyGraph p;
     constrWeightNode := constrWeightNode p;
     epWeightNode := epWeightNode p |}.

Definition set_currObjective (v : list number -> number) (p : Params) : Params :=
  {| optStatus := optStatus p; weight := weight p; UOround := UOround p;
     EPround := EPround p; lastUOstate := lastUOstate p;
     lastUOenergy := lastUOenergy p; lastEPstate := lastEPstate p;
     lastEPenergy := lastEPenergy p; lastGradient := lastGradient p;
     lastGradientPreconditioned := lastGradientPreconditioned p;
     lbfgsInfo := lbfgsInfo p; objective := objective p;
     gradient := gradient p; currObjective := v;
     currGradient := currGradient p;
     functionsCompiled := functionsCompiled p; xsVars := xsVars p;
     graphs := graphs p; energyGraph := energyGraph p;
     constrWeightNode := constrWeightNode p;
     epWeightNode := epWeightNode p |}.

Definition set_currGradient (v : list number -> list number) (p : Params) : Params :=
  {| optStatus := optStatus p; weight := weight p; UOround := UOround p;
     EPround := EPround p; lastUOstate := lastUOstate p;
     lastUOenergy := lastUOenergy p; lastEPstate := lastEPstate p;
     lastEPenergy := lastEPenergy p; lastGradient := lastGradient p;
     lastGradientPreconditioned := lastGradientPreconditioned p;
     lbfgsInfo := lbfgsInfo p; objective := objective p;
     gradient := gradient p; currObjective := currObjective p;
     currGradient := v; functionsCompiled := functionsCompiled p;
     xsVars := xsVars p; graphs := graphs p; energyGraph := energyGraph p;
     constrWeightNode := constrWeightNode p;
     epWeightNode := epWeightNode p |}.

Definition set_varyingValues (v : list number) (s : State) : State :=
  {| varyingValues := v; varyingPaths := varyingPaths s;
     objFns := objFns s; constrFns := constrFns s;
     translation := translation s; shapes := shapes s;
     params := params s |}.

Definition set_translation (v : Translation) (s : State) : State :=
  {| varyingValues := varyingValues s; varyingPaths := varyingPaths s;
     objFns := objFns s; constrFns := constrFns s; translation := v;
     shapes := shapes s; params := params s |}.

Definition set_params (v : Params) (s : State) : State :=
  {| varyingValues := varyingValues s; varyingPaths := varyingPaths s;
     objFns := objFns s; constrFns := constrFns s;
     translation := translation s; shapes := shapes s; params := v |}.
End StateTypes.

(** ** The Armijo-Wolfe line search [awLineSearch2] *)

Section LineSearch.

Context {U : OtherUtils}.

Variable xs0 : list number.
Variable f : list number -> number.
Variable gradf : list number -> list number.
Variable gradfxs0 : list number.
Variable fxs0 : number.
Variable maxSteps : Z.

Definition descentDir : list number := negv gradfxs0.

Definition duf (u : list number) (zs : list number) : result number :=
  call "dot" (dot u (gradf zs)).

Definition dufDescent : list number -> result number := duf descentDir.
Definition minInterval : number := 10e-10%float.

Definition c1 : number := 0.001%float.
Definition c2 : number := 0.9%float.

Section Passes.

(** [dufAtx0 = dufDescent(xs0)] is computed once, before the loop: the
    closures and the loop use its value. *)
Variable dufAtx0 : number.

Definition armijo (ti : number) : result bool :=
  let* point := call "addv" (addv xs0 (scalev ti descentDir)) in
  let cond1 := f point in
  let cond2 := (fxs0 + c1 * ti * dufAtx0)%float in
  Ok (JS.le cond1 cond2).

Definition strongWolfe (ti : number) : result bool :=
  let* point := call "addv" (addv xs0 (scalev ti descentDir)) in
  let* slope := dufDescent point in
  let cond1 := Math_abs slope in
  let cond2 := (c2 * Math_abs dufAtx0)%float in
  Ok (JS.le cond1 cond2).

Definition weakWolfe (ti : number) : result bool :=
  let* point := call "addv" (addv xs0 (scalev ti descentDir)) in
  let* cond1 := dufDescent point in
  let cond2 := (c2 * dufAtx0)%float in
  Ok (JS.ge cond1 cond2).

Definition wolfe : number -> result bool := weakWolfe.

Definition shouldStop (numUpdates : Z) (ai bi : number) : bool :=
  let intervalTooSmall := JS.lt (Math_abs (bi - ai)%float) minInterval in
  let tooManySteps := maxSteps <? numUpdates in
  intervalTooSmall || tooManySteps.

(** The variables of the loop. *)
Record aw_vars : Type := mkAw {
  aw_a : number;
  aw_b : number;
  aw_t : number;
  aw_i : Z
}.

Definition aw_init : aw_vars :=
  {| aw_a := 0%float; aw_b := Infinity; aw_t := 1.0%float; aw_i := 0 |}.

(** One pass through the body of [while (true)]: [inr t] is a [break]
    (the function then returns [t]), [inl v] the variables at the start of
    the next pass. Both conditions are evaluated before either is
    tested. *)
Definition aw_body (v : aw_vars) : result (aw_vars + number) :=
  let '(mkAw a b t i) := v in
  if shouldStop i a b then Ok (inr t)
  else
    let* isArmijo := armijo t in
    let* isWolfe := wolfe t in
    let bracket :=
      if negb isArmijo then Some (a, t)
      else if negb isWolfe then Some (t, b)
      else None in
    match bracket with
    | None => Ok (inr t)
    | Some (a, b) =>
        let t := if JS.lt b Infinity then ((a + b) / 2.0)%float
                 else (2.0 * a)%float in
        Ok (inl (mkAw a b t (i + 1)))
    end.

(** The loop, with the number of passes bounded by [fuel]: [Ok None] when
    the fuel runs out before a [break]. The result is the variables at the
    [break]. *)
Fixpoint aw_loop (fuel : nat) (v : aw_vars) : result (option aw_vars) :=
  match fuel with
  | O => Ok None
  | S fuel' =>
      let* next := aw_body v in
      match next with
      | inr _ => Ok (Some v)
      | inl v' => aw_loop fuel' v'
      end
  end.

(** The variables with which the passes of the loop start. *)
Inductive aw_reach : aw_vars -> Prop :=
| aw_reach_init : aw_reach aw_init
| aw_reach_next v v' : aw_reach v -> aw_body v = Ok (inl v') -> aw_reach v'.

End Passes.

(** Passes that always suffice: the counter runs from 0 to [maxSteps + 1]. *)
Definition aw_fuel : nat := S (Z.to_nat (maxSteps + 1)).

Definition awLineSearch2 : result number :=
  let* dufAtx0 := dufDescent xs0 in
  let* last := aw_loop dufAtx0 aw_fuel aw_init in
  match last with
  | Some v => Ok (aw_t v)
  | None => Ok NaN
  end.

End LineSearch.

(** The brackets and trials of the search do not depend on the energy:
    only the choice between the two moves of a pass does. *)

(** The trial step length for a bracket, as the end of a pass computes
    it. *)
Definition aw_trial (a b : number) : number :=
  if JS.lt b Infinity then ((a + b) / 2.0)%float else (2.0 * a)%float.

(** The brackets and trials a pass can lead to from [(a, b, t)]: the upper
    bound moved to [t], or the lower bound moved to [t]. *)
Definition aw_successors (v : number * number * number)
  : list (number * number * number) :=
  let '(a, b, t) := v in [(a, t, aw_trial a t); (t, b, aw_trial t b)].

(** Every bracket and trial with which the pass whose counter is [n] can
    start. *)
Fixpoint aw_level (n : nat) : list (number * number * number) :=
  match n with
  | O => [(0%float, Infinity, 1.0%float)]
  | S n' => flat_map aw_successors (aw_level n')
  end.

(** The bracket is not narrower than [minInterval], and the trial lies
    between 2^-11 and 2^11. *)
Definition aw_wide (v : number * number * number) : bool :=
  let '(a, b, t) := v in
  negb (JS.lt (Math_abs (b - a)%float) minInterval)
  && JS.le 0x1p-11%float t && JS.le t 0x1p11%float.

(** ** lodash helpers *)

(** [_.zip]: the shorter array is padded with [undefined]. *)
Fixpoint zip {A B : Type} (l : list A) (r : list B)
  : list (option A * option B) :=
  match l, r with
  | [], _ => map (fun b => (None, Some b)) r
  | _, [] => map (fun a => (Some a, None)) l
  | a :: l', b :: r' => (Some a, Some b) :: zip l' r'
  end.

(** [_.take]: a negative count takes nothing. *)
Definition take {A : Type} (l : list A) (n : Z) : list A :=
  firstn (Z.to_nat n) l.

Fixpoint mapM {A B : Type} (g : A -> result B) (l : list A)
  : result (list B) :=
  match l with
  | [] => Ok []
  | a :: l' =>
      let* b := g a in
      let* bs := mapM g l' in
      Ok (b :: bs)
  end.

(** [l.reduce(g, b)] with a function that may raise. *)
Fixpoint foldM {A B : Type} (g : B -> A -> result B) (l : list A) (b : B)
  : result B :=
  match l with
  | [] => Ok b
  | a :: l' => let* b' := g b a in foldM g l' b'
  end.

(** [xs.map((x, j) => g x j)], the index starting at [j]. *)
Fixpoint mapi_from {A B : Type} (j : nat) (g : A -> nat -> B) (l : list A)
  : list B :=
  match l with
  | [] => []
  | a :: l' => g a j :: mapi_from (S j) g l'
  end.

(** ** The L-BFGS direction estimator *)

Section Lbfgs.

Context {E : Eigen} {T : Types}.

Definition vecList (m : Matrix) : list number :=
  map (fun i => mget m i 0%nat) (seq 0 (rows m)).

Definition colVec (l : list number) : Matrix :=
  fold_left (fun m ie => mset m (fst ie) 0%nat (snd ie))
            (combine (seq 0 (List.length l)) l)
            (constant (List.length l) 1%nat 0%float).

Definition dotVec (v w : Matrix) : result number :=
  let* vt := call "transpose" (transpose v) in
  let* product := call "matMul" (matMul vt w) in
  Ok (mget product 0%nat 0%nat).

Definition calculate_rho (s y : Matrix) : result number :=
  let* ys := dotVec y s in
  Ok (1.0 / (ys + EPSD))%float.

(** [calculate_rho(s, y)] on a pair of [_.zip(ss, ys)], whose shorter list
    is padded with [undefined]: an [undefined] [y] raises a [TypeError] at
    [y.transpose()], and an [undefined] [s] is handed to [matMul] once [y]
    is transposed, which raises a [TypeError] on reading it. The pair is
    kept with its [rho]. *)
Definition rho_of (sy : option Matrix * option Matrix)
  : result (number * Matrix * Matrix) :=
  match sy with
  | (_, None) => Throw (TypeError "undefined operand")
  | (None, Some y) =>
      let* yt := call "transpose" (transpose y) in
      Throw (TypeError "undefined operand")
  | (Some s, Some y) =>
      let* rho := calculate_rho s y in
      Ok (rho, s, y)
  end.

Definition pull_q_back (acc : Matrix * list number)
  (curr : number * Matrix * Matrix) : result (Matrix * list number) :=
  let '(q_i_plus_1, alphas2) := acc in
  let '(rho_i, s_i, y_i) := curr in
  let* sq := dotVec s_i q_i_plus_1 in
  let alpha_i := (rho_i * sq)%float in
  let* q_i := call "matSub" (matSub q_i_plus_1 (mmul y_i alpha_i)) in
  Ok (q_i, alphas2 ++ [alpha_i]).

Definition estimate_hess (y_km1 s_km1 : Matrix) : result Matrix :=
  let* sy := dotVec s_km1 y_km1 in
  let* yy := dotVec y_km1 y_km1 in
  let gamma_k := (sy / (yy + EPSD))%float in
  let n := rows y_km1 in
  Ok (mmul (identity n n) gamma_k).

Definition push_r_forward (r_i : Matrix)
  (curr : (number * number) * (Matrix * Matrix)) : result Matrix :=
  let '((rho_i, alpha_i), (s_i, y_i)) := curr in
  let* yr := dotVec y_i r_i in
  let beta_i := (rho_i * yr)%float in
  call "matAdd" (matAdd r_i (mmul s_i (alpha_i - beta_i)%float)).

(** The first loop computes the [rho]s pair by pair, so it fails at the
    first pair it cannot handle; once it has ended the two lists are
    equally long. [ys[0]] and [ss[0]] are [undefined] when the lists are
    empty, and [estimate_hess] then fails on its first method call. *)
Definition lbfgsInner (grad_fx_k : Matrix) (ss ys : list Matrix)
  : result Matrix :=
  let* rsys := mapM rho_of (zip ss ys) in
  let rhos := map (fun rsy => fst (fst rsy)) rsys in
  let sys := map (fun rsy => (snd (fst rsy), snd rsy)) rsys in
  let q_k := grad_fx_k in
  let* (q_k_minus_m, alphas) := foldM pull_q_back rsys (q_k, []) in
  match ys, ss with
  | y0 :: _, s0 :: _ =>
      let* h_0_k := estimate_hess y0 s0 in
      let* r_k_minus_m := call "matMul" (matMul h_0_k q_k_minus_m) in
      let inputs := rev (combine (combine rhos alphas) sys) in
      foldM push_r_forward inputs r_k_minus_m
  | _, _ => Throw (TypeError "undefined operand")
  end.

Definition lbfgs (xs : list number) (gradfxs : list number)
  (lbfgsInfo : LbfgsParams) : result (list number * LbfgsParams) :=
  if numUnconstrSteps lbfgsInfo =? 0 then
    Ok (gradfxs,
        {| lastState := Some (colVec xs);
           lastGrad := Some (colVec gradfxs);
           s_list := [];
           y_list := [];
           numUnconstrSteps := 1;
           memSize := memSize lbfgsInfo |})
  else
    match lastState lbfgsInfo, lastGrad lbfgsInfo with
    | Some x_km1, Some grad_fx_km1 =>
        let x_k := colVec xs in
        let grad_fx_k := colVec gradfxs in
        let km1 := numUnconstrSteps lbfgsInfo in
        let ss_km2 := s_list lbfgsInfo in
        let ys_km2 := y_list lbfgsInfo in
        let* s_km1 := call "matSub" (matSub x_k x_km1) in
        let* y_km1 := call "matSub" (matSub grad_fx_k grad_fx_km1) in
        let ss_km1 := take ([s_km1] ++ ss_km2) (memSize lbfgsInfo) in
        let ys_km1 := take ([y_km1] ++ ys_km2) (memSize lbfgsInfo) in
        let* gradPreconditioned := lbfgsInner grad_fx_k ss_km1 ys_km1 in
        let* slope := dotVec gradPreconditioned grad_fx_k in
        let descentDirCheck := (-1.0 * slope)%float in
        if JS.gt descentDirCheck 0.0%float then
          Ok (gradfxs,
              {| lastState := Some x_k;
                 lastGrad := Some grad_fx_k;
                 s_list := [];
                 y_list := [];
                 numUnconstrSteps := 1;
                 memSize := memSize lbfgsInfo |})
        else
          Ok (vecList gradPreconditioned,
              {| lastState := Some x_k;
                 lastGrad := Some grad_fx_k;
                 s_list := ss_km1;
                 y_list := ys_km1;
                 numUnconstrSteps := km1 + 1;
                 memSize := memSize lbfgsInfo |})
    | _, _ => Throw (Error_ "Invalid L-BFGS state")
    end.

End Lbfgs.

(** The exceptions of the estimator: its own [Error], the [TypeError]s
    of operations on [undefined], and those the matrix and vector helpers
    raise. *)
Definition lbfgs_error (e : error) : Prop :=
  match e with
  | Error_ msg => msg = "Invalid L-BFGS state"%string
  | TypeError _ => True
  | Raised _ => True
  end.

Section Memory.

Context {E : Eigen}.

(** A memory the estimator can work with: as many [s] as [y] vectors,
    room for at least one pair, and, once a step has been counted, the
    last state and gradient present. *)
Definition usable (info : LbfgsParams) : Prop :=
  List.length (s_list info) = List.length (y_list info)
  /\ 1 <= memSize info
  /\ (numUnconstrSteps info = 0
      \/ exists x g, lastState info = Some x /\ lastGrad info = Some g).

(** What [colVec] and [vecList] rely on of the matrices, [column n m]
    saying that [m] has [n] rows and one column: a constant column is
    one, writing an entry keeps it one, its number of rows is [n], an
    entry written is read back, and the other entries are left alone. *)
Definition column_laws (column : nat -> Matrix -> Prop) : Prop :=
  (forall n v, column n (constant n 1%nat v))
  /\ (forall n m i v,
        column n m -> (i < n)%nat -> column n (mset m i 0%nat v))
  /\ (forall n m, column n m -> rows m = n)
  /\ (forall n m i v,
        column n m -> (i < n)%nat -> mget (mset m i 0%nat v) i 0%nat = v)
  /\ (forall n m i j v,
        column n m -> i <> j ->
        mget (mset m i 0%nat v) j 0%nat = mget m j 0%nat).

(** What the estimator relies on of the operations on columns of one
    height: the product of a transposed column with a column, the
    difference and the sum of two columns are defined, the difference and
    the sum are columns again, as is a column scaled, and a scaled identity
    of that height times a column is defined and a column. *)
Definition column_algebra (column : nat -> Matrix -> Prop) : Prop :=
  (forall n a b, column n a -> column n b ->
                 exists at_ p, transpose a = Some at_ /\ matMul at_ b = Some p)
  /\ (forall n a b, column n a -> column n b ->
                    exists c, matSub a b = Some c /\ column n c)
  /\ (forall n a b, column n a -> column n b ->
                    exists c, matAdd a b = Some c /\ column n c)
  /\ (forall n a k, column n a -> column n (mmul a k))
  /\ (forall n y q k,
        column n y -> column n q ->
        exists r, matMul (mmul (identity (rows y) (rows y)) k) q = Some r
                  /\ column n r).

(** A usable memory whose vectors are columns of height [n]. *)
Definition usable_at (column : nat -> Matrix -> Prop) (n : nat)
  (info : LbfgsParams) : Prop :=
  usable info
  /\ Forall (column n) (s_list info)
  /\ Forall (column n) (y_list info)
  /\ (forall x, lastState info = Some x -> column n x)
  /\ (forall g, lastGrad info = Some g -> column n g).

End Memory.

(** ** The unconstrained minimiser [minimize] *)

Section Minimize.

Context {U : OtherUtils} {E : Eigen} {T : Types}.

Variable f : list number -> number.
Variable gradf : list number -> list number.
Variable numSteps : Z.

(** The variables of the loop. *)
Record min_vars : Type := mkMin {
  m_xs : list number;
  m_fxs : number;
  m_gradfxs : list number;
  m_gradientPreconditioned : list number;
  m_normGradfxs : number;
  m_i : Z;
  m_t : number;
  m_failed : bool;
  m_newLbfgsInfo : LbfgsParams
}.

(** How a pass through the body ends: at its last statement, or at a
    [break]. *)
Inductive flow : Type :=
| Next (v : min_vars)
| Break (v : min_vars).

(** One pass through the body of [while (i < numSteps)]. *)
Definition minimize_body (v : min_vars) : result flow :=
  let '(mkMin xs fxs gradfxs gradientPreconditioned normGradfxs i t failed
              newLbfgsInfo) := v in
  if containsNaN xs then Throw (Error_ "NaN in xs")
  else
    let fxs := f xs in
    let gradfxs := gradf xs in
    if containsNaN gradfxs then Throw (Error_ "NaN in gradfxs")
    else
      let* (gradfxsPreconditioned, updatedLbfgsInfo) :=
        lbfgs xs gradfxs newLbfgsInfo in
      let newLbfgsInfo := updatedLbfgsInfo in
      let gradientPreconditioned := gradfxsPreconditioned in
      let* normGradfxs := call "dot" (dot gradfxs gradfxsPreconditioned) in
      if BREAK_EARLY && unconstrainedConverged2 normGradfxs then
        Ok (Break (mkMin xs fxs gradfxs gradientPreconditioned normGradfxs
                         i t failed newLbfgsInfo))
      else
        let* t :=
          if USE_LINE_SEARCH then
            awLineSearch2 xs f gradf gradfxsPreconditioned fxs 10
          else Ok t in
        let normGrad := normList gradfxs in
        if Number_isNaN (VNumber fxs) || Number_isNaN (VNumber normGrad)
        then
          let failed := true in
          Ok (Break (mkMin xs fxs gradfxs gradientPreconditioned
                           normGradfxs i t failed newLbfgsInfo))
        else
          let xs :=
            mapi_from 0
              (fun x j => (x - t * nth j gradfxsPreconditioned NaN)%float)
              xs in
          Ok (Next (mkMin xs fxs gradfxs gradientPreconditioned normGradfxs
                          (i + 1) t failed newLbfgsInfo)).

(** The loop: [fuel] bounds the number of passes, and the guard
    [i < numSteps] is tested before each. *)
Fixpoint minimize_loop (fuel : nat) (v : min_vars) : result min_vars :=
  match fuel with
  | O => Ok v
  | S fuel' =>
      if m_i v <? numSteps then
        let* fl := minimize_body v in
        match fl with
        | Next v' => minimize_loop fuel' v'
        | Break v' => Ok v'
        end
      else Ok v
  end.

End Minimize.

(** [varyingPaths] is used for logging only. *)
Definition minimize {U : OtherUtils} {E : Eigen}
  (xs0 : list number) (f : list number -> number)
  (gradf : list number -> list number) (lbfgsInfo : LbfgsParams)
  (varyingPaths : list string) (numSteps : Z) : result OptInfo :=
  let xs := xs0 in
  let fxs := 0.0%float in
  let gradfxs := repeat (List.length xs0) 0%float in
  let gradientPreconditioned := gradfxs in
  let normGradfxs := 0.0%float in
  let i := 0 in
  let t := 0.0001%float in
  let failed := false in
  let newLbfgsInfo := lbfgsInfo in
  let* v := minimize_loop f gradf numSteps (Z.to_nat numSteps)
              (mkMin xs fxs gradfxs gradientPreconditioned normGradfxs i t
                     failed newLbfgsInfo) in
  Ok {| xs := m_xs v;
        energyVal := m_fxs v;
        normGrad := m_normGradfxs v;
        newLbfgsInfo := m_newLbfgsInfo v;
        gradient_ := m_gradfxs v;
        gradientPreconditioned := m_gradientPreconditioned v;
        failed := m_failed v |}.

(** The update of the variables at the end of a pass of [minimize]:
    [x - t * direction[j]] for the variable [x] of index [j]. *)
Definition descend (t : number) (direction xs : list number) : list number :=
  mapi_from 0 (fun x j => (x - t * nth j direction NaN)%float) xs.

(** The test that ends a pass of [minimize] with a failure:
    [Number.isNaN(fxs) || Number.isNaN(normGrad)]. *)
Definition nan_at {U : OtherUtils} (f : list number -> number)
  (gradf : list number -> list number) (xs : list number) : bool :=
  PrimFloat.is_nan (f xs) || PrimFloat.is_nan (normList (gradf xs)).

(** What the vector helpers do on vectors of one length: the operations
    on two vectors return, and the vectors returned have that length. *)
Definition vector_laws {U : OtherUtils} : Prop :=
  (forall a b, List.length a = List.length b ->
               exists c, addv a b = Some c /\ List.length c = List.length a)
  /\ (forall a b, List.length a = List.length b ->
                  exists c, subv a b = Some c
                            /\ List.length c = List.length a)
  /\ (forall a b, List.length a = List.length b ->
                  exists c, dot a b = Some c)
  /\ (forall a, List.length (negv a) = List.length a)
  /\ (forall c a, List.length (scalev c a) = List.length a).

(** A gradient on [n] variables: it has one entry for each. *)
Definition gradient_on (n : nat) (gradf : list number -> list number)
  : Prop :=
  forall zs, List.length zs = n -> List.length (gradf zs) = n.


(** ** The rest of the engine, as the optimizer sees it *)

Section Engine.

Context {E : Eigen} {T : Types}.

(** A term whose arguments have been evaluated ([FnDone]). *)
Record FnDone : Type := mkFnDone {
  name : string;
  args : list ArgVal
}.

(** A function dictionary: a JavaScript object indexed by function name. *)
Definition Dict : Type := string -> option (list Value -> VarAD).

Record WeightInfo : Type := mkWeightInfo {
  wi_constrWeightNode : VarAD;
  wi_epWeightNode : VarAD;
  wi_constrWeight : number;
  wi_epWeight : number
}.

(** What [energyAndGradCompiled] returns. *)
Record Compiled : Type := mkCompiled {
  cp_graphs : Graphs;
  cp_f : number -> list number -> number;
  cp_gradf : number -> list number -> list number
}.

(** The functions the optimizer imports: engine/EngineUtils,
    engine/Evaluator, engine/Autodiff, contrib/Constraints, renderer/Color,
    utils/OtherUtils, rfdc, and the conversion [String] of a number.

    [colorUninitShapes] and [colorUninitText] (renderer/Color) draw a
    random palette and read and write properties of the shapes, which the
    state carries as opaque values here. They raise exceptions: the first,
    through [getNewlyColoredState], those of [shapeListToDistanceGraph],
    [distGraphToKNNGraph] and [sampleUniformPalette] below; the second
    those of [getShapeNameAndShapePairList], [pointInShape] and
    [createTextColorList]. Each is a function that may raise. *)
Class Collaborators : Type := {
  initConstraintWeight : number;
  defaultLbfgsParams : LbfgsParams;
  makeTranslationDifferentiable : TranslationNum -> Translation;
  makeTranslationNumeric : Translation -> TranslationNum;
  clone : TranslationNum -> TranslationNum;
  argValue : ArgVal -> Value;
  evalFns : list Fn -> Translation -> VaryMap -> list FnDone;
  evalShapes : State -> State;
  genPathMap : list Path -> list VarAD -> VaryMap;
  insertVaryings :
    Translation -> list (option Path * option VarAD) -> Translation;
  add : VarAD -> VarAD -> VarAD;
  mul : VarAD -> VarAD -> VarAD;
  differentiable : number -> VarAD;
  energyAndGradCompiled :
    list number -> list VarAD -> VarAD -> option WeightInfo -> Compiled;
  toPenalty : VarAD -> VarAD;
  makeADInputVars : list number -> list VarAD;
  markInput : VarAD -> Z -> VarAD;
  vsum : list VarAD -> VarAD;
  varOf : number -> string -> string -> VarAD;
  setGradVal : VarAD -> option number -> VarAD;
  constrDict : Dict;
  objDict : Dict;
  colorUninitShapes : State -> result State;
  colorUninitText : State -> result State;
  prettyPrintPath : Path -> string;
  String_ : number -> string
}.

End Engine.

(** ** Building the energy: [applyFn], [evalEnergyOnCustom], [genOptProblem] *)

Section Energy.

Context {U : OtherUtils} {E : Eigen} {T : Types} {C : Collaborators}.

Definition applyFn (f : FnDone) (dict : Dict) : result VarAD :=
  match dict (name f) with
  | Some g => Ok (g (map argValue (args f)))
  | None =>
      Throw (Error_ ("constraint or objective " ++ name f
                     ++ " not found in dirctionary"))
  end.

(** What [evalEnergyOnCustom] returns. *)
Record Energy : Type := mkEnergy {
  en_energyGraph : VarAD;
  en_constrWeightNode : VarAD;
  en_epWeightNode : VarAD
}.

Definition evalEnergyOnCustom (state : State) (xsVars : list VarAD)
  : result Energy :=
  let translationInit :=
    makeTranslationDifferentiable
      (clone (makeTranslationNumeric (translation state))) in
  let varyingMapList := zip (varyingPaths state) xsVars in
  let translation := insertVaryings translationInit varyingMapList in
  let varyingMap := genPathMap (varyingPaths state) xsVars in
  let objEvaled := evalFns (objFns state) translation varyingMap in
  let constrEvaled := evalFns (constrFns state) translation varyingMap in
  let* objEngs := mapM (fun o => applyFn o objDict) objEvaled in
  let* constrEngs :=
    mapM (fun c => let* e := applyFn c constrDict in Ok (toPenalty e))
         constrEvaled in
  let constrWeightNode :=
    varOf constraintWeight (String_ constraintWeight) "constraintWeight" in
  let epWeightNode :=
    markInput
      (varOf (weight (params state)) (String_ (weight (params state)))
             "epWeight")
      (-1) in
  let objEng := vsum objEngs in
  let constrEng := vsum constrEngs in
  let overallEng :=
    add objEng (mul constrEng (mul constrWeightNode epWeightNode)) in
  let overallEng := setGradVal overallEng (Some 1.0%float) in
  Ok {| en_energyGraph := overallEng;
        en_constrWeightNode := constrWeightNode;
        en_epWeightNode := epWeightNode |}.

Definition genOptProblem (state : State) : result State :=
  let xs := varyingValues state in
  let overallObjective := evalEnergyOnCustom state in
  let xsVars := makeADInputVars xs in
  let* res := overallObjective xsVars in
  let weightInfo :=
    {| wi_constrWeightNode := en_constrWeightNode res;
       wi_epWeightNode := en_epWeightNode res;
       wi_constrWeight := constraintWeight;
       wi_epWeight := initConstraintWeight |} in
  let compiled :=
    energyAndGradCompiled xs xsVars (en_energyGraph res) (Some weightInfo) in
  let p := params state in
  let newParams :=
    {| optStatus := UnconstrainedRunning;
       weight := initConstraintWeight;
       UOround := 0;
       EPround := 0;
       lastUOstate := lastUOstate p;
       lastUOenergy := lastUOenergy p;
       lastEPstate := lastEPstate p;
       lastEPenergy := lastEPenergy p;
       lastGradient := repeat (List.length xs) 0%float;
       lastGradientPreconditioned := repeat (List.length xs) 0%float;
       lbfgsInfo := defaultLbfgsParams;
       objective := Some (cp_f compiled);
       gradient := Some (cp_gradf compiled);
       currObjective := cp_f compiled initConstraintWeight;
       currGradient := cp_gradf compiled initConstraintWeight;
       functionsCompiled := true;
       xsVars := xsVars;
       graphs := Some (cp_graphs compiled);
       energyGraph := Some (en_energyGraph res);
       constrWeightNode := Some (en_constrWeightNode res);
       epWeightNode := Some (en_epWeightNode res) |} in
  Ok (set_params newParams state).

(** What a forward evaluation of the graph has to satisfy for the nodes
    the energy builder creates: [add] and [mul] nodes evaluate to the sum
    and the product, a [varOf] leaf to its value, a leaf marked as input to
    the value supplied for its index, and the gradient seed does not
    change the value. *)
Definition ForwardValue (value : (Z -> number) -> VarAD -> number) : Prop :=
  (forall env a b, value env (add a b) = (value env a + value env b)%float)
  /\ (forall env a b, value env (mul a b) = (value env a * value env b)%float)
  /\ (forall env v s1 s2, value env (varOf v s1 s2) = v)
  /\ (forall env n i, value env (markInput n i) = env i)
  /\ (forall env n g, value env (setGradVal n g) = value env n).

(** And for the two nodes the builder takes from elsewhere: the value of a
    [vsum] node is [total] of the values of its summands, and the value of
    a [toPenalty] node is [penalty] of the value of its argument. *)
Definition ForwardSum (value : (Z -> number) -> VarAD -> number)
  (total : list number -> number) (penalty : number -> number) : Prop :=
  (forall env l, value env (vsum l) = total (map (value env) l))
  /\ (forall env c, value env (toPenalty c) = penalty (value env c)).

End Energy.

Section Unresolved.

Context {E : Eigen} {T : Types}.

(** The first term of a list whose name the dictionary does not hold. *)
Definition unresolved (dict : Dict) (fs : list FnDone) : option FnDone :=
  find (fun f => match dict (name f) with
                 | Some _ => false
                 | None => true
                 end) fs.

(** The exception [applyFn] raises for such a term. *)
Definition not_found (f : FnDone) : error :=
  Error_ ("constraint or objective " ++ name f ++ " not found in dirctionary").

End Unresolved.

(** ** The exterior-point state machine [step]

    [newState] is a shallow copy of [state] and [optParams] refers to the
    one [params] object both share: the assignments to [optParams] are
    threaded through as successive values of the record, and the state
    returned carries the last one. *)

Section Step.

Context {U : OtherUtils} {E : Eigen} {T : Types} {C : Collaborators}.

(** How the [switch] is left: by a [return], or by a [break] with the
    current [optParams] and [xs]. *)
Inductive switch_exit : Type :=
| Return_ (s : State)
| Break_ (optParams : Params) (xs : list number).

(** The case [NewIter], on the branch of [if (true)]. *)
Definition step_NewIter (state : State) : result switch_exit :=
  match objective (params state), gradient (params state) with
  | Some _, Some _ =>
      let p := params state in
      let p := set_weight initConstraintWeight p in
      let p := set_UOround 0 p in
      let p := set_EPround 0 p in
      let p := set_optStatus UnconstrainedRunning p in
      let p := set_lbfgsInfo defaultLbfgsParams p in
      Ok (Return_ (set_params p state))
  | _, _ =>
      let* s := genOptProblem state in
      Ok (Return_ s)
  end.

Definition step_UnconstrainedRunning (state : State) (steps : Z)
  : result switch_exit :=
  let newState := state in
  let optParams := params newState in
  let xs_ := varyingValues state in
  let* res :=
    minimize xs_ (currObjective (params state)) (currGradient (params state))
             (lbfgsInfo (params state))
             (map prettyPrintPath (varyingPaths state)) steps in
  let xs_ := xs res in
  let optParams := set_lastUOstate xs_ optParams in
  let optParams := set_lastUOenergy (energyVal res) optParams in
  let optParams := set_UOround (UOround optParams + 1) optParams in
  let optParams := set_lbfgsInfo (newLbfgsInfo res) optParams in
  let optParams := set_lastGradient (gradient_ res) optParams in
  let optParams :=
    set_lastGradientPreconditioned (gradientPreconditioned res) optParams in
  let optParams :=
    if unconstrainedConverged2 (normGrad res) then
      let optParams := set_optStatus UnconstrainedConverged optParams in
      set_lbfgsInfo defaultLbfgsParams optParams
    else set_optStatus UnconstrainedRunning optParams in
  if failed res then
    let optParams := set_optStatus Error optParams in
    Ok (Return_ (set_params optParams newState))
  else Ok (Break_ optParams xs_).

(** [optParams.EPround > 1 && epConverged2(...)]: the test is evaluated
    only when the counter exceeds 1. *)
Definition step_UnconstrainedConverged (state : State)
  : result switch_exit :=
  let weight_ := weight (params state) in
  let optParams := params state in
  let xs := varyingValues state in
  let* converged :=
    if 1 <? EPround optParams then
      epConverged2 (lastEPstate optParams) (lastUOstate optParams)
                   (lastEPenergy optParams) (lastUOenergy optParams)
    else Ok false in
  let* optParams :=
    if converged
    then Ok (set_optStatus EPConverged optParams)
    else
      let optParams := set_optStatus UnconstrainedRunning optParams in
      let optParams :=
        set_weight (weightGrowthFactor * weight_)%float optParams in
      let optParams := set_EPround (EPround optParams + 1) optParams in
      let optParams := set_UOround 0 optParams in
      match objective optParams with
      | None => Throw (TypeError "optParams.objective is not a function")
      | Some objective_fn =>
          let optParams :=
            set_currObjective (objective_fn (weight optParams)) optParams in
          match gradient optParams with
          | None => Throw (TypeError "optParams.gradient is not a function")
          | Some gradient_fn =>
              Ok (set_currGradient (gradient_fn (weight optParams)) optParams)
          end
      end in
  let optParams := set_lastEPstate (lastUOstate optParams) optParams in
  let optParams := set_lastEPenergy (lastUOenergy optParams) optParams in
  Ok (Break_ optParams xs).

(** The colour assignment [colorUninitText(colorUninitShapes(newState))]. *)
Definition colour (newState : State) : result State :=
  let* coloured := colorUninitShapes newState in
  colorUninitText coloured.

(** The statements after the [switch]: with [evaluate], the new variables
    are written into the translation and the shapes are re-evaluated and
    coloured. *)
Definition step_finish (state : State) (optParams : Params)
  (xs : list number) (evaluate : bool) : result State :=
  let newState := set_params optParams state in
  if evaluate then
    let varyingValues_ := xs in
    let newState :=
      set_translation
        (insertVaryings (translation state)
           (zip (varyingPaths state) (map differentiable varyingValues_)))
        newState in
    let newState := set_varyingValues varyingValues_ newState in
    let newState := evalShapes newState in
    colour newState
  else Ok newState.

Definition step (state : State) (steps : Z) (evaluate : bool)
  : result State :=
  let* ex :=
    match optStatus (params state) with
    | NewIter => step_NewIter state
    | UnconstrainedRunning => step_UnconstrainedRunning state steps
    | UnconstrainedConverged => step_UnconstrainedConverged state
    | EPConverged => Ok (Return_ state)
    | Error => Ok (Return_ state)
    end in
  match ex with
  | Return_ s => Ok s
  | Break_ optParams xs => step_finish state optParams xs evaluate
  end.

(** [n] successive calls of [step], each with the budget [steps]. *)
Fixpoint run (n : nat) (steps : Z) (evaluate : bool) (s : State)
  : result State :=
  match n with
  | O => Ok s
  | S n' =>
      let* s' := step s steps evaluate in
      run n' steps evaluate s'
  end.

(** [calls s s']: successive calls of [step], with any budgets, lead from
    [s] to [s']. *)
Inductive calls : State -> State -> Prop :=
| calls_none s : calls s s
| calls_more s s' s'' steps evaluate :
    calls s s' -> step s' steps evaluate = Ok s'' -> calls s s''.

(** The functions that re-evaluate and colour the shapes leave the
    variables and the optimization parameters of the state alone, when
    they return. *)
Definition RenderFrame : Prop :=
  forall s : State,
    (params (evalShapes s) = params s
     /\ varyingValues (evalShapes s) = varyingValues s)
    /\ (forall s', colorUninitShapes s = Ok s' ->
                   params s' = params s
                   /\ varyingValues s' = varyingValues s)
    /\ (forall s', colorUninitText s = Ok s' ->
                   params s' = params s
                   /\ varyingValues s' = varyingValues s).

End Step.

(** The edges of the state machine. *)
Definition transition (a b : OptStatus) : bool :=
  match a, b with
  | NewIter, UnconstrainedRunning => true
  | UnconstrainedRunning, UnconstrainedRunning => true
  | UnconstrainedRunning, UnconstrainedConverged => true
  | UnconstrainedRunning, Error => true
  | UnconstrainedConverged, UnconstrainedRunning => true
  | UnconstrainedConverged, EPConverged => true
  | EPConverged, EPConverged => true
  | Error, Error => true
  | _, _ => false
  end.

Section Bound.

Context {E : Eigen} {T : Types}.

(** The closures in use are the compiled ones, applied to the current
    weight. *)
Definition bound (obj : number -> list number -> number)
  (grad : number -> list number -> list number) (p : Params) : Prop :=
  objective p = Some obj
  /\ gradient p = Some grad
  /\ currObjective p = obj (weight p)
  /\ currGradient p = grad (weight p).

End Bound.

(** ** Helpers of the colouring (renderer/Color)

    [step] colours the shapes after each evaluation. Two helpers of the
    colouring that compute on numbers and arrays only: the distance of two
    centres and the choice of colours from a palette. *)

(** [dist]: the Euclidean distance of two vectors. *)
Definition dist (v1 v2 : list number) : result number :=
  if negb (Nat.eqb (List.length v1) (List.length v2)) then
    Throw (Error_ "Vector inputs are not of the same dimension")
  else
    let squaredSum :=
      fold_left
        (fun squaredSum i =>
           (squaredSum
            + (nth i v1 NaN - nth i v2 NaN) * (nth i v1 NaN - nth i v2 NaN))
             %float)
        (seq 0 (List.length v1)) 0%float in
    Ok (Math_sqrt squaredSum).

(** [palette[i]]: [undefined] outside the array. *)
Definition at_index {A : Type} (a : list A) (i : Z) : option A :=
  if i <? 0 then None else nth_error a (Z.to_nat i).

(** [sampleUniformPalette], for a whole number of colors: the colors at
    the indices [0], [stepSize], [2 * stepSize], ... of the palette, with
    [stepSize = Math.floor(palette.length / numColorsRequested)]. *)
Definition sampleUniformPalette {A : Type} (numColorsRequested : Z)
  (palette : list A) : result (list (option A)) :=
  if numColorsRequested =? 0 then Ok []
  else if Z.of_nat (List.length palette) <? numColorsRequested then
    Throw (Error_ "More colors requested than available in palette")
  else
    let stepSize := Z.of_nat (List.length palette) / numColorsRequested in
    Ok (map (fun i => at_index palette (Z.of_nat i * stepSize))
            (seq 0 (Z.to_nat numColorsRequested))).

Section Neighbours.

(** [Array.prototype.sort] with a comparison function, on the pairs of a
    distance and an index. The order it produces is left to the
    implementation when the comparison function is not consistent (with
    NaN among the distances), so it enters as a parameter. *)
Variable sort :
  (number * nat -> number * nat -> number) ->
  list (number * nat) -> list (number * nat).

(** [distGraphToKNNGraph], for a whole number [k]: for each node the
    indices of the first [k] of the other nodes, sorted by distance.
    [indexedRow[j]] is [undefined] past the end of the row, and reading
    its index then raises a [TypeError]. *)
Definition distGraphToKNNGraph (distGraph : list (list number)) (k : Z)
  : result (list (list nat)) :=
  if Z.of_nat (List.length distGraph) <=? k then
    Throw (Error_ "Warning: more neighbors requested than graph elems")
  else
    mapM (fun ir : nat * list number =>
            let i := fst ir in
            let currRow := snd ir in
            let indexedRow :=
              mapi_from 0 (fun element index => (element, index)) currRow in
            let indexedRow :=
              filter (fun elemIndexPair =>
                        negb (Nat.eqb i (snd elemIndexPair))) indexedRow in
            let indexedRow :=
              sort (fun e1 e2 => (fst e1 - fst e2)%float) indexedRow in
            mapM (fun j =>
                    match nth_error indexedRow j with
                    | Some elemIndexPair => Ok (snd elemIndexPair)
                    | None => Throw (TypeError "undefined operand")
                    end)
                 (seq 0 (Z.to_nat k)))
         (combine (seq 0 (List.length distGraph)) distGraph).

(** What every implementation of [sort] does: it rearranges the array. *)
Definition rearranges : Prop :=
  forall c l, Permutation (sort c l) l.

End Neighbours.

(** ** The distance graph of the shapes (renderer/Color.ts) *)

(** [createMatrix], for whole numbers of rows and columns: a matrix of
    zeros. *)
Definition createMatrix (rows cols : Z) : list (list number) :=
  List.repeat (List.repeat 0%float (Z.to_nat cols)) (Z.to_nat rows).

(** [a[i] = v] for an index within the array. *)
Fixpoint assign {A : Type} (a : list A) (i : nat) (v : A) : list A :=
  match a, i with
  | [], _ => []
  | _ :: a', O => v :: a'
  | x :: a', S i' => x :: assign a' i' v
  end.

(** [graph[i][j]]. *)
Definition entry (graph : list (list number)) (i j : nat) : number :=
  nth j (nth i graph []) NaN.

(** [graph[i][j] = v] for indices within the matrix. *)
Definition assign_entry (graph : list (list number)) (i j : nat) (v : number)
  : list (list number) :=
  assign graph i (assign (nth i graph []) j v).

(** The property [center] of a shape, as far as the legality checks of
    [shapeListToDistanceGraph] tell its values apart: the property may be
    missing, and its [contents] may be an array of numbers, an array whose
    first element is not a number, or no array. *)
Inductive contents : Type :=
| NumberArray (a : list number)
| OtherArray
| NotArray.

Inductive center_property : Type :=
| Missing
| Present (c : contents).

(** [Array.isArray]. *)
Definition isArray (c : contents) : bool :=
  match c with
  | NotArray => false
  | _ => true
  end.

(** The legality checks on two arrays: the same length, and a number as
    first element of each. *)
Definition legal (c1 c2 : contents) : option (list number * list number) :=
  match c1, c2 with
  | NumberArray a1, NumberArray a2 =>
      if negb (Nat.eqb (List.length a1) (List.length a2)) then None
      else if Nat.eqb (List.length a1) 0 then None
      else Some (a1, a2)
  | _, _ => None
  end.

(** Reading [contents] of a center that is [undefined] raises a
    [TypeError]. *)
Definition contents_of (v : option center_property) : result contents :=
  match v with
  | Some (Present c) => Ok c
  | _ => Throw (TypeError "undefined operand")
  end.

(** The pairs [(i, j)] with [i < j < n], in the order of the two nested
    loops. *)
Definition pairs (n : nat) : list (nat * nat) :=
  flat_map (fun i => map (fun j => (i, j)) (seq (S i) (n - S i))) (seq 0 n).

Section DistanceGraph.

Context {T : Types}.

(** [shape.properties.center]. *)
Variable center : Shape -> center_property.

(** The body of the inner loop of [shapeListToDistanceGraph]. The
    condition of the legality checks is evaluated from left to right: the
    contents of the second center are read only when those of the first
    are an array. *)
Definition fill (shapeList : list Shape) (object_graph : list (list number))
    (ij : nat * nat) : result (list (list number)) :=
  let i := fst ij in
  let j := snd ij in
  let v1 := option_map center (nth_error shapeList i) in
  let v2 := option_map center (nth_error shapeList j) in
  let* c1 := contents_of v1 in
  if negb (isArray c1) then
    Throw (Error_ "bad center prop input: not number[]")
  else
    let* c2 := contents_of v2 in
    match legal c1 c2 with
    | None => Throw (Error_ "bad center prop input: not number[]")
    | Some (a1, a2) =>
        let* centerDist := dist a1 a2 in
        let object_graph := assign_entry object_graph i j centerDist in
        Ok (assign_entry object_graph j i (entry object_graph i j))
    end.

Definition shapeListToDistanceGraph (shapeList : list Shape)
  : result (list (list number)) :=
  let n := List.length shapeList in
  let object_graph := createMatrix (Z.of_nat n) (Z.of_nat n) in
  foldM (fill shapeList) (pairs n) object_graph.

(** The distance of the centers of the shapes of indices [i] and [j], both
    centers being arrays of numbers of one length, not empty. *)
Definition centers_distance (shapeList : list Shape) (i j : nat) (d : number)
  : Prop :=
  exists s1 s2 a1 a2,
    nth_error shapeList i = Some s1
    /\ nth_error shapeList j = Some s2
    /\ center s1 = Present (NumberArray a1)
    /\ center s2 = Present (NumberArray a2)
    /\ List.length a1 = List.length a2
    /\ (0 < List.length a1)%nat
    /\ dist a1 a2 = Ok d.

(** Every shape of the list has a center of [dim] numbers. *)
Definition centered (dim : nat) (shapeList : list Shape) : Prop :=
  forall s, In s shapeList ->
            exists a, center s = Present (NumberArray a)
                      /\ List.length a = dim.

Section Colouring.

Context {E : Eigen}.

(** [Array.prototype.sort], as for [distGraphToKNNGraph]. *)
Variable sort :
  (number * nat -> number * nat -> number) ->
  list (number * nat) -> list (number * nat).

(** The colours, and the two stages of the colouring that draw random
    numbers and write the colours into the shapes. *)
Variable RGB : Type.
Variable KNNGraphToColorList :
  list (list nat) -> Z -> list RGB -> result (list RGB).
Variable assignNewColors :
  State -> list RGB -> (Shape -> bool) -> number -> result State.

(** [getNewlyColoredState], with the palette given. *)
Definition getNewlyColoredState (state : State)
    (includeInColorAdjustmentFn : Shape -> bool) (palette : list RGB)
    (alpha : number) : result State :=
  let shapesToAssignColors :=
    filter includeInColorAdjustmentFn (shapes state) in
  let* distanceGraph := shapeListToDistanceGraph shapesToAssignColors in
  let k :=
    if Z.of_nat (List.length distanceGraph) <=? 3
    then Z.of_nat (List.length distanceGraph) - 1
    else 3 in
  if k <=? 0 then Ok state
  else
    let* KNNGraph := distGraphToKNNGraph sort distanceGraph k in
    let* colorList := KNNGraphToColorList KNNGraph k palette in
    assignNewColors state colorList includeInColorAdjustmentFn alpha.

End Colouring.

End DistanceGraph.

(** A matrix of [n] rows and [n] columns. *)
Definition square (n : nat) (g : list (list number)) : Prop :=
  List.length g = n /\ forall row, In row g -> List.length row = n.

(** ** Reference collaborators

    Straightforward implementations of the imported helpers, used to run
    the optimizer on concrete inputs: vectors as lists with lodash's
    [_.sum] and [_.zipWith], matrices as lists of rows, and the computation
    graph as an expression tree with forward evaluation and
    differentiation. *)

Module Ref.

(** [_.sum]: the first element, then each further one added on the right;
    0 for the empty array. *)
Definition sum (l : list number) : number :=
  match l with
  | [] => 0%float
  | x :: l' => fold_left PrimFloat.add l' x
  end.

Definition zipWith (g : number -> number -> number) (l r : list number)
  : list number :=
  map (fun p => g (fst p) (snd p)) (combine l r).

(** An operation on two vectors, defined when they are equally long. *)
Definition on_equal_lengths {A : Type} (g : list number -> list number -> A)
  (l r : list number) : option A :=
  if Nat.eqb (List.length l) (List.length r) then Some (g l r) else None.

#[export] Instance utils : OtherUtils := {
  addv := on_equal_lengths (zipWith PrimFloat.add);
  subv := on_equal_lengths (zipWith PrimFloat.sub);
  negv := map PrimFloat.opp;
  scalev := fun c => map (fun x => (c * x)%float);
  dot := on_equal_lengths (fun l r => sum (zipWith PrimFloat.mul l r));
  normList := fun l => Math_sqrt (sum (map (fun e => (e * e)%float) l));
  repeat := fun n x => List.repeat x n
}.

Definition mat : Type := list (list number).

Definition mat_get (m : mat) (i j : nat) : number := nth j (nth i m []) NaN.

Definition mat_build (r c : nat) (g : nat -> nat -> number) : mat :=
  map (fun i => map (fun j => g i j) (seq 0 c)) (seq 0 r).

Definition mat_rows (m : mat) : nat := List.length m.
Definition mat_cols (m : mat) : nat := List.length (nth 0 m []).

Definition same_size (a b : mat) : bool :=
  Nat.eqb (mat_rows a) (mat_rows b) && Nat.eqb (mat_cols a) (mat_cols b).

#[export] Instance eigen : Eigen := {
  Matrix := mat;
  constant := fun r c v => mat_build r c (fun _ _ => v);
  identity := fun r c =>
    mat_build r c (fun i j => if Nat.eqb i j then 1%float else 0%float);
  rows := mat_rows;
  mget := mat_get;
  mset := fun m i j v =>
    mat_build (mat_rows m) (mat_cols m)
      (fun i' j' => if Nat.eqb i i' && Nat.eqb j j' then v
                    else mat_get m i' j');
  transpose := fun m =>
    Some (mat_build (mat_cols m) (mat_rows m) (fun i j => mat_get m j i));
  matMul := fun a b =>
    if Nat.eqb (mat_cols a) (mat_rows b) then
      Some (mat_build (mat_rows a) (mat_cols b)
              (fun i j =>
                 sum (map (fun k => (mat_get a i k * mat_get b k j)%float)
                          (seq 0 (mat_cols a)))))
    else None;
  matAdd := fun a b =>
    if same_size a b then
      Some (mat_build (mat_rows a) (mat_cols a)
              (fun i j => (mat_get a i j + mat_get b i j)%float))
    else None;
  matSub := fun a b =>
    if same_size a b then
      Some (mat_build (mat_rows a) (mat_cols a)
              (fun i j => (mat_get a i j - mat_get b i j)%float))
    else None;
  mmul := fun a c =>
    mat_build (mat_rows a) (mat_cols a) (fun i j => (mat_get a i j * c)%float)
}.

(** Modelled from the spec: the computation graph of engine/Autodiff,
    which is not among the sources. A node is a constant, an addressable
    input (a variable slot, or the penalty weight at index -1), or an
    operation on nodes. *)
Inductive node : Type :=
| NConst (v : number)
| NInput (index : Z) (v : number)
| NAdd (a b : node)
| NSub (a b : node)
| NMul (a b : node)
| NMax (a b : node)
| NSquared (a : node).

(** Forward evaluation, the inputs read from [env]. *)
Fixpoint eval (env : Z -> number) (n : node) : number :=
  match n with
  | NConst v => v
  | NInput i _ => env i
  | NAdd a b => (eval env a + eval env b)%float
  | NSub a b => (eval env a - eval env b)%float
  | NMul a b => (eval env a * eval env b)%float
  | NMax a b => if JS.lt (eval env a) (eval env b) then eval env b
                else eval env a
  | NSquared a => (eval env a * eval env a)%float
  end.

(** The derivative of a node in the input of index [j]. *)
Fixpoint deriv (env : Z -> number) (j : Z) (n : node) : number :=
  match n with
  | NConst _ => 0%float
  | NInput i _ => if i =? j then 1%float else 0%float
  | NAdd a b => (deriv env j a + deriv env j b)%float
  | NSub a b => (deriv env j a - deriv env j b)%float
  | NMul a b =>
      (deriv env j a * eval env b + eval env a * deriv env j b)%float
  | NMax a b => if JS.lt (eval env a) (eval env b) then deriv env j b
                else deriv env j a
  | NSquared a => (2 * eval env a * deriv env j a)%float
  end.

(** The inputs of an evaluation: the weight at index -1, the variables
    from index 0. *)
Definition env_of (w : number) (xs : list number) : Z -> number :=
  fun i => if i =? -1 then w else nth (Z.to_nat i) xs NaN.

(** A term of the problem: a function name and arguments, each a variable
    slot or a constant. *)
Inductive arg : Type :=
| AVar (slot : nat)
| ANum (v : number).

Record term : Type := mkTerm {
  term_name : string;
  term_args : list arg
}.

#[export] Instance types : Types := {
  Path := nat;
  Translation := unit;
  TranslationNum := unit;
  Shape := unit;
  VarAD := node;
  ArgVal := node;
  Value := node;
  Fn := term;
  VaryMap := list node;
  Graphs := node
}.

(** Modelled from the spec: the objective ["equal"(a, b) = (a - b)^2]. *)
Definition objs : Dict :=
  fun name =>
    if String.eqb name "equal" then
      Some (fun vs => NSquared (NSub (nth 0 vs (NConst NaN))
                                     (nth 1 vs (NConst NaN))))
    else None.

(** Modelled from the spec: the constraint ["contains"], with centres on a
    line: the distance of the centres plus the small radius minus the big
    one. *)
Definition constrs : Dict :=
  fun name =>
    if String.eqb name "contains" then
      Some (fun vs =>
              let bc := nth 0 vs (NConst NaN) in
              let br := nth 1 vs (NConst NaN) in
              let sc := nth 2 vs (NConst NaN) in
              let sr := nth 3 vs (NConst NaN) in
              NSub (NAdd (NMax (NSub bc sc) (NSub sc bc)) sr) br)
    else None.

(** Modelled from the spec: a small starting weight, an empty L-BFGS
    memory of bounded size, the penalty transform [max(c, 0)^2], the sum
    of a list of nodes, and the compiled value and gradient closures,
    which substitute the weight for the input of index -1. The translation
    and the shapes carry no information here: there is nothing to colour,
    and the colouring returns the state as it is. *)
#[export] Instance collaborators : Collaborators := {
  initConstraintWeight := 10e-3%float;
  defaultLbfgsParams :=
    {| lastState := None; lastGrad := None; s_list := []; y_list := [];
       numUnconstrSteps := 0; memSize := 17 |};
  makeTranslationDifferentiable := fun t => t;
  makeTranslationNumeric := fun t => t;
  clone := fun t => t;
  argValue := fun a => a;
  evalFns := fun fns _ varyingMap =>
    map (fun t =>
           {| name := term_name t;
              args := map (fun a => match a with
                                    | AVar i => nth i varyingMap (NConst NaN)
                                    | ANum v => NConst v
                                    end) (term_args t) |}) fns;
  evalShapes := fun s => s;
  genPathMap := fun _ xsVars => xsVars;
  insertVaryings := fun t _ => t;
  add := NAdd;
  mul := NMul;
  differentiable := NConst;
  energyAndGradCompiled := fun xs xsVars energyGraph _ =>
    {| cp_graphs := energyGraph;
       cp_f := fun w zs => eval (env_of w zs) energyGraph;
       cp_gradf := fun w zs =>
         map (fun j => deriv (env_of w zs) (Z.of_nat j) energyGraph)
             (seq 0 (List.length xsVars)) |};
  toPenalty := fun c => NSquared (NMax c (NConst 0%float));
  makeADInputVars := fun xs =>
    mapi_from 0 (fun x j => NInput (Z.of_nat j) x) xs;
  markInput := fun n i => NInput i (eval (fun _ => NaN) n);
  vsum := fun l => fold_left NAdd l (NConst 0%float);
  varOf := fun v _ _ => NConst v;
  setGradVal := fun n _ => n;
  constrDict := constrs;
  objDict := objs;
  colorUninitShapes := fun s => Ok s;
  colorUninitText := fun s => Ok s;
  prettyPrintPath := fun p => NilEmpty.string_of_uint (Nat.to_uint p);
  String_ := fun _ => EmptyString
}.

(** A problem not yet compiled, with the given terms and variables. *)
Definition initial (objFns constrFns : list term) (xs : list number)
  : State :=
  {| varyingValues := xs;
     varyingPaths := seq 0 (List.length xs);
     objFns := objFns;
     constrFns := constrFns;
     translation := tt;
     shapes := [];
     params :=
       {| optStatus := NewIter; weight := 0%float; UOround := 0;
          EPround := 0; lastUOstate := []; lastUOenergy := 0%float;
          lastEPstate := []; lastEPenergy := 0%float; lastGradient := [];
          lastGradientPreconditioned := [];
          lbfgsInfo := defaultLbfgsParams; objective := None;
          gradient := None; currObjective := fun _ => NaN;
          currGradient := fun _ => []; functionsCompiled := false;
          xsVars := []; graphs := None; energyGraph := None;
          constrWeightNode := None; epWeightNode := None |} |}.

End Ref.

(** ** Sample problems

    The problem of one objective ["equal"] on the variables [[0; 5]], and
    the states it runs through. *)

Module Samples.

Import Ref.

Definition problem : State :=
  initial [mkTerm "equal" [AVar 0; AVar 1]] [] [0%float; 5%float].

(** The state after [n] calls of [step] with a budget of 100. *)
Definition after (n : nat) : State :=
  match run n 100 true problem with
  | Ok s => s
  | Throw _ => problem
  end.

(** A state with the given variables, status and compiled energy. *)
Definition with_status (st : OptStatus) (xs : list number)
  (f : list number -> number) (gradf : list number -> list number)
  : State :=
  let s := after 1 in
  set_varyingValues xs
    (set_params
       (set_optStatus st
          (set_currObjective f (set_currGradient gradf (params s)))) s).

(** The energy [|x|] of one variable and its derivative, taken as 1 at 0. *)
Definition f_abs (zs : list number) : number := Math_abs (nth 0 zs NaN).

Definition gradf_abs (zs : list number) : list number :=
  [if JS.lt (nth 0 zs NaN) 0%float then (-1)%float else 1%float].

(** The energy [1 / x^2] of one variable and its derivative [-2 / x^3]. *)
Definition f_inv (zs : list number) : number :=
  let x := nth 0 zs NaN in (1 / (x * x))%float.

Definition gradf_inv (zs : list number) : list number :=
  let x := nth 0 zs NaN in [(-2 / (x * x * x))%float].

(** The energy [x^2] of one variable and its derivative. *)
Definition f_sq (zs : list number) : number :=
  let x := nth 0 zs NaN in (x * x)%float.

Definition gradf_sq (zs : list number) : list number :=
  let x := nth 0 zs NaN in [(2 * x)%float].

(** The L-BFGS memory after the first call, at [x = 1] with the gradient
    of [x^2]. *)
Definition memory1 : LbfgsParams :=
  match lbfgs [1%float] [2%float] defaultLbfgsParams with
  | Ok (_, info) => info
  | Throw _ => defaultLbfgsParams
  end.

(** The L-BFGS memory after a first call at [x] with the gradient of
    [x^2]. *)
Definition memory_at (x : number) : LbfgsParams :=
  {| lastState := Some (colVec [x]);
     lastGrad := Some (colVec (gradf_sq [x]));
     s_list := [];
     y_list := [];
     numUnconstrSteps := 1;
     memSize := memSize defaultLbfgsParams |}.

(** The problem of the objective ["equal"(x0, x1)] and the constraint
    ["contains"] on a circle of radius 1 at [x0] and one of radius 3 at
    [x1]: at [[0; 5]] the objective is 25 and the constraint is violated
    by 7. *)
Definition problem_contains : State :=
  initial [mkTerm "equal" [AVar 0; AVar 1]]
          [mkTerm "contains" [AVar 0; ANum 1%float; AVar 1; ANum 3%float]]
          [0%float; 5%float].

(** The sum and the penalty of the reference graph, on numbers. *)
Definition total (l : list number) : number :=
  fold_left PrimFloat.add l 0%float.

Definition penalty (c : number) : number :=
  let violation := if JS.lt c 0%float then 0%float else c in
  (violation * violation)%float.

(** The state after six calls, which is about to converge, with a last
    exterior-point state of one variable in place of two. *)
Definition mismatched : State :=
  set_params (set_lastEPstate [2.5%float] (params (after 6))) (after 6).

(** The problem ["equal"(x1, x2)] with a third variable [x0], which no
    term mentions, set to NaN. *)
Definition problem_nan : State :=
  initial [mkTerm "equal" [AVar 1; AVar 2]] [] [NaN; 5%float; 5%float].

End Samples.

(** ** Further sample data *)

Module Cases.

Import Ref.

(** An L-BFGS memory without room for a pair of vectors. *)
Definition no_memory : LbfgsParams :=
  {| lastState := None; lastGrad := None; s_list := []; y_list := [];
     numUnconstrSteps := 0; memSize := 0 |}.

(** A problem with a constraint that the dictionary does not hold. *)
Definition problem_unknown : State :=
  initial [mkTerm "equal" [AVar 0; AVar 1]] [mkTerm "nearby" [AVar 0]]
          [0%float; 5%float].

(** The reference matrices with [n] rows and one column. *)
Definition column (n : nat) (m : mat) : Prop :=
  List.length m = n /\ forall row, In row m -> List.length row = 1%nat.

(** A stable insertion sort, the comparison function used as
    [Array.prototype.sort] uses it: [e] goes before the first [x] with
    [c e x < 0]. *)
Fixpoint insert (c : number * nat -> number * nat -> number)
  (e : number * nat) (l : list (number * nat)) : list (number * nat) :=
  match l with
  | [] => [e]
  | x :: l' => if JS.lt (c e x) 0%float then e :: x :: l'
               else x :: insert c e l'
  end.

Definition insertion_sort (c : number * nat -> number * nat -> number)
  (l : list (number * nat)) : list (number * nat) :=
  fold_left (fun sorted e => insert c e sorted) l [].

(** The distances of three points on a line, at 0, 1 and 3. *)
Definition line3 : list (list number) :=
  [[0%float; 1%float; 3%float];
   [1%float; 0%float; 2%float];
   [3%float; 2%float; 0%float]].

(** Shapes given by their centers alone. *)
Definition points : Types :=
  {| Path := nat; Translation := unit; TranslationNum := unit;
     Shape := list number; VarAD := node; ArgVal := node; Value := node;
     Fn := term; VaryMap := list node; Graphs := node |}.

Definition center_of (s : @Shape points) : center_property :=
  Present (NumberArray s).

(** Three shapes with their centers on a line, at 0, 1 and 3. *)
Definition shapes3 : list (@Shape points) :=
  [[0%float; 0%float]; [1%float; 0%float]; [3%float; 0%float]].

(** A state with these shapes and nothing to optimize. *)
Definition drawing : @State eigen points :=
  @mkState eigen points [] [] [] [] tt shapes3
    (@mkParams eigen points NewIter 0%float 0 0 [] 0%float [] 0%float [] []
       defaultLbfgsParams None None (fun _ => NaN) (fun _ => []) false []
       None None None None).

(** A choice of colours that draws no random number, one colour of the
    palette for each node, and a writing stage that leaves the state as it
    is. *)
Definition first_colours (ajlist : list (list nat)) (k : Z)
  (palette : list nat) : result (list nat) :=
  Ok (firstn (List.length ajlist) palette).

Definition unchanged (state : @State eigen points) (colorList : list nat)
  (includeInColorAdjustmentFn : @Shape points -> bool) (alpha : number)
  : result (@State eigen points) :=
  Ok state.

End Cases.

Import Ref.

(** * Properties *)


(** ** Binary64 arithmetic

    Facts about rounding, derived from the specification of the primitive
    floats: signs are kept, [<=] is transitive away from NaN, and a
    number that is not negative is not above its tenfold. *)

Unset Implicit Arguments.

(** [0 <= x] holds of the numbers that are not negative. *)
Lemma leb_zero_nonneg (x : float) :
  PrimFloat.leb 0%float x = sf_nonneg (Prim2SF x).
Proof.
  rewrite leb_spec. change (Prim2SF 0%float) with (S754_zero false).
  destruct (Prim2SF x) as [s|s| |s m e]; try destruct s; reflexivity.
Qed.

(** One shift to the right halves the mantissa. *)
Lemma shr_1_m mrs : 0 <= shr_m mrs -> shr_m (shr_1 mrs) = shr_m mrs / 2.
Proof.
  destruct mrs as [m r s]. simpl. intros Hm.
  destruct m as [|p|p]; [reflexivity| |lia].
  destruct p as [p|p|]; simpl.
  - rewrite Pos2Z.inj_xI. apply Z.div_unique with (r := 1); lia.
  - rewrite Pos2Z.inj_xO. apply Z.div_unique with (r := 0); lia.
  - reflexivity.
Qed.

(** [p] shifts divide the mantissa by [2^p]. *)
Lemma iter_shr_1_m p : forall mrs,
  0 <= shr_m mrs ->
  shr_m (SpecFloat.iter_pos shr_1 p mrs) = shr_m mrs / 2 ^ Z.pos p.
Proof.
  induction p as [p IH|p IH|]; intros mrs Hm; simpl SpecFloat.iter_pos.
  - assert (H1 : 0 <= shr_m (shr_1 mrs)).
    { rewrite shr_1_m by assumption. apply Z.div_pos; lia. }
    assert (H2 : 0 <= shr_m (SpecFloat.iter_pos shr_1 p (shr_1 mrs))).
    { rewrite IH by assumption. apply Z.div_pos; [lia|apply Z.pow_pos_nonneg; lia]. }
    rewrite IH, IH, shr_1_m by assumption.
    replace (Z.pos p~1) with (1 + Z.pos p + Z.pos p) by lia.
    rewrite !Z.pow_add_r, Z.pow_1_r by lia.
    assert (0 < 2 ^ Z.pos p) by (apply Z.pow_pos_nonneg; lia).
    rewrite !Z.div_div by lia. all: try (f_equal; ring).
  - assert (H2 : 0 <= shr_m (SpecFloat.iter_pos shr_1 p mrs)).
    { rewrite IH by assumption. apply Z.div_pos; [lia|apply Z.pow_pos_nonneg; lia]. }
    rewrite IH, IH by assumption.
    replace (Z.pos p~0) with (Z.pos p + Z.pos p) by lia.
    rewrite !Z.pow_add_r by lia.
    assert (0 < 2 ^ Z.pos p) by (apply Z.pow_pos_nonneg; lia).
    rewrite !Z.div_div by lia. all: try (f_equal; ring).
  - rewrite shr_1_m by assumption. reflexivity.
Qed.

(** A number of [d] binary digits lies between [2^(d-1)] and [2^d]. *)
Lemma digits2_pos_bounds (m : positive) :
  2 ^ (Z.pos (digits2_pos m) - 1) <= Z.pos m < 2 ^ Z.pos (digits2_pos m).
Proof.
  induction m as [m IH|m IH|]; simpl digits2_pos.
  - rewrite Pos2Z.inj_succ.
    replace (Z.succ (Z.pos (digits2_pos m)) - 1)
      with (Z.succ (Z.pos (digits2_pos m) - 1)) by lia.
    rewrite !Z.pow_succ_r by lia. lia.
  - rewrite Pos2Z.inj_succ.
    replace (Z.succ (Z.pos (digits2_pos m)) - 1)
      with (Z.succ (Z.pos (digits2_pos m) - 1)) by lia.
    rewrite !Z.pow_succ_r by lia. lia.
  - simpl. lia.
Qed.

(** Rounding to nearest keeps the mantissa or adds one to it. *)
Lemma round_nearest_even_bounds m l :
  m <= round_nearest_even m l <= m + 1.
Proof.
  destruct l as [|[| |]]; simpl; try lia.
  destruct (Z.even m); lia.
Qed.

Lemma shr_record_of_loc_m m l : shr_m (shr_record_of_loc m l) = m.
Proof. destruct l as [|[| |]]; reflexivity. Qed.

(** The mantissa and the exponent after the shift that brings a number
    to its canonical exponent. *)
Lemma shr_fexp_spec m e l :
  0 <= m ->
  let n := fexp prec emax (Zdigits2 m + e) - e in
  shr_fexp prec emax m e l
  = (fst (shr_fexp prec emax m e l), if 0 <? n then e + n else e)
  /\ shr_m (fst (shr_fexp prec emax m e l))
     = if 0 <? n then m / 2 ^ n else m.
Proof.
  intros Hm n. unfold shr_fexp. fold n. unfold shr.
  destruct n as [|p|p]; simpl; rewrite ?shr_record_of_loc_m;
    try (split; reflexivity).
  split; [reflexivity|].
  rewrite iter_shr_1_m by (rewrite shr_record_of_loc_m; exact Hm).
  rewrite shr_record_of_loc_m. reflexivity.
Qed.

(** The shape of a rounded result, for a mantissa that is not negative. *)
Lemma binary_round_aux_shape sx mx e l :
  0 <= mx ->
  let n1 := fexp prec emax (Zdigits2 mx + e) - e in
  let m1 := if 0 <? n1 then mx / 2 ^ n1 else mx in
  let e1 := if 0 <? n1 then e + n1 else e in
  exists m1',
    m1 <= m1' <= m1 + 1
    /\ binary_round_aux prec emax sx mx e l
       = finish sx (shift2_m m1' e1) (shift2_e m1' e1).
Proof.
  intros Hm n1 m1 e1. unfold binary_round_aux.
  destruct (shr_fexp_spec mx e l Hm) as [H1 H1m].
  fold n1 in H1, H1m. fold e1 in H1. fold m1 in H1m.
  rewrite H1.
  set (mrs1 := fst (shr_fexp prec emax mx e l)) in *.
  set (m1' := round_nearest_even (shr_m mrs1) (loc_of_shr_record mrs1)).
  assert (Hb : m1 <= m1' <= m1 + 1).
  { unfold m1'. rewrite <- H1m. apply round_nearest_even_bounds. }
  assert (Hm1 : 0 <= m1).
  { unfold m1. destruct (Z.ltb_spec 0 n1); [|exact Hm].
    apply Z.div_pos; [exact Hm|]. apply Z.pow_pos_nonneg; lia. }
  assert (Hm1' : 0 <= m1') by (destruct Hb; lia).
  exists m1'. split; [exact Hb|].
  destruct (shr_fexp_spec m1' e1 loc_Exact Hm1') as [H2 H2m].
  cbv zeta in H2, H2m.
  rewrite H2, H2m. reflexivity.
Qed.

(** The representation of the growth factor 10. *)
Lemma ten_spec : Prim2SF 10%float = S754_finite false ten_m (-49).
Proof. reflexivity. Qed.

Lemma pow2_lt_inv a b : 0 <= b -> 2 ^ a < 2 ^ b -> a < b.
Proof.
  intros Hb H. destruct (Z.lt_ge_cases a b) as [|Hge]; [assumption|].
  exfalso. assert (2 ^ b <= 2 ^ a) by (apply Z.pow_le_mono_r; lia). lia.
Qed.

Lemma div_pow2_lower m k n :
  0 <= n -> 0 <= k -> 2 ^ (k + n) <= m -> 2 ^ k <= m / 2 ^ n.
Proof.
  intros Hn Hk H. apply Z.div_le_lower_bound.
  - apply Z.pow_pos_nonneg; lia.
  - rewrite <- Z.pow_add_r by lia. replace (n + k) with (k + n) by lia.
    exact H.
Qed.

Lemma Zdigits2_pos_bounds m :
  0 < m -> 0 < Zdigits2 m /\ 2 ^ (Zdigits2 m - 1) <= m < 2 ^ Zdigits2 m.
Proof.
  destruct m as [|p|p]; try lia. intros _. simpl.
  split; [lia|apply digits2_pos_bounds].
Qed.

(** A positive mantissa stays positive in the second shift, and the
    exponent does not decrease; when it stays, so does the mantissa. *)
Lemma second_shift m e :
  0 < m -> emin <= e ->
  (0 < shift2_m m e /\ e < shift2_e m e)
  \/ (shift2_m m e = m /\ shift2_e m e = e).
Proof.
  intros Hm He. unfold shift2_m, shift2_e.
  set (n2 := fexp prec emax (Zdigits2 m + e) - e).
  destruct (Zdigits2_pos_bounds m Hm) as [Hd [Hlo Hhi]].
  destruct (Z.ltb_spec 0 n2) as [Hn|Hn]; [left|right; auto].
  assert (Hn2 : n2 = Zdigits2 m - prec).
  { unfold n2, fexp in *. change (SpecFloat.emin prec emax) with emin in *.
    lia. }
  split; [|lia].
  assert (2 ^ 52 <= m / 2 ^ n2); [|lia].
  apply div_pow2_lower; try lia.
  replace (52 + n2) with (Zdigits2 m - 1) by (rewrite Hn2; unfold prec; lia).
  exact Hlo.
Qed.

Lemma SFleb_finite_lt mw ew m e :
  ew < e -> SFleb (S754_finite false mw ew) (S754_finite false m e) = true.
Proof.
  intros H. unfold SFleb, SFcompare.
  replace (ew ?= e) with Lt by (symmetry; apply Z.compare_lt_iff; lia).
  reflexivity.
Qed.

Lemma SFleb_finite_eq mw ew m :
  (mw <= m)%positive ->
  SFleb (S754_finite false mw ew) (S754_finite false m ew) = true.
Proof.
  intros H. unfold SFleb, SFcompare. rewrite Z.compare_refl.
  change (Pos.compare_cont Eq mw m) with (Pos.compare mw m).
  unfold Pos.le in H. destruct (mw ?= m)%positive; congruence.
Qed.

(** The product of 10 and a canonical positive finite number [mw * 2^ew],
    rounded: it is not below that number. Either the exponent goes up, or
    the number is subnormal and the product is exact. *)
Lemma mul10_mantissa (mw : positive) (ew : Z) :
  bounded prec emax mw ew = true ->
  let r := binary_round_aux prec emax false (Z.pos (ten_m * mw)) (-49 + ew)
                            loc_Exact in
  SFleb (S754_finite false mw ew) r = true /\ sf_nonneg r = true.
Proof.
  intros Hb r.
  apply andb_true_iff in Hb. destruct Hb as [Hc _].
  unfold canonical_mantissa in Hc. apply Z.eqb_eq in Hc.
  unfold fexp in Hc. change (SpecFloat.emin prec emax) with (-1074) in Hc.
  change prec with 53 in Hc.
  destruct (digits2_pos_bounds mw) as [Hwlo Hwhi].
  set (dw := Z.pos (digits2_pos mw)) in *.
  destruct (digits2_pos_bounds (ten_m * mw)) as [HMlo HMhi].
  set (dM := Z.pos (digits2_pos (ten_m * mw))) in *.
  assert (HM : Z.pos (ten_m * mw) = 2 ^ 49 * (10 * Z.pos mw)).
  { rewrite Pos2Z.inj_mul. unfold ten_m. change (2 ^ 49) with 562949953421312.
    lia. }
  assert (Hdw : 0 < dw) by (unfold dw; lia).
  assert (Hlow : 2 ^ (dw + 51) <= Z.pos (ten_m * mw)).
  { rewrite HM. replace (dw + 51) with (49 + (3 + (dw - 1))) by lia.
    rewrite !Z.pow_add_r by lia. change (2 ^ 3) with 8.
    assert (0 < 2 ^ 49) by (apply Z.pow_pos_nonneg; lia). nia. }
  assert (HdM : dw + 52 <= dM).
  { assert (dw + 51 < dM); [|lia]. apply pow2_lt_inv; [unfold dM; lia|lia]. }
  destruct (binary_round_aux_shape false (Z.pos (ten_m * mw)) (-49 + ew)
              loc_Exact ltac:(lia)) as (m1' & Hm1' & Hr).
  cbv zeta in Hm1', Hr. fold r in Hr.
  change (Zdigits2 (Z.pos (ten_m * mw))) with dM in *.
  unfold fexp in Hm1', Hr.
  change (SpecFloat.emin prec emax) with (-1074) in *.
  change prec with 53 in *.
  set (E1 := Z.max (dM + (-49 + ew) - 53) (-1074)) in *.
  assert (HE1 : ew <= E1) by (unfold E1; lia).
  set (n1 := E1 - (-49 + ew)) in *.
  assert (Hn1 : 0 < n1) by (unfold n1; lia).
  apply Z.ltb_lt in Hn1. rewrite Hn1 in *. apply Z.ltb_lt in Hn1.
  replace (-49 + ew + n1) with E1 in * by (unfold n1; lia).
  set (m1 := Z.pos (ten_m * mw) / 2 ^ n1) in *.
  assert (Hm1 : (ew < E1 /\ 0 < m1) \/ (ew = E1 /\ Z.pos mw <= m1)).
  { destruct (Z.eq_dec ew E1) as [Heq|Hne].
    - right. split; [exact Heq|].
      assert (n1 = 49) by (unfold n1; lia).
      unfold m1. rewrite H, HM, Z.mul_comm, Z.div_mul by lia. lia.
    - left. split; [lia|].
      assert (Hn1' : n1 = dM - 53) by (unfold n1, E1 in *; lia).
      assert (2 ^ 52 <= m1); [|lia].
      unfold m1. apply div_pow2_lower; try lia.
      replace (52 + n1) with (dM - 1) by lia. exact HMlo. }
  assert (Hpos : 0 < m1') by lia.
  assert (HeE : emin <= E1) by (unfold E1; change emin with (-1074); lia).
  rewrite Hr.
  destruct (second_shift m1' E1 Hpos HeE) as [[Hm2 He2]|[Hm2 He2]].
  - destruct (shift2_m m1' E1) as [|p2|p2]; try lia. simpl.
    destruct (_ <=? _); [|split; reflexivity].
    split; [|reflexivity]. apply SFleb_finite_lt. lia.
  - rewrite Hm2, He2.
    destruct m1' as [|p2|p2]; try lia. simpl.
    destruct (_ <=? _); [|split; reflexivity].
    split; [|reflexivity].
    destruct Hm1 as [[Hlt _]|[Heq Hle]].
    + apply SFleb_finite_lt. lia.
    + rewrite <- Heq. apply SFleb_finite_eq. lia.
Qed.

(** Ten times a number that is not negative is not below it. *)
Lemma mul10_ge (w : float) :
  PrimFloat.leb 0%float w = true ->
  PrimFloat.leb w (10 * w)%float = true
  /\ PrimFloat.leb 0%float (10 * w)%float = true.
Proof.
  rewrite !leb_zero_nonneg, leb_spec, mul_spec, ten_spec.
  pose proof (Prim2SF_valid w) as Hv.
  destruct (Prim2SF w) as [s|s| |s m e]; simpl; try discriminate.
  - intros _. destruct s; split; reflexivity.
  - destruct s; [discriminate|]. intros _. split; reflexivity.
  - destruct s; [discriminate|]. intros _.
    simpl in Hv. apply (mul10_mantissa m e Hv).
Qed.

Lemma shift2_m_nonneg m e : 0 <= m -> 0 <= shift2_m m e.
Proof.
  intros Hm. unfold shift2_m.
  destruct (Z.ltb_spec 0 (fexp prec emax (Zdigits2 m + e) - e)); [|exact Hm].
  apply Z.div_pos; [exact Hm|]. apply Z.pow_pos_nonneg; lia.
Qed.

(** Rounding a mantissa that is not negative, with a positive sign, gives
    a number that is not negative. *)
Lemma binary_round_aux_nonneg mx e l :
  0 <= mx -> sf_nonneg (binary_round_aux prec emax false mx e l) = true.
Proof.
  intros Hm.
  destruct (binary_round_aux_shape false mx e l Hm) as (m1' & Hb & ->).
  cbv zeta in Hb.
  assert (H1 : 0 <= m1').
  { destruct Hb as [Hb _]. revert Hb.
    destruct (Z.ltb_spec 0 (fexp prec emax (Zdigits2 mx + e) - e));
      intros Hb; [|lia].
    assert (0 <= mx / 2 ^ (fexp prec emax (Zdigits2 mx + e) - e)); [|lia].
    apply Z.div_pos; [exact Hm|]. apply Z.pow_pos_nonneg; lia. }
  pose proof (shift2_m_nonneg m1' (if 0 <? fexp prec emax (Zdigits2 mx + e) - e
                                   then e + (fexp prec emax (Zdigits2 mx + e) - e)
                                   else e) H1) as H2.
  destruct (shift2_m _ _) as [|p|p]; simpl; try reflexivity; try lia.
  destruct (_ <=? _); reflexivity.
Qed.

(** The representation of 2. *)
Lemma two_spec : Prim2SF 2%float = S754_finite false 4503599627370496 (-51).
Proof. reflexivity. Qed.

(** Twice a number that is not negative is not negative. *)
Lemma mul2_nonneg (a : float) :
  PrimFloat.leb 0%float a = true ->
  PrimFloat.leb 0%float (2 * a)%float = true.
Proof.
  rewrite !leb_zero_nonneg, mul_spec, two_spec.
  destruct (Prim2SF a) as [s|s| |s m e]; simpl; try discriminate.
  - reflexivity.
  - destruct s; [discriminate|reflexivity].
  - destruct s; [discriminate|]. intros _.
    apply binary_round_aux_nonneg. lia.
Qed.

(** The sum of two numbers that are not negative is not negative. *)
Lemma add_nonneg (a b : float) :
  PrimFloat.leb 0%float a = true ->
  PrimFloat.leb 0%float b = true ->
  PrimFloat.leb 0%float (a + b)%float = true.
Proof.
  rewrite !leb_zero_nonneg, add_spec.
  destruct (Prim2SF a) as [s|s| |s m e];
    destruct (Prim2SF b) as [s'|s'| |s' m' e']; simpl;
    try discriminate; try reflexivity;
    try (destruct s; try discriminate); try (destruct s'; try discriminate);
    try reflexivity.
  intros _ _. unfold binary_normalize. simpl.
  unfold binary_round.
  destruct (shl_align _ _ _) as [mz ez].
  apply binary_round_aux_nonneg. lia.
Qed.

(** Half of a number that is not negative is not negative. *)
Lemma div2_nonneg (a : float) :
  PrimFloat.leb 0%float a = true ->
  PrimFloat.leb 0%float (a / 2)%float = true.
Proof.
  rewrite !leb_zero_nonneg, div_spec, two_spec.
  destruct (Prim2SF a) as [s|s| |s m e]; simpl; try discriminate.
  - reflexivity.
  - destruct s; [discriminate|reflexivity].
  - destruct s; [discriminate|]. intros _.
    unfold SF64div, SFdiv.
    destruct (SFdiv_core_binary _ _ _ _ _ _) as [[mz ez] lz] eqn:Hd.
    apply binary_round_aux_nonneg.
    unfold SFdiv_core_binary in Hd.
    set (m' := match _ - _ - _ with Z0 => _ | Z.pos _ => _ | Z.neg _ => _ end)
      in Hd.
    assert (Hm' : 0 <= m').
    { unfold m'. destruct (_ - _ - _); try lia.
      apply Z.shiftl_nonneg. lia. }
    pose proof (Z.div_pos m' 4503599627370496 Hm' ltac:(lia)) as Hq.
    unfold Z.div in Hq.
    destruct (Z.div_eucl m' 4503599627370496) as [q r].
    injection Hd as <- _ _. exact Hq.
Qed.

(** For a number that is not negative, being below +infinity is being
    finite. *)
Lemma ltb_infinity_finite (b : float) :
  PrimFloat.leb 0%float b = true ->
  PrimFloat.ltb b infinity = PrimFloat.is_finite b.
Proof.
  rewrite leb_zero_nonneg. unfold is_finite, is_nan, is_infinity.
  rewrite ltb_spec, !FloatAxioms.eqb_spec, abs_spec.
  change (Prim2SF infinity) with (S754_infinity false).
  destruct (Prim2SF b) as [s|s| |s m e]; simpl; try discriminate.
  - reflexivity.
  - destruct s; [discriminate|reflexivity].
  - destruct s; [discriminate|]. intros _.
    unfold SFeqb, SFcompare. rewrite Z.compare_refl.
    change (Pos.compare_cont Eq m m) with (Pos.compare m m).
    rewrite Pos.compare_refl. reflexivity.
Qed.

(** [<=] is transitive on the numbers that are not negative. *)
Lemma SFleb_trans_nonneg x y z :
  sf_nonneg x = true -> sf_nonneg y = true -> sf_nonneg z = true ->
  SFleb x y = true -> SFleb y z = true -> SFleb x z = true.
Proof.
  destruct x as [sx|sx| |sx mx ex]; destruct y as [sy|sy| |sy my ey];
    destruct z as [sz|sz| |sz mz ez]; simpl;
    try discriminate; try reflexivity;
    try (destruct sx; try discriminate); try (destruct sy; try discriminate);
    try (destruct sz; try discriminate); try reflexivity;
    try (intros; assumption).
  intros _ _ _. unfold SFleb, SFcompare.
  change (Pos.compare_cont Eq mx my) with (Pos.compare mx my).
  change (Pos.compare_cont Eq my mz) with (Pos.compare my mz).
  change (Pos.compare_cont Eq mx mz) with (Pos.compare mx mz).
  destruct (Z.compare_spec ex ey); destruct (Z.compare_spec ey ez);
    destruct (Z.compare_spec ex ez); try lia; try discriminate;
    try reflexivity;
    destruct (Pos.compare_spec mx my); destruct (Pos.compare_spec my mz);
    destruct (Pos.compare_spec mx mz); try lia; try discriminate;
    try reflexivity.
Qed.

Lemma leb_trans_nonneg (x y z : float) :
  PrimFloat.leb 0%float x = true ->
  PrimFloat.leb 0%float y = true ->
  PrimFloat.leb 0%float z = true ->
  PrimFloat.leb x y = true -> PrimFloat.leb y z = true ->
  PrimFloat.leb x z = true.
Proof.
  rewrite !leb_zero_nonneg, !leb_spec. apply SFleb_trans_nonneg.
Qed.

Lemma leb_refl_nonneg (x : float) :
  PrimFloat.leb 0%float x = true -> PrimFloat.leb x x = true.
Proof.
  rewrite leb_zero_nonneg, leb_spec.
  destruct (Prim2SF x) as [s|s| |s m e]; simpl; try discriminate;
    try reflexivity.
  - destruct s; [discriminate|reflexivity].
  - destruct s; [discriminate|]. intros _.
    unfold SFleb, SFcompare. rewrite Z.compare_refl.
    change (Pos.compare_cont Eq m m) with (Pos.compare m m).
    rewrite Pos.compare_refl. reflexivity.
Qed.

Set Implicit Arguments.

(** ** Exceptions of imported functions *)

Lemma call_throw {A : Type} (callee : string) (r : option A) e :
  call callee r = Throw e -> e = Raised callee.
Proof. destruct r; simpl; [discriminate|]. intros H; injection H as <-. reflexivity. Qed.

Lemma call_ok {A : Type} (callee : string) (r : option A) a :
  call callee r = Ok a -> r = Some a.
Proof. destruct r; simpl; [|discriminate]. intros H; injection H as <-. reflexivity. Qed.

(** ** The line search *)

Section LineSearchProperties.

Context {U : OtherUtils}.

Variable xs0 : list number.
Variable f : list number -> number.
Variable gradf : list number -> list number.
Variable gradfxs0 : list number.
Variable fxs0 : number.
Variable maxSteps : Z.

Section PassProperties.

(** The value of [dufAtx0]. *)
Variable slope0 : number.

Abbreviation body := (aw_body xs0 f gradf gradfxs0 fxs0 maxSteps slope0).
Abbreviation loop := (aw_loop xs0 f gradf gradfxs0 fxs0 maxSteps slope0).

(** The body of the loop, with its constants written out. *)
Lemma aw_body_unfold a b t i :
  let d := negv gradfxs0 in
  let armijo_at (t : number) : result bool :=
    let* point := call "addv" (addv xs0 (scalev t d)) in
    Ok (JS.le (f point) (fxs0 + 0.001 * t * slope0)%float) in
  let wolfe_at (t : number) : result bool :=
    let* point := call "addv" (addv xs0 (scalev t d)) in
    let* slope := call "dot" (dot d (gradf point)) in
    Ok (JS.ge slope (0.9 * slope0)%float) in
  let next (a b : number) :=
    if JS.lt b Infinity then ((a + b) / 2)%float else (2 * a)%float in
  body (mkAw a b t i)
  = if shouldStop maxSteps i a b then Ok (inr t)
    else
      let* isArmijo := armijo_at t in
      let* isWolfe := wolfe_at t in
      Ok (if negb isArmijo then inl (mkAw a t (next a t) (i + 1))
          else if negb isWolfe then inl (mkAw t b (next t b) (i + 1))
          else inr t).
Proof.
  intros d armijo_at wolfe_at next. unfold aw_body.
  destruct (shouldStop maxSteps i a b); [reflexivity|].
  change (armijo xs0 f gradfxs0 fxs0 slope0 t) with (armijo_at t).
  change (wolfe xs0 gradf gradfxs0 slope0 t) with (wolfe_at t).
  destruct (armijo_at t) as [[|]|e]; simpl; [| |reflexivity];
    destruct (wolfe_at t) as [[|]|e]; reflexivity.
Qed.

(** A pass raises only what a vector helper raises. *)
Lemma aw_body_throw v e : body v = Throw e -> exists c, e = Raised c.
Proof.
  destruct v as [a b t i]. rewrite aw_body_unfold.
  destruct (shouldStop maxSteps i a b); [discriminate|].
  destruct (call "addv" _) as [point|e1] eqn:Ha; simpl.
  - destruct (call "dot" _) as [slope|e2] eqn:Hd; simpl.
    + discriminate.
    + intros H; injection H as <-. apply call_throw in Hd. eauto.
  - intros H; injection H as <-. apply call_throw in Ha. eauto.
Qed.

(** A pass that does not [break] leaves either at too many steps or
    advances the counter by one. *)
Lemma aw_body_continue v v' :
  body v = Ok (inl v') -> aw_i v <= maxSteps /\ aw_i v' = aw_i v + 1.
Proof.
  destruct v as [a b t i]. rewrite aw_body_unfold. unfold shouldStop.
  destruct (JS.lt _ minInterval); simpl; [discriminate|].
  destruct (maxSteps <? i) eqn:Hi; [discriminate|].
  apply Z.ltb_ge in Hi.
  destruct (call "addv" _) as [point|e1]; simpl; [|discriminate].
  destruct (call "dot" _) as [slope|e2]; simpl; [|discriminate].
  destruct (negb _); [intros H; injection H as <-; simpl; lia|].
  destruct (negb _); [intros H; injection H as <-; simpl; lia|discriminate].
Qed.

(** The loop ends: once the fuel exceeds the passes that remain before
    the counter passes [maxSteps], it ends by a [break] or an exception. *)
Lemma aw_loop_enough fuel : forall v,
  (0 < fuel)%nat ->
  maxSteps + 1 - aw_i v < Z.of_nat fuel ->
  loop fuel v <> Ok None.
Proof.
  induction fuel as [|fuel IH]; intros v Hpos Hf; [lia|].
  simpl. destruct (body v) as [[v'|t]|e] eqn:Hb; simpl; try discriminate.
  apply aw_body_continue in Hb. apply IH; lia.
Qed.

(** More fuel does not change the outcome of a loop that ended. *)
Lemma aw_loop_more fuel : forall v k,
  loop fuel v <> Ok None -> loop (fuel + k) v = loop fuel v.
Proof.
  induction fuel as [|fuel IH]; intros v k; simpl; [congruence|].
  destruct (body v) as [[v1|t]|e]; simpl; [apply IH|reflexivity|reflexivity].
Qed.

(** The variables at which the loop ends are at a [break]. *)
Lemma aw_loop_break fuel : forall v v',
  loop fuel v = Ok (Some v') -> body v' = Ok (inr (aw_t v')).
Proof.
  induction fuel as [|fuel IH]; intros v v'; simpl; [discriminate|].
  destruct (body v) as [[v1|t]|e] eqn:Hb; simpl; [apply IH| |discriminate].
  intros H; injection H as <-. rewrite Hb. do 2 f_equal.
  destruct v as [a b t' i]. rewrite aw_body_unfold in Hb. simpl.
  destruct (shouldStop _ _ _ _); [congruence|].
  destruct (call "addv" _) as [point|e1]; simpl in Hb; [|discriminate].
  destruct (call "dot" _) as [slope|e2]; simpl in Hb; [|discriminate].
  destruct (negb _); [discriminate|].
  destruct (negb _); [discriminate|congruence].
Qed.

Lemma aw_loop_throw fuel : forall v e,
  loop fuel v = Throw e -> exists c, e = Raised c.
Proof.
  induction fuel as [|fuel IH]; intros v e; simpl; [discriminate|].
  destruct (body v) as [[v1|t]|e1] eqn:Hb; simpl;
    [apply IH|discriminate|].
  intros H; injection H as <-. eapply aw_body_throw; eauto.
Qed.

(** The variables at which the loop ends are variables with which a pass
    starts. *)
Lemma aw_loop_reach fuel : forall v v',
  aw_reach xs0 f gradf gradfxs0 fxs0 maxSteps slope0 v ->
  loop fuel v = Ok (Some v') ->
  aw_reach xs0 f gradf gradfxs0 fxs0 maxSteps slope0 v'.
Proof.
  induction fuel as [|fuel IH]; intros v v' Hr; simpl; [discriminate|].
  destruct (body v) as [[v1|t]|e] eqn:Hb; simpl; [| |discriminate].
  - apply IH. eapply aw_reach_next; eauto.
  - intros H; injection H as <-. exact Hr.
Qed.

Lemma next_trial_nonneg (a b : number) :
  nonneg a -> nonneg b ->
  nonneg (if JS.lt b Infinity then ((a + b) / 2)%float else (2 * a)%float).
Proof.
  unfold nonneg, JS.le. intros Ha Hb. destruct (JS.lt b Infinity).
  - apply div2_nonneg. apply add_nonneg; assumption.
  - apply mul2_nonneg. assumption.
Qed.

(** The bounds of the bracket and the trial are never negative and never
    NaN. *)
Lemma aw_reach_nonneg v :
  aw_reach xs0 f gradf gradfxs0 fxs0 maxSteps slope0 v ->
  nonneg (aw_a v) /\ nonneg (aw_b v) /\ nonneg (aw_t v).
Proof.
  induction 1 as [|v v' Hr (Ha & Hb & Ht) Hbody].
  - repeat split; reflexivity.
  - destruct v as [a b t i]. simpl in Ha, Hb, Ht.
    rewrite aw_body_unfold in Hbody.
    destruct (shouldStop maxSteps i a b); [discriminate|].
    destruct (call "addv" _) as [point|e1]; simpl in Hbody; [|discriminate].
    destruct (call "dot" _) as [slope|e2]; simpl in Hbody; [|discriminate].
    destruct (negb _).
    + injection Hbody as <-. simpl.
      repeat split; try assumption. apply next_trial_nonneg; assumption.
    + destruct (negb _); [|discriminate].
      injection Hbody as <-. simpl.
      repeat split; try assumption. apply next_trial_nonneg; assumption.
Qed.

(** C5: the loop starts from the bracket [[0, +infinity)] and the trial
    1.0, with the Armijo constant 0.001 and the curvature constant 0.9;
    the search computes the slope [<descentDir, gradf(xs0)>] before the
    loop and runs the loop with it, and [slope0] stands for its value.
    Every pass that is not stopped by the interval and step-count
    test evaluates the Armijo and the weak Wolfe condition at [t] (an
    exception of [addv] or [dot] ends the search); when the Armijo
    condition fails the upper bound becomes [t]; otherwise, when the weak
    Wolfe condition fails, the lower bound becomes [t]; otherwise [t] is
    returned. The next trial is the midpoint of the new bracket when its
    upper bound is finite, and twice its lower bound otherwise. *)
Theorem awLineSearch2_iteration :
  let d := negv gradfxs0 in
  let armijo_at (t : number) : result bool :=
    let* point := call "addv" (addv xs0 (scalev t d)) in
    Ok (JS.le (f point) (fxs0 + 0.001 * t * slope0)%float) in
  let wolfe_at (t : number) : result bool :=
    let* point := call "addv" (addv xs0 (scalev t d)) in
    let* slope := call "dot" (dot d (gradf point)) in
    Ok (JS.ge slope (0.9 * slope0)%float) in
  let next (a b : number) :=
    if PrimFloat.is_finite b then ((a + b) / 2)%float else (2 * a)%float in
  aw_init = mkAw 0%float Infinity 1.0%float 0
  /\ awLineSearch2 xs0 f gradf gradfxs0 fxs0 maxSteps
     = (let* slope := call "dot" (dot d (gradf xs0)) in
        let* last :=
          aw_loop xs0 f gradf gradfxs0 fxs0 maxSteps slope
                  (aw_fuel maxSteps) aw_init in
        match last with
        | Some v => Ok (aw_t v)
        | None => Ok NaN
        end)
  /\ forall v,
      aw_reach xs0 f gradf gradfxs0 fxs0 maxSteps slope0 v ->
      let '(mkAw a b t i) := v in
      body v
      = if shouldStop maxSteps i a b then Ok (inr t)
        else
          let* isArmijo := armijo_at t in
          let* isWolfe := wolfe_at t in
          Ok (if negb isArmijo then inl (mkAw a t (next a t) (i + 1))
              else if negb isWolfe then inl (mkAw t b (next t b) (i + 1))
              else inr t).
Proof.
  intros d armijo_at wolfe_at next. split; [reflexivity|].
  split; [reflexivity|].
  intros v Hr. destruct (aw_reach_nonneg Hr) as (Ha & Hb & Ht).
  destruct v as [a b t i]. simpl in Ha, Hb, Ht.
  rewrite aw_body_unfold. unfold next.
  rewrite <- (ltb_infinity_finite t Ht), <- (ltb_infinity_finite b Hb).
  reflexivity.
Qed.

(** With helpers that return on vectors of one length and a gradient with
    one entry for each variable, no pass raises an exception. *)
Lemma aw_body_returns v :
  vector_laws ->
  List.length gradfxs0 = List.length xs0 ->
  gradient_on (List.length xs0) gradf ->
  exists r, body v = Ok r.
Proof.
  intros (Ladd & _ & Ldot & Lneg & Lscale) Hg Hgrad.
  destruct v as [a b t i]. rewrite aw_body_unfold.
  destruct (shouldStop maxSteps i a b); [eauto|].
  destruct (Ladd xs0 (scalev t (negv gradfxs0))) as (point & -> & Hp);
    [rewrite Lscale, Lneg, Hg; reflexivity|].
  simpl.
  destruct (Ldot (negv gradfxs0) (gradf point)) as (slope & ->);
    [rewrite Lneg, Hg, Hgrad by exact Hp; reflexivity|].
  simpl. eauto.
Qed.

Lemma aw_loop_returns fuel : forall v,
  vector_laws ->
  List.length gradfxs0 = List.length xs0 ->
  gradient_on (List.length xs0) gradf ->
  exists r, loop fuel v = Ok r.
Proof.
  induction fuel as [|fuel IH]; intros v HL Hg Hgrad; simpl; [eauto|].
  destruct (aw_body_returns v HL Hg Hgrad) as ([v'|t] & ->); simpl;
    [apply IH; assumption|eauto].
Qed.

End PassProperties.

(** The search raises only what a vector helper raises. *)
Lemma awLineSearch2_throw e :
  awLineSearch2 xs0 f gradf gradfxs0 fxs0 maxSteps = Throw e ->
  exists c, e = Raised c.
Proof.
  unfold awLineSearch2, dufDescent, duf.
  destruct (call "dot" _) as [slope0|e1] eqn:Hd; cbn [JS.bind].
  - destruct (aw_loop xs0 f gradf gradfxs0 fxs0 maxSteps slope0
                      (aw_fuel maxSteps) aw_init) as [[v|]|e2] eqn:Hl;
      cbn [JS.bind]; try discriminate.
    intros H; injection H as <-. eapply aw_loop_throw; eauto.
  - intros H; injection H as <-. apply call_throw in Hd. eauto.
Qed.

(** When the search returns, it returns the trial of a pass that the loop
    reached and that ended in a [break]. *)
Lemma awLineSearch2_ok t :
  awLineSearch2 xs0 f gradf gradfxs0 fxs0 maxSteps = Ok t ->
  exists slope0 v,
    dot (negv gradfxs0) (gradf xs0) = Some slope0
    /\ aw_loop xs0 f gradf gradfxs0 fxs0 maxSteps slope0 (aw_fuel maxSteps)
               aw_init = Ok (Some v)
    /\ aw_reach xs0 f gradf gradfxs0 fxs0 maxSteps slope0 v
    /\ aw_body xs0 f gradf gradfxs0 fxs0 maxSteps slope0 v = Ok (inr t)
    /\ t = aw_t v.
Proof.
  unfold awLineSearch2, dufDescent, duf, descentDir.
  destruct (call "dot" _) as [slope0|e1] eqn:Hd; cbn [JS.bind];
    [|discriminate].
  apply call_ok in Hd.
  destruct (aw_loop xs0 f gradf gradfxs0 fxs0 maxSteps slope0
                    (aw_fuel maxSteps) aw_init) as [[v|]|e2] eqn:Hl;
    cbn [JS.bind]; [| |discriminate].
  - intros H; injection H as <-. exists slope0, v.
    split; [exact Hd|]. split; [exact Hl|].
    split; [eapply aw_loop_reach; [apply aw_reach_init|exact Hl]|].
    split; [eapply aw_loop_break; exact Hl|reflexivity].
  - exfalso. revert Hl. apply aw_loop_enough; unfold aw_fuel; simpl; lia.
Qed.

(** With helpers that return on vectors of one length and a gradient with
    one entry for each variable, the search returns. *)
Lemma awLineSearch2_returns :
  vector_laws ->
  List.length gradfxs0 = List.length xs0 ->
  gradient_on (List.length xs0) gradf ->
  exists t, awLineSearch2 xs0 f gradf gradfxs0 fxs0 maxSteps = Ok t.
Proof.
  intros HL Hg Hgrad. unfold awLineSearch2, dufDescent, duf, descentDir.
  destruct HL as (Ladd & Lsub & Ldot & Lneg & Lscale).
  destruct (Ldot (negv gradfxs0) (gradf xs0)) as (slope0 & ->);
    [rewrite Lneg, Hg, Hgrad; reflexivity|].
  cbn [call JS.bind].
  destruct (@aw_loop_returns slope0 (aw_fuel maxSteps) aw_init)
    as ([v|] & ->); [repeat split; assumption|exact Hg|exact Hgrad| |];
    cbn [JS.bind]; eauto.
Qed.

(** C4, as the code has it. The search always ends: it raises the
    exception of a vector helper or returns the trial step length of the
    pass at which it stopped, and it returns when the helpers do (vectors
    of one length). A pass stops at once, whatever the Armijo and curvature
    tests would say, exactly when the width of the bracket is below 10e-10
    (that is 1e-9) or the pass counter exceeds [maxSteps]; every other pass
    evaluates both tests. *)
Theorem awLineSearch2_stops :
  match awLineSearch2 xs0 f gradf gradfxs0 fxs0 maxSteps with
  | Ok t =>
      exists slope0 v,
        (forall k,
            aw_loop xs0 f gradf gradfxs0 fxs0 maxSteps slope0
                    (aw_fuel maxSteps + k) aw_init = Ok (Some v))
        /\ aw_body xs0 f gradf gradfxs0 fxs0 maxSteps slope0 v = Ok (inr t)
        /\ t = aw_t v
  | Throw e => exists c, e = Raised c
  end
  /\ (vector_laws ->
      List.length gradfxs0 = List.length xs0 ->
      gradient_on (List.length xs0) gradf ->
      exists t, awLineSearch2 xs0 f gradf gradfxs0 fxs0 maxSteps = Ok t)
  /\ forall slope0 a b t i,
      let stop :=
        JS.lt (Math_abs (b - a)%float) 1e-9%float || (maxSteps <? i) in
      (stop = true ->
       aw_body xs0 f gradf gradfxs0 fxs0 maxSteps slope0 (mkAw a b t i)
       = Ok (inr t))
      /\ (stop = false ->
          aw_body xs0 f gradf gradfxs0 fxs0 maxSteps slope0 (mkAw a b t i)
          = let* isArmijo := armijo xs0 f gradfxs0 fxs0 slope0 t in
            let* isWolfe := wolfe xs0 gradf gradfxs0 slope0 t in
            Ok (if negb isArmijo
                then inl (mkAw a t (aw_trial a t) (i + 1))
                else if negb isWolfe
                     then inl (mkAw t b (aw_trial t b) (i + 1))
                     else inr t)).
Proof.
  split; [|split].
  - destruct (awLineSearch2 xs0 f gradf gradfxs0 fxs0 maxSteps) as [t|e]
      eqn:Hs; [|eapply awLineSearch2_throw; exact Hs].
    destruct (awLineSearch2_ok Hs) as (slope0 & v & _ & Hl & _ & Hb & Ht).
    exists slope0, v. split; [|split; assumption].
    intros k. rewrite aw_loop_more; [exact Hl|]. rewrite Hl. discriminate.
  - apply awLineSearch2_returns.
  - intros slope0 a b t i stop.
    assert (Hstop : shouldStop maxSteps i a b = stop) by reflexivity.
    split; intros Hs; unfold aw_body; rewrite Hstop, Hs; [reflexivity|].
    destruct (armijo xs0 f gradfxs0 fxs0 slope0 t) as [[|]|e]; simpl;
      [| |reflexivity];
      destruct (wolfe xs0 gradf gradfxs0 slope0 t) as [[|]|e];
      reflexivity.
Qed.

End LineSearchProperties.

(** ** [containsNaN] and the guards of [minimize] *)

Lemma existsb_const_false {A : Type} (l : list A) :
  existsb (fun _ => false) l = false.
Proof. induction l as [|a l IH]; simpl; auto. Qed.

Lemma containsNaN_false (numberList : list number) :
  containsNaN numberList = false.
Proof. unfold containsNaN. simpl. apply existsb_const_false. Qed.

(** What a loop raises, its body raises. *)
Lemma mapM_throw {A B : Type} (P : error -> Prop) (g : A -> result B) l e :
  (forall a e, g a = Throw e -> P e) -> mapM g l = Throw e -> P e.
Proof.
  intros Hg. induction l as [|a l IH]; simpl; [discriminate|].
  destruct (g a) as [b|e1] eqn:Ha; simpl.
  - destruct (mapM g l) as [bs|e2]; simpl; [discriminate|].
    intros H; injection H as <-. apply IH. reflexivity.
  - intros H; injection H as <-. eapply Hg; eauto.
Qed.

Lemma foldM_throw {A B : Type} (P : error -> Prop) (g : B -> A -> result B)
  l : forall b e,
  (forall b a e, g b a = Throw e -> P e) -> foldM g l b = Throw e -> P e.
Proof.
  induction l as [|a l IH]; intros b e Hg; simpl; [discriminate|].
  destruct (g b a) as [b'|e1] eqn:Ha; simpl.
  - apply IH. exact Hg.
  - intros H; injection H as <-. eapply Hg; eauto.
Qed.

Section EstimatorExceptions.

Context {E : Eigen}.

(** The exceptions that are not [Error]s. *)
Abbreviation foreign := (fun e : error =>
  (exists msg, e = TypeError msg) \/ (exists c, e = Raised c)).

Lemma dotVec_throw (v w : Matrix) e :
  dotVec v w = Throw e -> exists c, e = Raised c.
Proof.
  unfold dotVec.
  destruct (call "transpose" _) as [vt|e1] eqn:H1; simpl.
  - destruct (call "matMul" _) as [m|e2] eqn:H2; simpl; [discriminate|].
    intros H; injection H as <-. apply call_throw in H2. eauto.
  - intros H; injection H as <-. apply call_throw in H1. eauto.
Qed.

Lemma rho_of_throw (sy : option Matrix * option Matrix) e :
  rho_of sy = Throw e -> foreign e.
Proof.
  destruct sy as [[s|] [y|]]; simpl.
  - unfold calculate_rho.
    destruct (dotVec y s) as [d|e1] eqn:Hd; simpl; [discriminate|].
    intros H; injection H as <-. right. eapply dotVec_throw; eauto.
  - intros H; injection H as <-. left. eauto.
  - destruct (call "transpose" _) as [yt|e1] eqn:H1; simpl;
      intros H; injection H as <-; [left; eauto|right].
    apply call_throw in H1. eauto.
  - intros H; injection H as <-. left. eauto.
Qed.

Lemma pull_q_back_throw acc curr e :
  pull_q_back acc curr = Throw e -> exists c, e = Raised c.
Proof.
  destruct acc as [q alphas]. destruct curr as [[rho s] y]. simpl.
  destruct (dotVec s q) as [d|e1] eqn:Hd; simpl.
  - destruct (call "matSub" _) as [m|e2] eqn:H2; simpl; [discriminate|].
    intros H; injection H as <-. apply call_throw in H2. eauto.
  - intros H; injection H as <-. eapply dotVec_throw; eauto.
Qed.

Lemma estimate_hess_throw (y s : Matrix) e :
  estimate_hess y s = Throw e -> exists c, e = Raised c.
Proof.
  unfold estimate_hess.
  destruct (dotVec s y) as [d1|e1] eqn:H1; simpl.
  - destruct (dotVec y y) as [d2|e2] eqn:H2; simpl; [discriminate|].
    intros H; injection H as <-. eapply dotVec_throw; eauto.
  - intros H; injection H as <-. eapply dotVec_throw; eauto.
Qed.

Lemma push_r_forward_throw r curr e :
  push_r_forward r curr = Throw e -> exists c, e = Raised c.
Proof.
  destruct curr as [[rho alpha] [s y]]. simpl.
  destruct (dotVec y r) as [d|e1] eqn:Hd; simpl.
  - intros H. apply call_throw in H. eauto.
  - intros H; injection H as <-. eapply dotVec_throw; eauto.
Qed.

(** The exceptions of the two-loop recursion: [TypeError]s, and what the
    matrix operations raise. *)
Lemma lbfgsInner_throw g (ss ys : list Matrix) e :
  lbfgsInner g ss ys = Throw e -> foreign e.
Proof.
  unfold lbfgsInner.
  destruct (mapM rho_of (zip ss ys)) as [rsys|e1] eqn:Hm; simpl.
  - destruct (foldM pull_q_back rsys (g, [])) as [[q alphas]|e2] eqn:Hf;
      simpl.
    + destruct ys as [|y0 ys']; [intros H; injection H as <-; left; eauto|].
      destruct ss as [|s0 ss']; [intros H; injection H as <-; left; eauto|].
      destruct (estimate_hess y0 s0) as [h|e3] eqn:Hh; simpl.
      * destruct (call "matMul" _) as [r|e4] eqn:Hr; simpl.
        -- intros H. right. revert H.
           apply (foldM_throw (fun e => exists c, e = Raised c)).
           intros b a e'. apply push_r_forward_throw.
        -- intros H; injection H as <-. right. apply call_throw in Hr. eauto.
      * intros H; injection H as <-. right.
        eapply estimate_hess_throw; eauto.
    + intros H; injection H as <-. right. revert Hf.
      apply (foldM_throw (fun e => exists c, e = Raised c)).
      intros b a e'. apply pull_q_back_throw.
  - intros H; injection H as <-. revert Hm.
    apply (mapM_throw (fun e => foreign e)). intros a e'. apply rho_of_throw.
Qed.

Lemma foreign_lbfgs_error e : foreign e -> lbfgs_error e.
Proof. intros [[msg ->]|[c ->]]; exact I. Qed.

Lemma lbfgs_throw xs g (info : LbfgsParams) e :
  lbfgs xs g info = Throw e -> lbfgs_error e.
Proof.
  unfold lbfgs.
  destruct (numUnconstrSteps info =? 0); [discriminate|].
  destruct (lastState info); [|intros H; injection H as <-; reflexivity].
  destruct (lastGrad info); [|intros H; injection H as <-; reflexivity].
  destruct (call "matSub" _) as [s|e1] eqn:H1; simpl;
    [clear H1|intros H; injection H as <-; apply call_throw in H1; subst e1;
              exact I].
  destruct (call "matSub" _) as [y|e2] eqn:H2; simpl;
    [clear H2|intros H; injection H as <-; apply call_throw in H2; subst e2;
              exact I].
  destruct (lbfgsInner _ _ _) as [r|e'] eqn:Hi; simpl.
  - destruct (dotVec r _) as [d|e3] eqn:Hd; simpl.
    + destruct (JS.gt _ _); discriminate.
    + intros H; injection H as <-. apply dotVec_throw in Hd.
      destruct Hd as [c ->]. exact I.
  - intros H; injection H as <-. apply foreign_lbfgs_error.
    eapply lbfgsInner_throw; eauto.
Qed.

End EstimatorExceptions.

(** The exceptions of a pass through the body of [minimize], of its loop
    and of [minimize] itself are those of [lbfgs] and of the helpers. *)
Lemma minimize_body_throw {U : OtherUtils} {E : Eigen} f gradf
  (v : min_vars) e :
  minimize_body f gradf v = Throw e -> lbfgs_error e.
Proof.
  destruct v as [xs fxs g gp ng i t fl info].
  unfold minimize_body. rewrite !containsNaN_false.
  destruct (lbfgs xs (gradf xs) info) as [[pre info']|e'] eqn:Hl; simpl.
  - destruct (call "dot" _) as [m|e1] eqn:Hd; simpl.
    + destruct (unconstrainedConverged2 m); simpl; [discriminate|].
      destruct (awLineSearch2 _ _ _ _ _ _) as [t'|e2] eqn:Hs; simpl.
      * destruct (_ || _); discriminate.
      * intros H; injection H as <-. apply awLineSearch2_throw in Hs.
        destruct Hs as [c ->]. exact I.
    + intros H; injection H as <-. apply call_throw in Hd. subst e1.
      exact I.
  - intros H; injection H as <-.
    apply lbfgs_throw in Hl. exact Hl.
Qed.

Lemma minimize_loop_throw {U : OtherUtils} {E : Eigen} f gradf numSteps
  fuel : forall (v : min_vars) e,
  minimize_loop f gradf numSteps fuel v = Throw e -> lbfgs_error e.
Proof.
  induction fuel as [|fuel IH]; intros v e; simpl; [discriminate|].
  destruct (m_i v <? numSteps); [|discriminate].
  destruct (minimize_body f gradf v) as [[v'|v']|e'] eqn:Hb; simpl.
  - apply IH.
  - discriminate.
  - intros H; injection H as <-. eapply minimize_body_throw; eauto.
Qed.

(** C9: [containsNaN] answers [false] for every list of numbers, also
    for one that holds NaN, because it tests the string keys of the array;
    so [minimize] never throws "NaN in xs" or "NaN in gradfxs", in no pass
    through the body of its loop: the only exceptions it can raise are
    those of [lbfgs] and of the imported helpers. *)
Theorem containsNaN_always_false :
  (forall numberList : list number, containsNaN numberList = false)
  /\ containsNaN [NaN; 1%float] = false
  /\ (forall (U : OtherUtils) (E : Eigen)
        (f : list number -> number) (gradf : list number -> list number)
        (v : min_vars),
        match minimize_body f gradf v with
        | Throw e => e <> Error_ "NaN in xs" /\ e <> Error_ "NaN in gradfxs"
        | Ok _ => True
        end)
  /\ (forall (U : OtherUtils) (E : Eigen) xs0 f gradf
        (lbfgsInfo : LbfgsParams) varyingPaths numSteps,
        match minimize xs0 f gradf lbfgsInfo varyingPaths numSteps with
        | Throw e => e <> Error_ "NaN in xs" /\ e <> Error_ "NaN in gradfxs"
        | Ok _ => True
        end).
Proof.
  assert (Hne : forall e, lbfgs_error e ->
                  e <> Error_ "NaN in xs" /\ e <> Error_ "NaN in gradfxs").
  { intros [msg|msg|c] He; simpl in He; [subst msg| |]; split; discriminate. }
  split; [exact containsNaN_false|]. split; [apply containsNaN_false|].
  split.
  - intros U E f gradf v.
    destruct (minimize_body f gradf v) as [fl|e] eqn:Hb; [exact I|].
    apply Hne. eapply minimize_body_throw; eauto.
  - intros U E xs0 f gradf lbfgsInfo varyingPaths numSteps.
    unfold minimize.
    destruct (minimize_loop _ _ _ _ _) as [v|e] eqn:Hl; simpl; [exact I|].
    apply Hne. eapply minimize_loop_throw; eauto.
Qed.
(** ** The energy *)

Section EnergyProperties.

Context {U : OtherUtils} {E : Eigen} {T : Types} {C : Collaborators}.

Lemma mapM_then {A B B' : Type} (g : A -> result B) (h : B -> B') l r :
  mapM (fun a => let* b := g a in Ok (h b)) l = Ok r ->
  exists raw, mapM g l = Ok raw /\ r = map h raw.
Proof.
  revert r. induction l as [|a l IH]; simpl; intros r.
  - intros H; injection H as <-. exists []. split; reflexivity.
  - destruct (g a) as [b|e]; simpl; [|discriminate].
    destruct (mapM (fun a => let* b := g a in Ok (h b)) l) as [bs|e];
      simpl; [|discriminate].
    intros H; injection H as <-.
    destruct (IH bs eq_refl) as (raw & -> & ->).
    exists (b :: raw). split; reflexivity.
Qed.

(** C6: the energy node that [evalEnergyOnCustom] builds is
    [objEnergy + constrEnergy * (constantConstraintScale * penaltyWeight)]:
    [objEnergy] the sum of the energies of the objective terms,
    [constrEnergy] the sum of the energies of the constraint terms, each
    passed through the penalty transform, [constantConstraintScale] the
    constant 1e5 and [penaltyWeight] the leaf marked as the input of index
    -1. Under any forward evaluation its value is the value of [objEnergy]
    plus the value of [constrEnergy] times 1e5 times the weight supplied:
    the sum of the values of the objective terms, plus the sum of the
    penalties of the values of the constraint terms times 1e5 times the
    weight. *)
Theorem evalEnergyOnCustom_energy (state : State) (xsVars : list VarAD)
  (res : Energy) :
  evalEnergyOnCustom state xsVars = Ok res ->
  let translation_ :=
    insertVaryings
      (makeTranslationDifferentiable
         (clone (makeTranslationNumeric (translation state))))
      (zip (varyingPaths state) xsVars) in
  let varyingMap := genPathMap (varyingPaths state) xsVars in
  exists objEngs constrEngs,
    mapM (fun o => applyFn o objDict)
         (evalFns (objFns state) translation_ varyingMap) = Ok objEngs
    /\ mapM (fun c => applyFn c constrDict)
            (evalFns (constrFns state) translation_ varyingMap)
       = Ok constrEngs
    /\ let objEnergy := vsum objEngs in
       let constrEnergy := vsum (map toPenalty constrEngs) in
       let constantConstraintScale :=
         varOf 1e5%float (String_ 1e5%float) "constraintWeight" in
       let penaltyWeight :=
         markInput
           (varOf (weight (params state)) (String_ (weight (params state)))
                  "epWeight") (-1) in
       en_energyGraph res
       = setGradVal
           (add objEnergy
                (mul constrEnergy (mul constantConstraintScale penaltyWeight)))
           (Some 1%float)
       /\ en_constrWeightNode res = constantConstraintScale
       /\ en_epWeightNode res = penaltyWeight
       /\ (forall value, ForwardValue value ->
           forall env,
             value env (en_energyGraph res)
             = (value env objEnergy
                + value env constrEnergy * (1e5 * env (-1)%Z))%float)
       /\ (forall value total penalty,
             ForwardValue value -> ForwardSum value total penalty ->
             forall env,
               value env (en_energyGraph res)
               = (total (map (value env) objEngs)
                  + total (map (fun c => penalty (value env c)) constrEngs)
                    * (1e5 * env (-1)%Z))%float).
Proof.
  intros H translation_ varyingMap. unfold evalEnergyOnCustom in H.
  fold translation_ varyingMap in H.
  destruct (mapM (fun o => applyFn o objDict) _) as [objEngs|e] eqn:Ho;
    simpl in H; [|discriminate].
  destruct (mapM _ (evalFns (constrFns state) translation_ varyingMap))
    as [cs|e] eqn:Hc; simpl in H; [|discriminate].
  apply mapM_then in Hc. destruct Hc as (constrEngs & Hc & ->).
  injection H as <-. exists objEngs, constrEngs.
  split; [reflexivity|]. split; [exact Hc|]. simpl.
  split; [reflexivity|]. split; [reflexivity|]. split; [reflexivity|].
  assert (Hv : forall value, ForwardValue value ->
            forall env,
              value env
                (setGradVal
                   (add (vsum objEngs)
                      (mul (vsum (map toPenalty constrEngs))
                         (mul (varOf constraintWeight
                                     (String_ constraintWeight)
                                     "constraintWeight")
                              (markInput
                                 (varOf (weight (params state))
                                        (String_ (weight (params state)))
                                        "epWeight") (-1)))))
                   (Some 1%float))
              = (value env (vsum objEngs)
                 + value env (vsum (map toPenalty constrEngs))
                   * (1e5 * env (-1)%Z))%float).
  { intros value (Hadd & Hmul & Hvar & Hin & Hseed) env.
    rewrite Hseed, Hadd, Hmul, Hmul, Hvar, Hin. reflexivity. }
  split; [exact Hv|].
  intros value total penalty HF (Hsum & Hpen) env.
  rewrite (Hv value HF env), !Hsum, map_map. do 2 f_equal.
  f_equal. apply map_ext. intros c. apply Hpen.
Qed.

End EnergyProperties.

(** ** The L-BFGS estimator *)

Section LbfgsProperties.

Context {E : Eigen} {T : Types}.

(** On a call that is not the first, when the differences with the last
    state and gradient, the two-loop recursion and the product of its
    result with the gradient are computed without an exception, the result
    is dropped exactly when [-1.0 * (r . gradient)] is greater than 0. *)
Lemma lbfgs_non_first xs gradfxs (info : LbfgsParams) x_km1 g_km1 s y r
  slope :
  numUnconstrSteps info <> 0 ->
  lastState info = Some x_km1 ->
  lastGrad info = Some g_km1 ->
  matSub (colVec xs) x_km1 = Some s ->
  matSub (colVec gradfxs) g_km1 = Some y ->
  let ss := take ([s] ++ s_list info) (memSize info) in
  let ys := take ([y] ++ y_list info) (memSize info) in
  lbfgsInner (colVec gradfxs) ss ys = Ok r ->
  dotVec r (colVec gradfxs) = Ok slope ->
  lbfgs xs gradfxs info
  = Ok (if JS.gt (-1.0 * slope)%float 0%float
        then (gradfxs,
              {| lastState := Some (colVec xs);
                 lastGrad := Some (colVec gradfxs);
                 s_list := []; y_list := [];
                 numUnconstrSteps := 1; memSize := memSize info |})
        else (vecList r,
              {| lastState := Some (colVec xs);
                 lastGrad := Some (colVec gradfxs);
                 s_list := ss; y_list := ys;
                 numUnconstrSteps := numUnconstrSteps info + 1;
                 memSize := memSize info |})).
Proof.
  intros Hn Hs Hg H1 H2 ss ys Hr Hd. unfold lbfgs.
  apply Z.eqb_neq in Hn. rewrite Hn, Hs, Hg, H1, H2. cbn [call JS.bind].
  fold ss ys. rewrite Hr. cbn [JS.bind]. rewrite Hd. cbn [JS.bind].
  destruct (JS.gt _ _); reflexivity.
Qed.

(** Whenever [lbfgs] returns, the memory holds the current state and
    gradient as the last ones. *)
Lemma lbfgs_last_updated xs gradfxs (info : LbfgsParams) pre info' :
  lbfgs xs gradfxs info = Ok (pre, info') ->
  lastState info' = Some (colVec xs)
  /\ lastGrad info' = Some (colVec gradfxs).
Proof.
  unfold lbfgs.
  destruct (numUnconstrSteps info =? 0).
  - intros H; injection H as <- <-. split; reflexivity.
  - destruct (lastState info); [|discriminate].
    destruct (lastGrad info); [|discriminate].
    destruct (matSub (colVec xs) _); cbn [call JS.bind]; [|discriminate].
    destruct (matSub (colVec gradfxs) _); cbn [call JS.bind];
      [|discriminate].
    destruct (lbfgsInner _ _ _); cbn [JS.bind]; [|discriminate].
    destruct (dotVec _ _); cbn [JS.bind]; [|discriminate].
    destruct (JS.gt _ _); intros H; injection H as <- <-;
      split; reflexivity.
Qed.

End LbfgsProperties.

(** C3, at an input where the code departs from it: after a first call
    at [x = 1] with gradient 2, the call at [x = 0] with gradient 0
    computes [r = 0], for which [-(r . gradient) < 0] is false; the result
    is accepted all the same: the pair [s], [y] is kept and the step
    counter becomes 2. *)
Lemma lbfgs_accepts_zero_slope :
  exists s y r slope pre info',
    lbfgs [1%float] [2%float] defaultLbfgsParams
    = Ok ([2%float], Samples.memory1)
    /\ matSub (colVec [0%float]) (colVec [1%float]) = Some s
    /\ matSub (colVec [0%float]) (colVec [2%float]) = Some y
    /\ lbfgsInner (colVec [0%float]) [s] [y] = Ok r
    /\ dotVec r (colVec [0%float]) = Ok slope
    /\ JS.lt (- slope)%float 0%float = false
    /\ lbfgs [0%float] [0%float] Samples.memory1 = Ok (pre, info')
    /\ pre = vecList r
    /\ List.length (s_list info') = 1%nat
    /\ List.length (y_list info') = 1%nat
    /\ numUnconstrSteps info' = 2.
Proof.
  do 6 eexists. split; [vm_compute; reflexivity|].
  split; [vm_compute; reflexivity|].
  split; [vm_compute; reflexivity|].
  split; [vm_compute; reflexivity|].
  split; [vm_compute; reflexivity|].
  split; [vm_compute; reflexivity|].
  split; [vm_compute; reflexivity|].
  repeat split.
Qed.

(** ** The minimiser *)

Section MinimizeProperties.

Context {U : OtherUtils} {E : Eigen} {T : Types}.

Variable f : list number -> number.
Variable gradf : list number -> list number.

(** A pass in which the estimator, the metric and the line search are
    computed without an exception, whose early convergence test fails and
    whose energy or gradient norm is NaN ends the loop with [failed] set,
    the variables not updated. *)
Lemma minimize_body_nan (v : min_vars) pre info' metric t :
  lbfgs (m_xs v) (gradf (m_xs v)) (m_newLbfgsInfo v) = Ok (pre, info') ->
  dot (gradf (m_xs v)) pre = Some metric ->
  unconstrainedConverged2 metric = false ->
  awLineSearch2 (m_xs v) f gradf pre (f (m_xs v)) 10 = Ok t ->
  PrimFloat.is_nan (f (m_xs v)) = true
  \/ PrimFloat.is_nan (normList (gradf (m_xs v))) = true ->
  exists v',
    minimize_body f gradf v = Ok (Break v')
    /\ m_failed v' = true
    /\ m_xs v' = m_xs v
    /\ m_fxs v' = f (m_xs v).
Proof.
  destruct v as [xs fxs g gp ng i t0 fl info]. simpl.
  intros Hl Hd Hc Hs Hn. unfold minimize_body.
  rewrite !containsNaN_false, Hl. cbn [JS.bind]. rewrite Hd.
  cbn [call JS.bind]. rewrite Hc. cbn [andb BREAK_EARLY USE_LINE_SEARCH].
  rewrite Hs. cbn [JS.bind].
  assert (Hor : PrimFloat.is_nan (f xs)
                || PrimFloat.is_nan (normList (gradf xs)) = true)
    by (apply orb_true_iff; exact Hn).
  unfold Number_isNaN. rewrite Hor.
  eexists. split; [reflexivity|]. simpl. auto.
Qed.

Lemma minimize_loop_nan numSteps fuel (v : min_vars) pre info' metric t :
  m_i v < numSteps ->
  lbfgs (m_xs v) (gradf (m_xs v)) (m_newLbfgsInfo v) = Ok (pre, info') ->
  dot (gradf (m_xs v)) pre = Some metric ->
  unconstrainedConverged2 metric = false ->
  awLineSearch2 (m_xs v) f gradf pre (f (m_xs v)) 10 = Ok t ->
  PrimFloat.is_nan (f (m_xs v)) = true
  \/ PrimFloat.is_nan (normList (gradf (m_xs v))) = true ->
  exists v',
    minimize_loop f gradf numSteps (S fuel) v = Ok v'
    /\ m_failed v' = true
    /\ m_xs v' = m_xs v
    /\ m_fxs v' = f (m_xs v).
Proof.
  intros Hi Hl Hd Hc Hs Hn.
  destruct (@minimize_body_nan v pre info' metric t Hl Hd Hc Hs Hn)
    as (v' & Hb & Hv).
  exists v'. split; [|exact Hv].
  simpl. apply Z.ltb_lt in Hi. rewrite Hi, Hb. reflexivity.
Qed.

(** A pass that reaches the end of the body advances the counter by
    one. *)
Lemma minimize_body_next (v v' : min_vars) :
  minimize_body f gradf v = Ok (Next v') -> m_i v' = m_i v + 1.
Proof.
  destruct v as [xs fxs g gp ng i t fl info]. unfold minimize_body.
  rewrite !containsNaN_false.
  destruct (lbfgs xs (gradf xs) info) as [[pre info']|e]; cbn [JS.bind];
    [|discriminate].
  destruct (dot _ _) as [metric|]; cbn [call JS.bind]; [|discriminate].
  destruct (unconstrainedConverged2 _);
    cbn [andb BREAK_EARLY USE_LINE_SEARCH]; [discriminate|].
  destruct (awLineSearch2 _ _ _ _ _ _) as [t'|e]; cbn [JS.bind];
    [|discriminate].
  destruct (_ || _); [discriminate|].
  intros H; injection H as <-. reflexivity.
Qed.

(** The fuel [minimize] gives its loop, the budget itself, is never what
    ends it: with that much fuel or more the loop ends by its guard, a
    [break] or an exception. *)
Lemma minimize_loop_fuel numSteps fuel : forall (v : min_vars) k,
  numSteps - m_i v <= Z.of_nat fuel ->
  minimize_loop f gradf numSteps (fuel + k) v
  = minimize_loop f gradf numSteps fuel v.
Proof.
  induction fuel as [|fuel IH]; intros v k Hf.
  - simpl. destruct k as [|k]; [reflexivity|]. simpl.
    replace (m_i v <? numSteps) with false
      by (symmetry; apply Z.ltb_ge; lia).
    reflexivity.
  - simpl. destruct (m_i v <? numSteps); [|reflexivity].
    destruct (minimize_body f gradf v) as [[v'|v']|e] eqn:Hb; simpl;
      try reflexivity.
    apply IH. apply minimize_body_next in Hb. lia.
Qed.

End MinimizeProperties.

(** ** The state machine *)

Section StepProperties.

Context {U : OtherUtils} {E : Eigen} {T : Types} {C : Collaborators}.

(** Re-evaluating and colouring the shapes leaves the parameters and the
    variables alone. *)
Lemma render_frame (s s' : State) :
  RenderFrame ->
  colour (evalShapes s) = Ok s' ->
  params s' = params s /\ varyingValues s' = varyingValues s.
Proof.
  intros HF. unfold colour.
  destruct (colorUninitShapes (evalShapes s)) as [s1|e] eqn:H1;
    cbn [JS.bind]; [|discriminate].
  intros H2.
  destruct (HF s) as ((He1 & He2) & _).
  destruct (HF (evalShapes s)) as (_ & Hc & _).
  destruct (Hc s1 H1) as (Hc1 & Hc2).
  destruct (HF s1) as (_ & _ & Ht).
  destruct (Ht s' H2) as (Ht1 & Ht2).
  rewrite Ht1, Ht2, Hc1, Hc2, He1, He2. split; reflexivity.
Qed.

(** The statements after the [switch]: without [evaluate] they return the
    state with the new parameters; with it, they return when the colouring
    does, and raise what it raises. *)
Lemma step_finish_false state optParams xs :
  step_finish state optParams xs false = Ok (set_params optParams state).
Proof. reflexivity. Qed.

Lemma step_finish_ok state optParams xs evaluate s' :
  RenderFrame ->
  step_finish state optParams xs evaluate = Ok s' ->
  params s' = optParams
  /\ varyingValues s' = (if evaluate then xs else varyingValues state).
Proof.
  intros HF. unfold step_finish. destruct evaluate.
  - intros H. apply (render_frame _ HF) in H. exact H.
  - intros H; injection H as <-. split; reflexivity.
Qed.

Lemma step_finish_throw state optParams xs evaluate e :
  step_finish state optParams xs evaluate = Throw e ->
  evaluate = true /\ exists s1, colour s1 = Throw e.
Proof.
  unfold step_finish. destruct evaluate; [|discriminate].
  intros H. split; [reflexivity|]. eexists. exact H.
Qed.

(** A call that ends by the statements after the [switch] returns a state
    with the parameters and variables they were given, unless the
    colouring raises an exception. *)
Lemma step_finish_cases (state : State) optParams (xs : list number)
  (evaluate : bool) (Q : State -> Prop) :
  RenderFrame ->
  (forall s',
      params s' = optParams ->
      varyingValues s' = (if evaluate then xs else varyingValues state) ->
      Q s') ->
  match step_finish state optParams xs evaluate with
  | Ok s' => Q s'
  | Throw e => evaluate = true /\ exists s1, colour s1 = Throw e
  end.
Proof.
  intros HF HQ.
  destruct (step_finish state optParams xs evaluate) as [s'|e] eqn:Hs.
  - destruct (step_finish_ok _ _ _ _ HF Hs) as [H1 H2]. apply HQ; assumption.
  - eapply step_finish_throw; exact Hs.
Qed.

(** C7: on a state whose status is [EPConverged] or [Error], [step]
    returns the very state it was given, so any number of repeated calls
    leaves the state, its variables and its status as they were. *)
Theorem step_terminal_noop (state : State) (steps : Z) (evaluate : bool) :
  optStatus (params state) = EPConverged
  \/ optStatus (params state) = Error ->
  step state steps evaluate = Ok state
  /\ forall n, run n steps evaluate state = Ok state.
Proof.
  intros Hst.
  assert (H1 : step state steps evaluate = Ok state).
  { unfold step. destruct Hst as [-> | ->]; reflexivity. }
  split; [exact H1|].
  induction n as [|n IH]; simpl; [reflexivity|].
  rewrite H1. simpl. exact IH.
Qed.

(** With a budget of 0 the loop of [minimize] is not entered: the result
    is the initial values of its variables, whatever [f] and [gradf]. *)
Lemma minimize_zero xs0 f gradf (info : LbfgsParams) paths :
  minimize xs0 f gradf info paths 0
  = Ok {| xs := xs0;
          energyVal := 0%float;
          normGrad := 0%float;
          newLbfgsInfo := info;
          gradient_ := repeat (List.length xs0) 0%float;
          gradientPreconditioned := repeat (List.length xs0) 0%float;
          failed := false |}.
Proof. reflexivity. Qed.

(** C10: on a state whose status is [UnconstrainedRunning], [step] with
    a budget of 0 evaluates neither the energy nor the gradient (the result
    of [minimize] is the same for every [f] and [gradf]). The call returns
    unless the colouring of the shapes, which runs when [evaluate] is set,
    raises an exception; the state it returns has the variables as they
    were, 0 as the last unconstrained energy (the gradient-norm metric
    being 0) and the status [UnconstrainedConverged]. *)
Theorem step_zero_budget (state : State) (evaluate : bool) :
  optStatus (params state) = UnconstrainedRunning ->
  RenderFrame ->
  (forall f gradf paths,
      minimize (varyingValues state) f gradf (lbfgsInfo (params state))
               paths 0
      = Ok {| xs := varyingValues state;
              energyVal := 0%float;
              normGrad := 0%float;
              newLbfgsInfo := lbfgsInfo (params state);
              gradient_ := repeat (List.length (varyingValues state)) 0%float;
              gradientPreconditioned :=
                repeat (List.length (varyingValues state)) 0%float;
              failed := false |})
  /\ match step state 0 evaluate with
     | Ok s' =>
         varyingValues s' = varyingValues state
         /\ lastUOstate (params s') = varyingValues state
         /\ lastUOenergy (params s') = 0%float
         /\ UOround (params s') = UOround (params state) + 1
         /\ optStatus (params s') = UnconstrainedConverged
     | Throw e => evaluate = true /\ exists s1, colour s1 = Throw e
     end.
Proof.
  intros Hst HF. split; [intros; apply minimize_zero|].
  unfold step. rewrite Hst. unfold step_UnconstrainedRunning.
  rewrite minimize_zero. cbn [JS.bind failed xs energyVal normGrad].
  change (unconstrainedConverged2 0%float) with true. cbv iota.
  apply step_finish_cases; [exact HF|].
  intros s' -> ->. simpl. repeat split. destruct evaluate; reflexivity.
Qed.

(** When [minimize] reports a failure, [step] returns at once with the
    status [Error]: the variables of the state are those it was given. *)
Lemma step_failed_error (state : State) (steps : Z) (evaluate : bool) res :
  optStatus (params state) = UnconstrainedRunning ->
  minimize (varyingValues state) (currObjective (params state))
           (currGradient (params state)) (lbfgsInfo (params state))
           (map prettyPrintPath (varyingPaths state)) steps = Ok res ->
  failed res = true ->
  exists s',
    step state steps evaluate = Ok s'
    /\ optStatus (params s') = Error
    /\ varyingValues s' = varyingValues state
    /\ lastUOenergy (params s') = energyVal res.
Proof.
  intros Hst Hm Hf. unfold step. rewrite Hst.
  unfold step_UnconstrainedRunning. rewrite Hm. simpl. rewrite Hf.
  eexists. split; [reflexivity|].
  destruct (unconstrainedConverged2 (normGrad res)); repeat split.
Qed.

(** C2, as the code has it: in a pass of the loop of [minimize] in which
    the estimator, the metric and the line search are computed without an
    exception and the early convergence test fails, a NaN energy or a NaN
    gradient norm ends the minimisation with [failed] set; [step] turns a
    failure into the status [Error] and leaves the variables of the state
    as it was given them. So a state with status [UnconstrainedRunning]
    whose energy or gradient norm at the current variables is NaN, whose
    convergence metric there is not below 1e-2, and at which the estimator,
    the metric and the line search return, is taken to [Error] by every
    call with a positive budget. Infinite values are not tested for. *)
Theorem step_nan_error :
  (forall f gradf numSteps fuel (v : min_vars) pre info' metric t,
      m_i v < numSteps ->
      lbfgs (m_xs v) (gradf (m_xs v)) (m_newLbfgsInfo v) = Ok (pre, info') ->
      dot (gradf (m_xs v)) pre = Some metric ->
      unconstrainedConverged2 metric = false ->
      awLineSearch2 (m_xs v) f gradf pre (f (m_xs v)) 10 = Ok t ->
      PrimFloat.is_nan (f (m_xs v)) = true
      \/ PrimFloat.is_nan (normList (gradf (m_xs v))) = true ->
      exists v',
        minimize_loop f gradf numSteps (S fuel) v = Ok v'
        /\ m_failed v' = true
        /\ m_xs v' = m_xs v)
  /\ (forall (state : State) steps evaluate res,
        optStatus (params state) = UnconstrainedRunning ->
        minimize (varyingValues state) (currObjective (params state))
                 (currGradient (params state)) (lbfgsInfo (params state))
                 (map prettyPrintPath (varyingPaths state)) steps = Ok res ->
        failed res = true ->
        exists s',
          step state steps evaluate = Ok s'
          /\ optStatus (params s') = Error
          /\ varyingValues s' = varyingValues state)
  /\ (forall (state : State) steps evaluate pre info' metric t,
        optStatus (params state) = UnconstrainedRunning ->
        0 < steps ->
        let xs := varyingValues state in
        let f := currObjective (params state) in
        let gradf := currGradient (params state) in
        lbfgs xs (gradf xs) (lbfgsInfo (params state)) = Ok (pre, info') ->
        dot (gradf xs) pre = Some metric ->
        unconstrainedConverged2 metric = false ->
        awLineSearch2 xs f gradf pre (f xs) 10 = Ok t ->
        PrimFloat.is_nan (f xs) = true
        \/ PrimFloat.is_nan (normList (gradf xs)) = true ->
        exists s',
          step state steps evaluate = Ok s'
          /\ optStatus (params s') = Error
          /\ varyingValues s' = varyingValues state).
Proof.
  split; [|split].
  - intros f gradf numSteps fuel v pre info' metric t Hi Hl Hd Hc Hs Hn.
    edestruct (minimize_loop_nan f) with (fuel := fuel)
      as (v' & Hv & Hf & Hx & _);
      [exact Hi|exact Hl|exact Hd|exact Hc|exact Hs|exact Hn|].
    exists v'. auto.
  - intros state steps evaluate res Hst Hm Hf.
    destruct (@step_failed_error state steps evaluate res Hst Hm Hf)
      as (s' & Hs & He & Hx & _).
    exists s'. auto.
  - intros state steps evaluate pre info' metric t Hst Hpos xs f gradf
      Hl Hd Hc Hs Hn.
    destruct (Z.to_nat steps) as [|fuel] eqn:Hfuel; [lia|].
    edestruct (minimize_loop_nan f) with
      (fuel := fuel)
      (v := mkMin xs 0%float (repeat (List.length xs) 0%float)
                  (repeat (List.length xs) 0%float) 0%float 0
                  0.0001%float false (lbfgsInfo (params state)))
      as (v' & Hv & Hf & Hx & _);
      [exact Hpos|exact Hl|exact Hd|exact Hc|exact Hs|exact Hn|].
    destruct (@step_failed_error state steps evaluate
                {| xs := m_xs v';
                   energyVal := m_fxs v';
                   normGrad := m_normGradfxs v';
                   newLbfgsInfo := m_newLbfgsInfo v';
                   gradient_ := m_gradfxs v';
                   gradientPreconditioned := m_gradientPreconditioned v';
                   failed := m_failed v' |} Hst)
      as (s' & Hs' & He & Hxs & _).
    + unfold minimize. rewrite Hfuel. fold xs f gradf. rewrite Hv.
      reflexivity.
    + exact Hf.
    + exists s'. auto.
Qed.

(** The outer convergence test of a state whose status is
    [UnconstrainedConverged], as [step] evaluates it. *)
Lemma step_converged_test (state : State) :
  let p := params state in
  (if 1 <? EPround p then
     epConverged2 (lastEPstate p) (lastUOstate p)
                  (lastEPenergy p) (lastUOenergy p)
   else Ok false)
  = (if 1 <? EPround p then
       let* change :=
         call "subv" (subv (lastUOstate p) (lastEPstate p)) in
       Ok (JS.lt (normList change) 1e-3%float
           || JS.lt (Math_abs (lastUOenergy p - lastEPenergy p)%float)
                    1e-3%float)
     else Ok false).
Proof. reflexivity. Qed.

(** C1: on a state whose status is [UnconstrainedConverged], [step]
    moves to [EPConverged] exactly when [EPround] exceeds 1 and the norm of
    [lastUOstate - lastEPstate] or the absolute value of
    [lastUOenergy - lastEPenergy] is below 1e-3; otherwise it multiplies
    the weight by 10, increments [EPround], resets [UOround] to 0, binds
    [currObjective] and [currGradient] to the new weight and moves back to
    [UnconstrainedRunning]. In both cases the last unconstrained state and
    energy become [lastEPstate] and [lastEPenergy]. The difference of the
    two states is taken only when [EPround] exceeds 1, and the call raises
    what [subv] raises then; it returns otherwise, unless the colouring of
    the shapes, which runs when [evaluate] is set, raises an exception. *)
Theorem step_UnconstrainedConverged_spec
  (state : State) (steps : Z) (evaluate : bool) :
  optStatus (params state) = UnconstrainedConverged ->
  RenderFrame ->
  let p := params state in
  let outerConverged : result bool :=
    if 1 <? EPround p then
      let* change := call "subv" (subv (lastUOstate p) (lastEPstate p)) in
      Ok (JS.lt (normList change) 1e-3%float
          || JS.lt (Math_abs (lastUOenergy p - lastEPenergy p)%float)
                   1e-3%float)
    else Ok false in
  match outerConverged with
  | Throw e => step state steps evaluate = Throw e
  | Ok true =>
      match step state steps evaluate with
      | Ok s' =>
          optStatus (params s') = EPConverged
          /\ weight (params s') = weight p
          /\ EPround (params s') = EPround p
          /\ lastEPstate (params s') = lastUOstate p
          /\ lastEPenergy (params s') = lastUOenergy p
      | Throw e => evaluate = true /\ exists s1, colour s1 = Throw e
      end
  | Ok false =>
      forall obj grad,
        objective p = Some obj ->
        gradient p = Some grad ->
        match step state steps evaluate with
        | Ok s' =>
            optStatus (params s') = UnconstrainedRunning
            /\ weight (params s') = (10 * weight p)%float
            /\ EPround (params s') = EPround p + 1
            /\ UOround (params s') = 0
            /\ currObjective (params s') = obj (10 * weight p)%float
            /\ currGradient (params s') = grad (10 * weight p)%float
            /\ lastEPstate (params s') = lastUOstate p
            /\ lastEPenergy (params s') = lastUOenergy p
        | Throw e => evaluate = true /\ exists s1, colour s1 = Throw e
        end
  end.
Proof.
  intros Hst HF p outerConverged.
  pose proof (step_converged_test state) as Hc. cbv zeta in Hc.
  fold p in Hc. fold outerConverged in Hc.
  unfold step. rewrite Hst. unfold step_UnconstrainedConverged. fold p.
  rewrite Hc. destruct outerConverged as [[|]|e]; cbn [JS.bind].
  - apply step_finish_cases; [exact HF|].
    intros s' -> _. simpl. repeat split.
  - intros obj grad Ho Hg. unfold p in *. simpl. rewrite Ho. simpl.
    rewrite Hg. simpl.
    apply step_finish_cases; [exact HF|].
    intros s' -> _. simpl. repeat split.
  - reflexivity.
Qed.

(** A call on a state that is not waiting for its initialization keeps
    the weight or multiplies it by 10, and does not lead back to
    [NewIter]. *)
Lemma step_weight (state : State) (steps : Z) (evaluate : bool) s' :
  RenderFrame ->
  optStatus (params state) <> NewIter ->
  step state steps evaluate = Ok s' ->
  optStatus (params s') <> NewIter
  /\ (weight (params s') = weight (params state)
      \/ weight (params s') = (10 * weight (params state))%float).
Proof.
  intros HF Hst. unfold step.
  destruct (optStatus (params state)) eqn:Hs; try congruence.
  - unfold step_UnconstrainedRunning.
    destruct (minimize _ _ _ _ _ _) as [res|e]; cbn [JS.bind];
      [|discriminate].
    destruct (failed res); cbn [JS.bind].
    + intros H; injection H as <-.
      simpl. split; [discriminate|left].
      destruct (unconstrainedConverged2 _); reflexivity.
    + intros H. apply (step_finish_ok _ _ _ _ HF) in H.
      destruct H as [-> _].
      destruct (unconstrainedConverged2 _); simpl;
        (split; [discriminate|left; reflexivity]).
  - unfold step_UnconstrainedConverged.
    destruct (if 1 <? _ then _ else _) as [[|]|e]; cbn [JS.bind];
      [| |discriminate].
    + intros H. apply (step_finish_ok _ _ _ _ HF) in H.
      destruct H as [-> _]. simpl.
      split; [discriminate|left; reflexivity].
    + simpl.
      destruct (objective (params state)); simpl; [|discriminate].
      destruct (gradient (params state)); simpl; [|discriminate].
      intros H. apply (step_finish_ok _ _ _ _ HF) in H.
      destruct H as [-> _]. simpl.
      split; [discriminate|right; reflexivity].
  - simpl. intros H; injection H as <-. rewrite Hs.
    split; [discriminate|left; reflexivity].
  - simpl. intros H; injection H as <-. rewrite Hs.
    split; [discriminate|left; reflexivity].
Qed.

(** The initialization sets the weight to [initConstraintWeight]. *)
Lemma step_NewIter_weight (state : State) (steps : Z) (evaluate : bool) s' :
  optStatus (params state) = NewIter ->
  step state steps evaluate = Ok s' ->
  optStatus (params s') = UnconstrainedRunning
  /\ weight (params s') = initConstraintWeight.
Proof.
  intros Hst. unfold step. rewrite Hst. unfold step_NewIter.
  destruct (objective (params state)) as [obj|];
    [destruct (gradient (params state)) as [grad|]|]; simpl.
  - intros H; injection H as <-. split; reflexivity.
  - unfold genOptProblem.
    destruct (evalEnergyOnCustom _ _); simpl; [|discriminate].
    intros H; injection H as <-. split; reflexivity.
  - unfold genOptProblem.
    destruct (evalEnergyOnCustom _ _); simpl; [|discriminate].
    intros H; injection H as <-. split; reflexivity.
Qed.

(** Along calls from a state past its initialization whose weight is not
    negative, the weight stays not negative, does not decrease, and is
    the start weight multiplied by 10 some number of times. *)
Lemma calls_weight (s s' : State) :
  RenderFrame ->
  calls s s' ->
  optStatus (params s) <> NewIter ->
  nonneg (weight (params s)) ->
  optStatus (params s') <> NewIter
  /\ nonneg (weight (params s'))
  /\ JS.le (weight (params s)) (weight (params s')) = true
  /\ exists k,
      weight (params s')
      = Nat.iter k (fun w => (10 * w)%float) (weight (params s)).
Proof.
  intros HF Hc Hst Hw.
  induction Hc as [s|s s' s'' steps evaluate Hc IH Hstep].
  - split; [exact Hst|]. split; [exact Hw|].
    split; [apply leb_refl_nonneg; exact Hw|]. exists 0%nat. reflexivity.
  - destruct (IH Hst Hw) as (Hst' & Hw' & Hle & k & Hk).
    edestruct step_weight as [Hst'' [Heq|Heq]];
      [exact HF|exact Hst'|exact Hstep| |].
    + rewrite Heq. split; [exact Hst''|]. split; [exact Hw'|].
      split; [exact Hle|]. exists k. exact Hk.
    + destruct (mul10_ge (weight (params s')) Hw') as [Hge Hnn].
      rewrite Heq. split; [exact Hst''|]. split; [exact Hnn|].
      split.
      * apply (leb_trans_nonneg _ (weight (params s')) _); assumption.
      * exists (S k). simpl. rewrite Hk. reflexivity.
Qed.

Lemma calls_trans (s s' s'' : State) :
  calls s s' -> calls s' s'' -> calls s s''.
Proof.
  intros H1 H2. induction H2 as [|s' t t' steps evaluate _ IH Hstep].
  - exact H1.
  - eapply calls_more; [apply IH; exact H1|exact Hstep].
Qed.

(** C8: in a run, which the initialization of a [NewIter] state starts
    with the weight [initConstraintWeight], the weight never decreases from
    one call of [step] to any later one, and it only ever changes by
    multiplications by 10. The starting weight is a number that is not
    negative. *)
Theorem weight_monotone (s0 s1 : State) (steps0 : Z) (evaluate0 : bool) :
  RenderFrame ->
  nonneg initConstraintWeight ->
  optStatus (params s0) = NewIter ->
  step s0 steps0 evaluate0 = Ok s1 ->
  weight (params s1) = initConstraintWeight
  /\ forall s s',
      calls s1 s ->
      calls s s' ->
      JS.le (weight (params s)) (weight (params s')) = true
      /\ (exists k,
            weight (params s')
            = Nat.iter k (fun w => (10 * w)%float) (weight (params s)))
      /\ forall steps evaluate s'',
          step s' steps evaluate = Ok s'' ->
          weight (params s'') = weight (params s')
          \/ weight (params s'') = (10 * weight (params s'))%float.
Proof.
  intros HF Hinit Hst Hstep.
  edestruct step_NewIter_weight as [Hst1 Hw1]; [exact Hst|exact Hstep|].
  split; [exact Hw1|]. intros s s' Hc1 Hc2.
  assert (Hne1 : optStatus (params s1) <> NewIter) by (rewrite Hst1; discriminate).
  assert (Hnn1 : nonneg (weight (params s1))) by (rewrite Hw1; exact Hinit).
  destruct (calls_weight HF Hc1 Hne1 Hnn1) as (Hne & Hnn & _).
  destruct (calls_weight HF Hc2 Hne Hnn) as (Hne' & Hnn' & Hle & Hk).
  split; [exact Hle|]. split; [exact Hk|].
  intros steps evaluate s'' Hs.
  edestruct step_weight as [_ Hw]; [exact HF|exact Hne'|exact Hs|exact Hw].
Qed.

End StepProperties.

(** ** The properties at work on the reference collaborators *)

Lemma Ref_RenderFrame : RenderFrame (C := Ref.collaborators).
Proof.
  intros s. simpl. split; [split; reflexivity|].
  split; intros s' H; injection H as <-; split; reflexivity.
Qed.

Lemma Ref_colour (s : State) e : colour s = Throw e -> False.
Proof. discriminate. Qed.

(** A computation that returns unless one of the exceptions [R] is
    raised, when none of them can be. *)
Lemma result_cases {A : Type} (r : result A) (Q : A -> Prop)
  (R : error -> Prop) :
  match r with Ok a => Q a | Throw e => R e end ->
  (forall e, R e -> False) ->
  exists a, r = Ok a /\ Q a.
Proof.
  destruct r as [a|e]; intros H HR; [eauto|destruct (HR e H)].
Qed.

Lemma Ref_coloured evaluate e :
  evaluate = true /\ (exists s1 : State, colour s1 = Throw e) -> False.
Proof. intros (_ & s1 & H). exact (@Ref_colour _ _ H). Qed.

Lemma Ref_zipWith_length g (l r : list number) :
  List.length l = List.length r ->
  List.length (Ref.zipWith g l r) = List.length l.
Proof.
  intros H. unfold Ref.zipWith. rewrite length_map, length_combine, H.
  apply Nat.min_id.
Qed.

Lemma Ref_vector_laws : vector_laws (U := Ref.utils).
Proof.
  unfold vector_laws. simpl. unfold Ref.on_equal_lengths.
  split; [|split; [|split; [|split]]].
  - intros a b H. rewrite (proj2 (Nat.eqb_eq _ _) H). eexists.
    split; [reflexivity|]. apply Ref_zipWith_length. exact H.
  - intros a b H. rewrite (proj2 (Nat.eqb_eq _ _) H). eexists.
    split; [reflexivity|]. apply Ref_zipWith_length. exact H.
  - intros a b H. rewrite (proj2 (Nat.eqb_eq _ _) H). eexists. reflexivity.
  - intros a. apply length_map.
  - intros c a. apply length_map.
Qed.

Lemma step_terminal_noop_witness :
  optStatus (params (Samples.after 7)) = EPConverged
  /\ step (Samples.after 7) 100 true = Ok (Samples.after 7).
Proof.
  assert (H : optStatus (params (Samples.after 7)) = EPConverged)
    by (vm_compute; reflexivity).
  split; [exact H|].
  exact (proj1 (step_terminal_noop (Samples.after 7) 100 true (or_introl H))).
Defined.

Lemma step_zero_budget_witness :
  optStatus (params (Samples.after 1)) = UnconstrainedRunning
  /\ currObjective (params (Samples.after 1))
       (varyingValues (Samples.after 1)) = 25%float
  /\ exists s',
      step (Samples.after 1) 0 true = Ok s'
      /\ lastUOenergy (params s') = 0%float
      /\ optStatus (params s') = UnconstrainedConverged.
Proof.
  assert (H : optStatus (params (Samples.after 1)) = UnconstrainedRunning)
    by (vm_compute; reflexivity).
  split; [exact H|]. split; [vm_compute; reflexivity|].
  assert (G : forall s : State,
             optStatus (params s) = UnconstrainedRunning ->
             exists s',
               step s 0 true = Ok s'
               /\ lastUOenergy (params s') = 0%float
               /\ optStatus (params s') = UnconstrainedConverged).
  { intros s Hs.
    destruct (result_cases _ _ _
                (proj2 (step_zero_budget s true Hs Ref_RenderFrame))
                (Ref_coloured (evaluate := true)))
      as (s' & Hs' & _ & _ & He & _ & Hc).
    exists s'. repeat split; assumption. }
  exact (G (Samples.after 1) H).
Defined.

Lemma step_UnconstrainedConverged_spec_witness :
  optStatus (params (Samples.after 2)) = UnconstrainedConverged
  /\ optStatus (params (Samples.after 6)) = UnconstrainedConverged
  /\ optStatus (params Samples.mismatched) = UnconstrainedConverged
  /\ (exists s',
        step (Samples.after 2) 100 true = Ok s'
        /\ optStatus (params s') = UnconstrainedRunning
        /\ weight (params s')
           = (10 * weight (params (Samples.after 2)))%float)
  /\ (exists s',
        step (Samples.after 6) 100 true = Ok s'
        /\ optStatus (params s') = EPConverged)
  /\ step Samples.mismatched 100 true = Throw (Raised "subv").
Proof.
  assert (H2 : optStatus (params (Samples.after 2)) = UnconstrainedConverged)
    by (vm_compute; reflexivity).
  assert (H6 : optStatus (params (Samples.after 6)) = UnconstrainedConverged)
    by (vm_compute; reflexivity).
  assert (Hm : optStatus (params Samples.mismatched) = UnconstrainedConverged)
    by (vm_compute; reflexivity).
  split; [exact H2|]. split; [exact H6|]. split; [exact Hm|].
  assert (G : forall (s : State) (outer : result bool),
             optStatus (params s) = UnconstrainedConverged ->
             (if 1 <? EPround (params s) then
                let* change :=
                  call "subv" (subv (lastUOstate (params s))
                                    (lastEPstate (params s))) in
                Ok (JS.lt (normList change) 1e-3%float
                    || JS.lt (Math_abs (lastUOenergy (params s)
                                        - lastEPenergy (params s))%float)
                             1e-3%float)
              else Ok false) = outer ->
             match outer with
             | Throw e => step s 100 true = Throw e
             | Ok true =>
                 exists s',
                   step s 100 true = Ok s'
                   /\ optStatus (params s') = EPConverged
             | Ok false =>
                 objective (params s) <> None ->
                 gradient (params s) <> None ->
                 exists s',
                   step s 100 true = Ok s'
                   /\ optStatus (params s') = UnconstrainedRunning
                   /\ weight (params s') = (10 * weight (params s))%float
             end).
  { intros s outer Hs Ho.
    pose proof (step_UnconstrainedConverged_spec s 100 true Hs
                  Ref_RenderFrame) as Hspec.
    cbv zeta in Hspec. rewrite Ho in Hspec.
    destruct outer as [[|]|e]; [| |exact Hspec].
    - destruct (result_cases _ _ _ Hspec (Ref_coloured (evaluate := true)))
        as (s' & Hs' & Hu & _).
      exists s'. split; assumption.
    - intros Hobj Hgrad.
      destruct (objective (params s)) as [obj|] eqn:Eo; [|congruence].
      destruct (gradient (params s)) as [grad|] eqn:Eg; [|congruence].
      destruct (result_cases _ _ _ (Hspec obj grad eq_refl eq_refl)
                  (Ref_coloured (evaluate := true)))
        as (s' & Hs' & Hu & Hw & _).
      exists s'. repeat split; assumption. }
  split; [|split].
  - apply (G (Samples.after 2) (Ok false) H2);
      [vm_compute; reflexivity
      |vm_compute; discriminate|vm_compute; discriminate].
  - apply (G (Samples.after 6) (Ok true) H6). vm_compute. reflexivity.
  - apply (G Samples.mismatched (Throw (Raised "subv")) Hm).
    vm_compute. reflexivity.
Defined.

Lemma awLineSearch2_stops_witness :
  (exists t, awLineSearch2 [0%float] Samples.f_abs Samples.gradf_abs
                           [1%float] 0%float 40 = Ok t)
  /\ aw_body [0%float] Samples.f_abs Samples.gradf_abs [1%float] 0%float 40
             (-1)%float (mkAw 0%float 0x1p-30%float 0x1p-31%float 31)
     = Ok (inr 0x1p-31%float).
Proof.
  pose proof (awLineSearch2_stops [0%float] Samples.f_abs Samples.gradf_abs
                [1%float] 0%float 40) as (_ & Hret & Hpass).
  split.
  - apply Hret; [exact Ref_vector_laws|reflexivity|].
    intros zs Hz. reflexivity.
  - apply (proj1 (Hpass (-1)%float 0%float 0x1p-30%float 0x1p-31%float 31)).
    vm_compute. reflexivity.
Defined.

(** C4, as stated, fails. With [maxSteps = 40] on the energy [|x|] at 0
    the search returns at pass 31 with a bracket of width 2^-30, which is
    not below 1e-10, while the counter does not exceed [maxSteps] and the
    Armijo condition fails at the returned trial. And not every input makes
    the search return: with a direction of another length than the point,
    it raises the exception of [addv]. *)
Lemma awLineSearch2_1e10_counterexample :
  (exists slope0 v,
      dot (negv [1%float]) (Samples.gradf_abs [0%float]) = Some slope0
      /\ aw_loop [0%float] Samples.f_abs Samples.gradf_abs [1%float] 0%float
                 40 slope0 (aw_fuel 40) aw_init = Ok (Some v)
      /\ awLineSearch2 [0%float] Samples.f_abs Samples.gradf_abs [1%float]
                       0%float 40 = Ok (aw_t v)
      /\ aw_i v = 31
      /\ JS.lt (Math_abs (aw_b v - aw_a v)%float) 1e-10%float = false
      /\ (40 <? aw_i v) = false
      /\ armijo [0%float] Samples.f_abs [1%float] 0%float slope0 (aw_t v)
         = Ok false)
  /\ awLineSearch2 [1%float; 2%float] (fun _ => 1%float)
                   (fun _ => [1%float]) [1%float] 1%float 10
     = Throw (Raised "addv").
Proof.
  split.
  - do 2 eexists. split; [vm_compute; reflexivity|].
    split; [vm_compute; reflexivity|].
    repeat split; vm_compute; reflexivity.
  - vm_compute. reflexivity.
Qed.

Lemma Ref_ForwardValue : ForwardValue (C := Ref.collaborators) Ref.eval.
Proof. repeat split. Qed.

Lemma Ref_total_eval env (l : list Ref.node) : forall acc,
  Ref.eval env (fold_left Ref.NAdd l acc)
  = fold_left PrimFloat.add (map (Ref.eval env) l) (Ref.eval env acc).
Proof.
  induction l as [|n l IH]; intros acc; simpl; [reflexivity|].
  rewrite IH. reflexivity.
Qed.

Lemma Ref_ForwardSum :
  ForwardSum (C := Ref.collaborators) Ref.eval Samples.total Samples.penalty.
Proof.
  split.
  - intros env l. simpl. unfold Samples.total. apply Ref_total_eval.
  - intros env c. simpl. unfold Samples.penalty.
    destruct (JS.lt (Ref.eval env c) 0%float); reflexivity.
Qed.

Lemma evalEnergyOnCustom_energy_witness :
  exists res,
    evalEnergyOnCustom Samples.problem_contains
      (makeADInputVars (varyingValues Samples.problem_contains)) = Ok res
    /\ Ref.eval (Ref.env_of 10%float [0%float; 5%float])
                (en_energyGraph res) = 49000025%float
    /\ Ref.eval (Ref.env_of 20%float [0%float; 5%float])
                (en_energyGraph res) = 98000025%float
    /\ Ref.eval (Ref.env_of 10%float [5%float; 5%float])
                (en_energyGraph res) = 4000000%float.
Proof.
  destruct (evalEnergyOnCustom Samples.problem_contains
              (makeADInputVars (varyingValues Samples.problem_contains)))
    as [res|e] eqn:H; [|vm_compute in H; discriminate].
  exists res. split; [reflexivity|].
  destruct (evalEnergyOnCustom_energy Samples.problem_contains _ H)
    as (objEngs & constrEngs & Ho & Hc & _ & _ & _ & _ & Hv).
  rewrite !(Hv Ref.eval Samples.total Samples.penalty Ref_ForwardValue
               Ref_ForwardSum).
  vm_compute in Ho. injection Ho as <-.
  vm_compute in Hc. injection Hc as <-.
  repeat split; vm_compute; reflexivity.
Defined.

Lemma step_nan_error_witness :
  let state :=
    Samples.with_status UnconstrainedRunning [NaN] Samples.f_sq
                        Samples.gradf_sq in
  optStatus (params state) = UnconstrainedRunning
  /\ PrimFloat.is_nan (currObjective (params state) (varyingValues state))
     = true
  /\ exists s',
      step state 1 true = Ok s'
      /\ optStatus (params s') = Error
      /\ varyingValues s' = varyingValues state.
Proof.
  intros state.
  assert (Hst : optStatus (params state) = UnconstrainedRunning)
    by reflexivity.
  assert (Hn : PrimFloat.is_nan
                 (currObjective (params state) (varyingValues state)) = true)
    by (vm_compute; reflexivity).
  split; [exact Hst|]. split; [exact Hn|].
  destruct (lbfgs (varyingValues state)
              (currGradient (params state) (varyingValues state))
              (lbfgsInfo (params state))) as [[pre info']|e] eqn:Hl;
    [|vm_compute in Hl; discriminate].
  assert (Hpre : pre = currGradient (params state) (varyingValues state)).
  { vm_compute in Hl. injection Hl as <- _. vm_compute. reflexivity. }
  destruct (dot (currGradient (params state) (varyingValues state)) pre)
    as [metric|] eqn:Hd; [|rewrite Hpre in Hd; vm_compute in Hd; discriminate].
  destruct (awLineSearch2 (varyingValues state) (currObjective (params state))
              (currGradient (params state)) pre
              (currObjective (params state) (varyingValues state)) 10)
    as [t|e] eqn:Hs; [|rewrite Hpre in Hs; vm_compute in Hs; discriminate].
  refine (proj2 (proj2 step_nan_error) state 1 true pre info' metric t Hst
                eq_refl Hl Hd _ Hs (or_introl Hn)).
  rewrite Hpre in Hd. vm_compute in Hd. injection Hd as <-.
  vm_compute. reflexivity.
Defined.

(** C2, as stated, fails. An infinite energy is not an error: on the
    energy [1 / x^2] at [x = 0], where the energy is +infinity and the
    gradient -infinity, [step] with a budget of 1 returns with the status
    [UnconstrainedRunning] and the variable +infinity. And a NaN variable
    need not lead to [Error]: with a NaN variable that no term mentions,
    the problem runs to [EPConverged] and the variable is still NaN. *)
Lemma step_nonfinite_counterexample :
  (exists s',
      step (Samples.with_status UnconstrainedRunning [0%float]
                                Samples.f_inv Samples.gradf_inv) 1 true
      = Ok s'
      /\ Samples.f_inv [0%float] = Infinity
      /\ Samples.gradf_inv [0%float] = [neg_infinity]
      /\ optStatus (params s') = UnconstrainedRunning
      /\ varyingValues s' = [Infinity]
      /\ lastUOenergy (params s') = Infinity)
  /\ (exists s1 s7,
        step Samples.problem_nan 100 true = Ok s1
        /\ PrimFloat.is_nan (nth 0 (varyingValues s1) 0%float) = true
        /\ run 6 100 true s1 = Ok s7
        /\ optStatus (params s7) = EPConverged
        /\ PrimFloat.is_nan (nth 0 (varyingValues s7) 0%float) = true).
Proof.
  split.
  - eexists. split; [vm_compute; reflexivity|].
    repeat split; vm_compute; reflexivity.
  - do 2 eexists. split; [vm_compute; reflexivity|].
    split; [vm_compute; reflexivity|].
    split; [vm_compute; reflexivity|].
    split; vm_compute; reflexivity.
Qed.

Lemma awLineSearch2_iteration_witness :
  aw_reach [10%float] Samples.f_sq Samples.gradf_sq [20%float] 100%float 10
           (-400)%float aw_init
  /\ dot (negv [20%float]) (Samples.gradf_sq [10%float]) = Some (-400)%float
  /\ aw_body [10%float] Samples.f_sq Samples.gradf_sq [20%float] 100%float 10
             (-400)%float aw_init
     = Ok (inl (mkAw 0%float 1%float 0.5%float 1)).
Proof.
  split; [apply aw_reach_init|]. split; [vm_compute; reflexivity|].
  rewrite (proj2 (proj2 (awLineSearch2_iteration [10%float] Samples.f_sq
                    Samples.gradf_sq [20%float] 100%float 10 (-400)%float))
                 aw_init
                 (aw_reach_init [10%float] Samples.f_sq Samples.gradf_sq
                                [20%float] 100%float 10 (-400)%float)).
  vm_compute. reflexivity.
Defined.

Lemma weight_monotone_witness :
  nonneg initConstraintWeight
  /\ optStatus (params Samples.problem) = NewIter
  /\ step Samples.problem 100 true = Ok (Samples.after 1)
  /\ step (Samples.after 1) 100 true = Ok (Samples.after 2)
  /\ step (Samples.after 2) 100 true = Ok (Samples.after 3)
  /\ weight (params (Samples.after 1)) = 10e-3%float
  /\ weight (params (Samples.after 3)) = (10 * 10e-3)%float
  /\ JS.le (weight (params (Samples.after 1)))
           (weight (params (Samples.after 3))) = true.
Proof.
  assert (Hn : nonneg initConstraintWeight) by (vm_compute; reflexivity).
  assert (H0 : optStatus (params Samples.problem) = NewIter) by reflexivity.
  assert (H1 : step Samples.problem 100 true = Ok (Samples.after 1))
    by (vm_compute; reflexivity).
  assert (H2 : step (Samples.after 1) 100 true = Ok (Samples.after 2))
    by (vm_compute; reflexivity).
  assert (H3 : step (Samples.after 2) 100 true = Ok (Samples.after 3))
    by (vm_compute; reflexivity).
  repeat (split; [first [assumption | vm_compute; reflexivity]|]).
  refine (proj1 (proj2 (@weight_monotone _ _ _ _ Samples.problem
                          (Samples.after 1) 100 true Ref_RenderFrame Hn H0 H1)
                       (Samples.after 1) (Samples.after 3) _ _)).
  - apply calls_none.
  - eapply calls_more; [eapply calls_more; [apply calls_none|exact H2]|].
    exact H3.
Defined.

(** ** The optimizer at work

    The problem of the objective ["equal"] on the variables [[0; 5]]: the
    initialization, then three rounds of unconstrained minimisation at the
    weights 0.01, 0.1 and 1, and the exterior-point method has converged
    with both variables at 2.5. *)
Example equal_problem_converges :
  exists s,
    run 7 100 true Samples.problem = Ok s
    /\ optStatus (params s) = EPConverged
    /\ varyingValues s = [2.5%float; 2.5%float]
    /\ EPround (params s) = 2
    /\ weight (params s) = 1%float.
Proof.
  eexists. split; [vm_compute; reflexivity|]. repeat split.
Qed.
(** * Further properties of the code

    Properties read off the estimator, the minimiser, the line search, the
    energy builder, the state machine and the colouring helpers, beyond
    those above. *)

(** ** Column vectors *)

Section Vectors.

Context {E : Eigen}.

Variable column : nat -> Matrix -> Prop.
Hypothesis laws : column_laws column.

(** Writing the elements of a list from the row [start] on. *)
Lemma colVec_fold n : forall (l : list number) (start : nat) (m : Matrix),
  column n m ->
  (start + List.length l <= n)%nat ->
  let m' := fold_left (fun m ie => mset m (fst ie) 0%nat (snd ie))
                      (combine (seq start (List.length l)) l) m in
  column n m'
  /\ (forall j, (j < start)%nat -> mget m' j 0%nat = mget m j 0%nat)
  /\ (forall j d, (j < List.length l)%nat ->
                  mget m' (start + j)%nat 0%nat = nth j l d).
Proof.
  destruct laws as (L1 & L2 & L3 & L4 & L5).
  induction l as [|x l IH]; intros start m Hm Hn; simpl.
  - split; [exact Hm|]. split; [reflexivity|]. intros j d Hj. lia.
  - simpl in Hn.
    destruct (IH (S start) (mset m start 0%nat x)) as (H1 & H2 & H3);
      [apply L2; [exact Hm|lia]|lia|].
    split; [exact H1|]. split.
    + intros j Hj. rewrite H2 by lia. apply (L5 n); [exact Hm|lia].
    + intros j d Hj. destruct j as [|j].
      * rewrite Nat.add_0_r. rewrite H2 by lia. apply (L4 n); [exact Hm|lia].
      * replace (start + S j)%nat with (S start + j)%nat by lia.
        apply H3. lia.
Qed.

(** The column vector built from a list has one row for each element. *)
Lemma colVec_column (l : list number) : column (List.length l) (colVec l).
Proof.
  destruct laws as (L1 & _). unfold colVec.
  destruct (@colVec_fold (List.length l) l 0%nat
              (constant (List.length l) 1%nat 0%float))
    as (H1 & _); [apply L1|lia|]. exact H1.
Qed.

Lemma vecList_length n (m : Matrix) :
  column n m -> List.length (vecList m) = n.
Proof.
  destruct laws as (_ & _ & L3 & _). intros Hm. unfold vecList.
  rewrite length_map, length_seq. apply L3. exact Hm.
Qed.

(** X4: with matrices on which writing and reading the entries of a
    column behave as they should, [vecList] undoes [colVec]: the column
    vector built from a list of numbers reads back as that list. *)
Theorem vecList_colVec (l : list number) : vecList (colVec l) = l.
Proof.
  destruct laws as (L1 & L2 & L3 & L4 & L5).
  unfold vecList, colVec.
  destruct (@colVec_fold (List.length l) l 0%nat
              (constant (List.length l) 1%nat 0%float))
    as (H1 & _ & H3); [apply L1|lia|].
  cbv zeta in H1, H3. rewrite (L3 _ _ H1).
  set (m' := fold_left _ _ _) in *.
  apply nth_ext with (d := mget m' 0%nat 0%nat) (d' := 0%float).
  - rewrite length_map, length_seq. reflexivity.
  - intros i Hi. rewrite length_map, length_seq in Hi.
    rewrite (map_nth (fun i => mget m' i 0%nat) (seq 0 (List.length l)) 0%nat).
    rewrite seq_nth by exact Hi. simpl. apply (H3 i 0%float Hi).
Qed.

End Vectors.

(** ** The L-BFGS estimator: memory and failures *)

Section LbfgsMemory.

Context {E : Eigen}.

(** The first loop of [lbfgsInner] gets through the zipped lists only when
    they are equally long, and then it has kept every pair. *)
Lemma mapM_rho_of_ok (ss : list Matrix) : forall ys rsys,
  mapM rho_of (zip ss ys) = Ok rsys ->
  List.length ss = List.length ys
  /\ List.length rsys = List.length ss
  /\ map (fun rsy => (snd (fst rsy), snd rsy)) rsys = combine ss ys.
Proof.
  induction ss as [|s ss IH]; intros [|y ys] rsys; simpl.
  - intros H; injection H as <-. auto.
  - destruct (call "transpose" (transpose y)); simpl; discriminate.
  - discriminate.
  - destruct (calculate_rho s y) as [rho|e]; simpl; [|discriminate].
    destruct (mapM rho_of (zip ss ys)) as [rest|e] eqn:Hr; simpl;
      [|discriminate].
    intros H; injection H as <-.
    destruct (IH ys rest Hr) as (Hl & Hn & Hc). simpl.
    rewrite Hl, Hn, Hc. auto.
Qed.

(** It raises a [TypeError] only at a pair with a vector missing. *)
Lemma mapM_rho_of_type_error (ss : list Matrix) : forall ys msg,
  mapM rho_of (zip ss ys) = Throw (TypeError msg) ->
  List.length ss <> List.length ys.
Proof.
  induction ss as [|s ss IH]; intros [|y ys] msg; simpl.
  - discriminate.
  - intros _. discriminate.
  - intros _. discriminate.
  - unfold calculate_rho.
    destruct (dotVec y s) as [d|e] eqn:Hd; simpl.
    + destruct (mapM rho_of (zip ss ys)) as [rest|e] eqn:Hr; simpl;
        [discriminate|].
      intros H; injection H as ->. apply IH in Hr. lia.
    + apply dotVec_throw in Hd. destruct Hd as [c ->]. discriminate.
Qed.

(** [lbfgsInner] returns only when it is given as many [s] as [y] vectors
    and at least one pair. *)
Lemma lbfgsInner_ok_lengths (grad_fx_k : Matrix) (ss ys : list Matrix) r :
  lbfgsInner grad_fx_k ss ys = Ok r ->
  List.length ss = List.length ys /\ (0 < List.length ss)%nat.
Proof.
  unfold lbfgsInner.
  destruct (mapM rho_of (zip ss ys)) as [rsys|e] eqn:Hm; simpl;
    [|discriminate].
  destruct (mapM_rho_of_ok _ _ Hm) as (Hl & _).
  destruct (foldM pull_q_back rsys (grad_fx_k, [])) as [[q alphas]|e];
    simpl; [|discriminate].
  destruct ys as [|y0 ys]; [discriminate|].
  destruct ss as [|s0 ss]; [discriminate|].
  intros _. split; [exact Hl|simpl; lia].
Qed.

(** A [TypeError] of [lbfgsInner] comes from a missing vector: there are
    not as many [s] as [y] vectors, or there are no vectors at all. *)
Lemma lbfgsInner_type_error (grad_fx_k : Matrix) (ss ys : list Matrix) msg :
  lbfgsInner grad_fx_k ss ys = Throw (TypeError msg) ->
  List.length ss <> List.length ys \/ (ss = [] /\ ys = []).
Proof.
  unfold lbfgsInner.
  destruct (mapM rho_of (zip ss ys)) as [rsys|e] eqn:Hm; simpl.
  - destruct (mapM_rho_of_ok _ _ Hm) as (Hl & _).
    destruct (foldM pull_q_back rsys (grad_fx_k, [])) as [[q alphas]|e]
      eqn:Hf; simpl.
    + destruct ys as [|y0 ys];
        [destruct ss; [auto|discriminate]|].
      destruct ss as [|s0 ss]; [discriminate|].
      destruct (estimate_hess y0 s0) as [h|e] eqn:Hh; simpl.
      * destruct (call "matMul" _) as [r0|e] eqn:Hr; simpl.
        -- intros H.
           apply (foldM_throw (fun e => exists c, e = Raised c)) in H;
             [destruct H as [c H]; discriminate|].
           intros b a e'. apply push_r_forward_throw.
        -- apply call_throw in Hr. subst e. discriminate.
      * apply estimate_hess_throw in Hh. destruct Hh as [c ->].
        discriminate.
    + intros H; injection H as ->.
      apply (foldM_throw (fun e => exists c, e = Raised c)) in Hf;
        [destruct Hf as [c Hf]; discriminate|].
      intros b a e'. apply pull_q_back_throw.
  - intros H; injection H as ->. left. eapply mapM_rho_of_type_error.
    exact Hm.
Qed.

Lemma take_length {A : Type} (l : list A) n :
  List.length (take l n) = Nat.min (Z.to_nat n) (List.length l).
Proof. unfold take. apply length_firstn. Qed.

Lemma Forall_take {A : Type} (P : A -> Prop) (l : list A) n :
  Forall P l -> Forall P (take l n).
Proof.
  intros H. unfold take. generalize (Z.to_nat n) as k.
  induction H as [|a l Ha Hl IH]; intros [|k]; simpl; constructor;
    [exact Ha|apply IH].
Qed.

Section Columns.

Variable column : nat -> Matrix -> Prop.
Hypothesis algebra : column_algebra column.

Lemma dotVec_returns n a b :
  column n a -> column n b -> exists d, dotVec a b = Ok d.
Proof.
  destruct algebra as (A1 & _). intros Ha Hb.
  destruct (A1 n a b Ha Hb) as (at_ & p & Ht & Hp).
  unfold dotVec. rewrite Ht. simpl. rewrite Hp. simpl. eauto.
Qed.

Lemma mapM_rho_of_returns n (ss : list Matrix) : forall ys,
  Forall (column n) ss -> Forall (column n) ys ->
  List.length ss = List.length ys ->
  exists rsys,
    mapM rho_of (zip ss ys) = Ok rsys
    /\ Forall (fun rsy => column n (snd (fst rsy)) /\ column n (snd rsy))
              rsys.
Proof.
  induction ss as [|s ss IH]; intros [|y ys] Hs Hy Hl; simpl in *;
    try discriminate.
  - eexists. split; [reflexivity|constructor].
  - inversion Hs as [|? ? Hs0 Hs1]; subst.
    inversion Hy as [|? ? Hy0 Hy1]; subst.
    unfold calculate_rho.
    destruct (dotVec_returns Hy0 Hs0) as (d & ->). simpl.
    destruct (IH ys Hs1 Hy1) as (rest & -> & Hrest); [lia|]. simpl.
    eexists. split; [reflexivity|]. constructor; [split; assumption|].
    exact Hrest.
Qed.

Lemma pull_q_back_returns n (rsys : list (number * Matrix * Matrix)) :
  forall q alphas,
  Forall (fun rsy => column n (snd (fst rsy)) /\ column n (snd rsy)) rsys ->
  column n q ->
  exists q' alphas',
    foldM pull_q_back rsys (q, alphas) = Ok (q', alphas') /\ column n q'.
Proof.
  destruct algebra as (_ & A2 & _ & A4 & _).
  induction rsys as [|[[rho s] y] rsys IH]; intros q alphas Hr Hq; simpl.
  - eauto.
  - inversion Hr as [|? ? [Hs Hy] Hrest]; subst. simpl in Hs, Hy.
    destruct (dotVec_returns Hs Hq) as (d & ->). simpl.
    destruct (A2 n q (mmul y (rho * d)%float) Hq (A4 _ _ _ Hy))
      as (q1 & -> & Hq1).
    simpl. apply IH; assumption.
Qed.

Lemma push_r_forward_returns n
  (inputs : list ((number * number) * (Matrix * Matrix))) :
  forall r,
  Forall (fun c => column n (fst (snd c)) /\ column n (snd (snd c))) inputs ->
  column n r ->
  exists r', foldM push_r_forward inputs r = Ok r' /\ column n r'.
Proof.
  destruct algebra as (_ & _ & A3 & A4 & _).
  induction inputs as [|[[rho alpha] [s y]] inputs IH]; intros r Hi Hr;
    simpl.
  - eauto.
  - inversion Hi as [|? ? [Hs Hy] Hrest]; subst. simpl in Hs, Hy.
    destruct (dotVec_returns Hy Hr) as (d & ->). simpl.
    destruct (A3 n r (mmul s (alpha - rho * d)%float) Hr (A4 _ _ _ Hs))
      as (r1 & -> & Hr1).
    simpl. apply IH; assumption.
Qed.

Lemma Forall_combine_snd {A B : Type} (P : B -> Prop) (l : list A) :
  forall r : list B, Forall P r -> Forall (fun c => P (snd c)) (combine l r).
Proof.
  induction l as [|a l IH]; intros [|b r] H; simpl; try constructor.
  - inversion H; assumption.
  - apply IH. inversion H; assumption.
Qed.

(** On columns of one height, as many [s] as [y] of them and at least one
    pair, [lbfgsInner] returns, and it returns a column of that height. *)
Lemma lbfgsInner_returns n (grad_fx_k : Matrix) (ss ys : list Matrix) :
  column n grad_fx_k ->
  Forall (column n) ss -> Forall (column n) ys ->
  List.length ss = List.length ys -> (0 < List.length ss)%nat ->
  exists r, lbfgsInner grad_fx_k ss ys = Ok r /\ column n r.
Proof.
  intros Hg Hs Hy Hl Hp. unfold lbfgsInner.
  destruct (mapM_rho_of_returns Hs Hy Hl) as (rsys & Hm & Hrsys).
  rewrite Hm. simpl.
  destruct (@pull_q_back_returns n rsys grad_fx_k [] Hrsys Hg)
    as (q & alphas & -> & Hq).
  simpl.
  destruct ys as [|y0 ys'] eqn:Eys; [simpl in Hl; lia|].
  destruct ss as [|s0 ss'] eqn:Ess; [simpl in Hp; lia|].
  inversion Hs as [|? ? Hs0 _]; subst.
  inversion Hy as [|? ? Hy0 _]; subst.
  unfold estimate_hess.
  destruct (dotVec_returns Hs0 Hy0) as (d1 & ->). simpl.
  destruct (dotVec_returns Hy0 Hy0) as (d2 & ->). simpl.
  destruct algebra as (_ & _ & _ & _ & A5).
  destruct (A5 n y0 q (d1 / (d2 + EPSD))%float Hy0 Hq) as (r0 & -> & Hr0).
  simpl. apply push_r_forward_returns; [|exact Hr0].
  apply Forall_rev.
  apply (@Forall_combine_snd _ _
           (fun sy => column n (fst sy) /\ column n (snd sy))).
  apply Forall_forall. intros sy Hin. apply in_map_iff in Hin.
  destruct Hin as (rsy & <- & Hin). simpl.
  revert rsy Hin. apply Forall_forall. exact Hrsys.
Qed.

End Columns.

(** X1: the two-loop recursion [lbfgsInner] returns only when it is given
    as many [s] as [y] vectors and at least one pair, and then it does
    return if the vectors are columns of one height (on which the matrix
    operations are defined), with a column of that height. Of its
    exceptions, a [TypeError] means that a vector was missing (not as many
    [s] as [y] vectors, or no vectors at all), every other one is raised
    by a matrix operation, and without any vector it is a [TypeError]. *)
Theorem lbfgsInner_returns_iff (grad_fx_k : Matrix) (ss ys : list Matrix) :
  ((exists r, lbfgsInner grad_fx_k ss ys = Ok r) ->
   List.length ss = List.length ys /\ (0 < List.length ss)%nat)
  /\ (forall column n,
        column_algebra column -> column n grad_fx_k ->
        Forall (column n) ss -> Forall (column n) ys ->
        List.length ss = List.length ys -> (0 < List.length ss)%nat ->
        exists r, lbfgsInner grad_fx_k ss ys = Ok r /\ column n r)
  /\ (forall e,
        lbfgsInner grad_fx_k ss ys = Throw e ->
        match e with
        | TypeError _ =>
            List.length ss <> List.length ys \/ (ss = [] /\ ys = [])
        | Raised _ => ss <> [] \/ ys <> []
        | Error_ _ => False
        end)
  /\ (ss = [] -> ys = [] ->
      lbfgsInner grad_fx_k ss ys = Throw (TypeError "undefined operand")).
Proof.
  split; [|split; [|split]].
  - intros [r Hr]. eapply lbfgsInner_ok_lengths. exact Hr.
  - intros column n Ha Hg Hs Hy Hl Hp. eapply lbfgsInner_returns; eassumption.
  - intros [msg|msg|c] He.
    + apply lbfgsInner_throw in He.
      destruct He as [[m He]|[c He]]; discriminate.
    + eapply lbfgsInner_type_error. exact He.
    + destruct ss as [|s0 ss']; [|left; discriminate].
      destruct ys as [|y0 ys']; [|right; discriminate].
      discriminate.
  - intros -> ->. reflexivity.
Qed.

(** X2: whenever [lbfgs] returns, the memory it returns holds as many
    [s] as [y] vectors, at most [memSize] of them and at most one more than
    before; [memSize] is unchanged and the current state and gradient are
    the last ones. Either the memory was started anew (no vectors, counter
    1, and the direction is the raw gradient), or it holds at least one
    pair and the counter went up by one; so a counter that is not negative
    becomes positive. *)
Theorem lbfgs_memory_invariant xs gradfxs (info : LbfgsParams) pre info' :
  lbfgs xs gradfxs info = Ok (pre, info') ->
  List.length (s_list info') = List.length (y_list info')
  /\ Z.of_nat (List.length (s_list info')) <= Z.max 0 (memSize info)
  /\ (List.length (s_list info') <= S (List.length (s_list info)))%nat
  /\ memSize info' = memSize info
  /\ lastState info' = Some (colVec xs)
  /\ lastGrad info' = Some (colVec gradfxs)
  /\ ((s_list info' = [] /\ numUnconstrSteps info' = 1 /\ pre = gradfxs)
      \/ ((0 < List.length (s_list info'))%nat
          /\ numUnconstrSteps info' = numUnconstrSteps info + 1))
  /\ (0 <= numUnconstrSteps info -> 0 < numUnconstrSteps info').
Proof.
  unfold lbfgs. destruct (numUnconstrSteps info =? 0).
  - intros H; injection H as <- <-. simpl.
    repeat split; try lia. left. repeat split.
  - destruct (lastState info) as [x|]; [|discriminate].
    destruct (lastGrad info) as [g|]; [|discriminate].
    destruct (call "matSub" (matSub (colVec xs) x)) as [s|e]; simpl;
      [|discriminate].
    destruct (call "matSub" (matSub (colVec gradfxs) g)) as [y|e]; simpl;
      [|discriminate].
    destruct (lbfgsInner _ _ _) as [r|e] eqn:Hi; simpl; [|discriminate].
    destruct (dotVec r (colVec gradfxs)) as [slope|e]; simpl;
      [|discriminate].
    destruct (JS.gt _ _); intros H; injection H as <- <-; simpl.
    + repeat split; try lia. left. repeat split.
    + simpl app in *.
      set (ss := take (s :: s_list info) (memSize info)) in *.
      set (ys := take (y :: y_list info) (memSize info)) in *.
      assert (Hs : List.length ss
                   = Nat.min (Z.to_nat (memSize info))
                             (S (List.length (s_list info))))
        by (unfold ss; rewrite take_length; reflexivity).
      destruct (lbfgsInner_ok_lengths _ _ _ Hi) as (Hl & Hp).
      split; [exact Hl|]. split; [lia|]. split; [lia|].
      split; [reflexivity|]. split; [reflexivity|].
      split; [reflexivity|].
      split; [right; split; [lia|reflexivity]|lia].
Qed.

(** On a usable memory of columns of the height of the variables, with
    as many gradient entries as variables, the estimator returns; the
    memory it returns is of that kind again, and the direction has one
    entry for each variable. *)
Lemma lbfgs_usable_at column xs gradfxs (info : LbfgsParams) :
  column_laws column -> column_algebra column ->
  usable_at column (List.length xs) info ->
  List.length gradfxs = List.length xs ->
  exists pre info',
    lbfgs xs gradfxs info = Ok (pre, info')
    /\ usable_at column (List.length xs) info'
    /\ List.length pre = List.length xs.
Proof.
  intros laws algebra ((Hl & Hm & Hlast) & Hs & Hy & Hx & Hg) Hlen.
  assert (Cx : column (List.length xs) (colVec xs))
    by (apply colVec_column; exact laws).
  assert (Cg : column (List.length xs) (colVec gradfxs))
    by (rewrite <- Hlen; apply colVec_column; exact laws).
  unfold lbfgs.
  destruct (numUnconstrSteps info =? 0) eqn:Hc.
  - do 2 eexists. split; [reflexivity|]. split; [|exact Hlen].
    split; [|simpl; repeat split; try constructor;
             intros m Hm'; injection Hm' as <-; assumption].
    split; [reflexivity|]. split; [exact Hm|]. right. simpl. eauto.
  - apply Z.eqb_neq in Hc.
    destruct Hlast as [Hz|(x & g & Ex & Eg)]; [contradiction|].
    rewrite Ex, Eg.
    pose proof algebra as (_ & A2 & _).
    destruct (A2 _ (colVec xs) x Cx (Hx x Ex)) as (s & -> & Cs).
    destruct (A2 _ (colVec gradfxs) g Cg (Hg g Eg)) as (y & -> & Cy).
    simpl.
    set (ss := take (s :: s_list info) (memSize info)).
    set (ys := take (y :: y_list info) (memSize info)).
    assert (Hss : List.length ss = List.length ys)
      by (unfold ss, ys; rewrite !take_length; simpl; lia).
    assert (Fs : Forall (column (List.length xs)) ss)
      by (apply Forall_take; constructor; assumption).
    assert (Fy : Forall (column (List.length xs)) ys)
      by (apply Forall_take; constructor; assumption).
    destruct (@lbfgsInner_returns column algebra (List.length xs)
                (colVec gradfxs) ss ys Cg Fs Fy Hss) as (r & -> & Cr);
      [unfold ss; rewrite take_length; simpl; lia|].
    simpl.
    destruct (@dotVec_returns column algebra _ _ _ Cr Cg) as (slope & ->).
    simpl.
    destruct (JS.gt _ _); do 2 eexists; (split; [reflexivity|]).
    + split; [|exact Hlen].
      split; [|simpl; repeat split; try constructor;
               intros m Hm'; injection Hm' as <-; assumption].
      split; [reflexivity|]. split; [exact Hm|]. right. simpl. eauto.
    + split; [|apply (@vecList_length _ column laws _ _ Cr)].
      split; [|simpl; repeat split; try assumption;
               intros m Hm'; injection Hm' as <-; assumption].
      split; [exact Hss|]. split; [exact Hm|]. right. simpl. eauto.
Qed.

(** The outcomes of [lbfgs] and when they arise. *)
Lemma lbfgs_cases xs gradfxs (info : LbfgsParams) :
  let n := Z.to_nat (memSize info) in
  let kept_s := Nat.min n (S (List.length (s_list info))) in
  let kept_y := Nat.min n (S (List.length (y_list info))) in
  match lbfgs xs gradfxs info with
  | Ok _ =>
      numUnconstrSteps info = 0
      \/ ((exists x g, lastState info = Some x /\ lastGrad info = Some g)
          /\ 1 <= memSize info /\ kept_s = kept_y)
  | Throw (Error_ msg) =>
      msg = "Invalid L-BFGS state"%string
      /\ numUnconstrSteps info <> 0
      /\ (lastState info = None \/ lastGrad info = None)
  | Throw (TypeError _) =>
      numUnconstrSteps info <> 0
      /\ (exists x g, lastState info = Some x /\ lastGrad info = Some g)
      /\ (memSize info <= 0 \/ kept_s <> kept_y)
  | Throw (Raised _) =>
      numUnconstrSteps info <> 0
      /\ (exists x g, lastState info = Some x /\ lastGrad info = Some g)
  end.
Proof.
  intros n kept_s kept_y.
  unfold lbfgs.
  destruct (numUnconstrSteps info =? 0) eqn:Hc.
  + left. apply Z.eqb_eq. exact Hc.
  + apply Z.eqb_neq in Hc.
    destruct (lastState info) as [x|];
      [|split; [reflexivity|]; split; [exact Hc|left; reflexivity]].
    destruct (lastGrad info) as [g|];
      [|split; [reflexivity|]; split; [exact Hc|right; reflexivity]].
    assert (Hpresent : exists x0 g0, Some x = Some x0 /\ Some g = Some g0)
      by eauto.
    destruct (call "matSub" (matSub (colVec xs) x)) as [s|e] eqn:H1;
      simpl; [clear H1|apply call_throw in H1; subst e; auto].
    destruct (call "matSub" (matSub (colVec gradfxs) g)) as [y|e] eqn:H2;
      simpl; [clear H2|apply call_throw in H2; subst e; auto].
    set (ss := take (s :: s_list info) (memSize info)).
    set (ys := take (y :: y_list info) (memSize info)).
    assert (Hs : List.length ss = kept_s)
      by (unfold ss; rewrite take_length; reflexivity).
    assert (Hy : List.length ys = kept_y)
      by (unfold ys; rewrite take_length; reflexivity).
    destruct (lbfgsInner (colVec gradfxs) ss ys) as [r|e] eqn:Hi; simpl.
    * destruct (lbfgsInner_ok_lengths _ _ _ Hi) as (Hl & Hp).
      assert (Hr : (exists x0 g0, Some x = Some x0 /\ Some g = Some g0)
                   /\ 1 <= memSize info /\ kept_s = kept_y).
      { split; [exact Hpresent|].
        split; [unfold kept_s, n in Hs; lia|congruence]. }
      destruct (dotVec r (colVec gradfxs)) as [slope|e] eqn:Hd; simpl.
      -- destruct (JS.gt _ _); right; exact Hr.
      -- apply dotVec_throw in Hd. destruct Hd as [c ->]. auto.
    * pose proof (lbfgsInner_throw _ _ _ Hi) as Hf.
      destruct e as [msg|msg|c].
      -- destruct Hf as [[m Hf]|[c Hf]]; discriminate.
      -- split; [exact Hc|]. split; [exact Hpresent|].
         apply lbfgsInner_type_error in Hi.
         destruct Hi as [Hi|(Hi & _)].
         ++ right. lia.
         ++ left. rewrite Hi in Hs. unfold kept_s, n in Hs. simpl in Hs.
            lia.
      -- auto.
Qed.

(** On a usable memory the only exceptions of [lbfgs] are those of the
    matrix operations. *)
Lemma lbfgs_usable_throw xs gradfxs (info : LbfgsParams) e :
  usable info ->
  lbfgs xs gradfxs info = Throw e -> exists c, e = Raised c.
Proof.
  intros (Hl & Hm & Hlast) He.
  pose proof (lbfgs_cases xs gradfxs info) as Hc. cbv zeta in Hc.
  rewrite He in Hc. destruct e as [msg|msg|c]; [| |eauto].
  - destruct Hc as (_ & Hn & Hmissing).
    destruct Hlast as [Hz|(x & g & Ex & Eg)]; [contradiction|].
    destruct Hmissing; congruence.
  - destruct Hc as (_ & _ & [Hle|Hlt]); lia.
Qed.

(** X3: the outcomes of [lbfgs]. When it returns, it was a first call
    (counter 0), or the last state and gradient were present, [memSize]
    at least 1 and as many [s] as [y] vectors kept. It raises "Invalid
    L-BFGS state" exactly on a later call with the last state or gradient
    missing. A [TypeError] is raised only on a later call with both present
    and [memSize] below 1 or not as many [s] as [y] vectors kept, and any
    other exception, that of a matrix operation, only on a later call with
    both present. A first call always returns, with the raw gradient; and
    on a usable memory of columns of the height of the variables (on which
    the matrix operations are defined) every call returns. *)
Theorem lbfgs_outcome xs gradfxs (info : LbfgsParams) :
  let n := Z.to_nat (memSize info) in
  let kept_s := Nat.min n (S (List.length (s_list info))) in
  let kept_y := Nat.min n (S (List.length (y_list info))) in
  match lbfgs xs gradfxs info with
  | Ok _ =>
      numUnconstrSteps info = 0
      \/ ((exists x g, lastState info = Some x /\ lastGrad info = Some g)
          /\ 1 <= memSize info /\ kept_s = kept_y)
  | Throw (Error_ msg) =>
      msg = "Invalid L-BFGS state"%string
      /\ numUnconstrSteps info <> 0
      /\ (lastState info = None \/ lastGrad info = None)
  | Throw (TypeError _) =>
      numUnconstrSteps info <> 0
      /\ (exists x g, lastState info = Some x /\ lastGrad info = Some g)
      /\ (memSize info <= 0 \/ kept_s <> kept_y)
  | Throw (Raised _) =>
      numUnconstrSteps info <> 0
      /\ (exists x g, lastState info = Some x /\ lastGrad info = Some g)
  end
  /\ (numUnconstrSteps info = 0 ->
      exists info', lbfgs xs gradfxs info = Ok (gradfxs, info'))
  /\ (numUnconstrSteps info <> 0 ->
      lastState info = None \/ lastGrad info = None ->
      lbfgs xs gradfxs info = Throw (Error_ "Invalid L-BFGS state"))
  /\ (forall column,
        column_laws column -> column_algebra column ->
        usable_at column (List.length xs) info ->
        List.length gradfxs = List.length xs ->
        exists pre info',
          lbfgs xs gradfxs info = Ok (pre, info')
          /\ usable_at column (List.length xs) info'
          /\ List.length pre = List.length xs).
Proof.
  intros n kept_s kept_y. split; [|split; [|split]].
  - apply lbfgs_cases.
  - intros Hc. unfold lbfgs. rewrite Hc. simpl. eauto.
  - intros Hc Hmissing. unfold lbfgs.
    apply Z.eqb_neq in Hc. rewrite Hc.
    destruct Hmissing as [-> | ->]; [reflexivity|].
    destruct (lastState info); reflexivity.
  - intros column laws algebra Hu Hlen. apply lbfgs_usable_at; assumption.
Qed.

(** A usable memory stays usable. *)
Lemma lbfgs_usable xs gradfxs (info : LbfgsParams) pre info' :
  usable info ->
  lbfgs xs gradfxs info = Ok (pre, info') ->
  usable info'.
Proof.
  intros (Hl & Hm & Hlast) Hr.
  destruct (lbfgs_memory_invariant _ _ _ Hr)
    as (H1 & _ & _ & H4 & H5 & H6 & _).
  split; [exact H1|]. split; [rewrite H4; exact Hm|]. right. eauto.
Qed.

(** A memory without room serves one call: a later call does not return,
    and the exception is a [TypeError] unless a matrix operation raised
    one. *)
Lemma lbfgs_no_room xs gradfxs (info : LbfgsParams) :
  memSize info <= 0 ->
  numUnconstrSteps info <> 0 ->
  exists e,
    lbfgs xs gradfxs info = Throw e
    /\ (forall x g s y,
          lastState info = Some x -> lastGrad info = Some g ->
          matSub (colVec xs) x = Some s ->
          matSub (colVec gradfxs) g = Some y ->
          e = TypeError "undefined operand").
Proof.
  intros Hm Hc. unfold lbfgs. apply Z.eqb_neq in Hc. rewrite Hc.
  destruct (lastState info) as [x|];
    [|eexists; split; [reflexivity|intros; congruence]].
  destruct (lastGrad info) as [g|];
    [|eexists; split; [reflexivity|intros; congruence]].
  destruct (matSub (colVec xs) x) as [s|] eqn:Es; simpl;
    [|eexists; split; [reflexivity|intros; congruence]].
  destruct (matSub (colVec gradfxs) g) as [y|] eqn:Ey; simpl;
    [|eexists; split; [reflexivity|intros; congruence]].
  unfold take. replace (Z.to_nat (memSize info)) with 0%nat by lia. simpl.
  eexists. split; [reflexivity|]. reflexivity.
Qed.

End LbfgsMemory.
(** ** The minimiser: how a call ends *)

Section MinimizeOutcome.

Context {U : OtherUtils} {E : Eigen}.

Variable f : list number -> number.
Variable gradf : list number -> list number.

Lemma mapi_from_length {A B : Type} (g : A -> nat -> B) l : forall j,
  List.length (mapi_from j g l) = List.length l.
Proof.
  induction l as [|a l IH]; intros j; simpl; [|rewrite IH]; reflexivity.
Qed.

(** What a pass through the body of the loop does when it returns: the
    estimator and the product of the gradient with its direction have
    returned; the pass breaks, with the variables as they were, when the
    convergence test passes or, the line search having returned, the
    energy or the gradient norm is NaN; and otherwise it moves the
    variables along the direction of [lbfgs] by the step length of the
    line search. *)
Lemma minimize_body_cases (v : min_vars) fl :
  let x := m_xs v in
  minimize_body f gradf v = Ok fl ->
  exists pre info' metric,
    lbfgs x (gradf x) (m_newLbfgsInfo v) = Ok (pre, info')
    /\ dot (gradf x) pre = Some metric
    /\ match fl with
       | Break v' =>
           (unconstrainedConverged2 metric = true
            /\ v' = mkMin x (f x) (gradf x) pre metric
                          (m_i v) (m_t v) (m_failed v) info')
           \/ (unconstrainedConverged2 metric = false
               /\ nan_at f gradf x = true
               /\ exists t,
                   awLineSearch2 x f gradf pre (f x) 10 = Ok t
                   /\ v' = mkMin x (f x) (gradf x) pre metric
                                 (m_i v) t true info')
       | Next v' =>
           unconstrainedConverged2 metric = false
           /\ nan_at f gradf x = false
           /\ exists t,
               awLineSearch2 x f gradf pre (f x) 10 = Ok t
               /\ v' = mkMin (descend t pre x) (f x) (gradf x) pre metric
                             (m_i v + 1) t (m_failed v) info'
       end.
Proof.
  destruct v as [xs fxs g gp ng i t fl0 info]. cbv zeta. simpl m_xs.
  simpl m_newLbfgsInfo. simpl m_i. simpl m_t. simpl m_failed.
  unfold minimize_body. rewrite !containsNaN_false.
  destruct (lbfgs xs (gradf xs) info) as [[pre info']|e]; cbn [JS.bind];
    [|discriminate].
  destruct (dot (gradf xs) pre) as [metric|] eqn:Hd; cbn [call JS.bind];
    [|discriminate].
  destruct (unconstrainedConverged2 metric) eqn:Hc;
    cbn [andb BREAK_EARLY USE_LINE_SEARCH].
  - intros H; injection H as <-. exists pre, info', metric.
    split; [reflexivity|]. split; [exact Hd|]. left.
    split; [exact Hc|reflexivity].
  - destruct (awLineSearch2 xs f gradf pre (f xs) 10) as [t'|e] eqn:Hs;
      cbn [JS.bind]; [|discriminate].
    unfold nan_at. simpl Number_isNaN.
    destruct (PrimFloat.is_nan (f xs)
              || PrimFloat.is_nan (normList (gradf xs))) eqn:Hn;
      intros H; injection H as <-; exists pre, info', metric;
      (split; [reflexivity|]); (split; [exact Hd|]).
    + right. split; [exact Hc|]. split; [reflexivity|]. eauto.
    + split; [exact Hc|]. split; [reflexivity|]. eauto.
Qed.

(** Invariants of the loop: [P] holds at the start of every pass, [Q] of
    the variables with which the loop ends. *)
Lemma minimize_loop_inv (P Q : min_vars -> Prop) numSteps :
  (forall v v', P v -> m_i v < numSteps ->
                minimize_body f gradf v = Ok (Next v') -> P v') ->
  (forall v v', P v -> m_i v < numSteps ->
                minimize_body f gradf v = Ok (Break v') -> Q v') ->
  (forall v, P v -> numSteps <= m_i v -> Q v) ->
  forall fuel v v',
    numSteps - m_i v <= Z.of_nat fuel -> P v ->
    minimize_loop f gradf numSteps fuel v = Ok v' -> Q v'.
Proof.
  intros HN HB HG. induction fuel as [|fuel IH]; intros v v' Hf HP; simpl.
  - intros H; injection H as <-. apply HG; [exact HP|lia].
  - destruct (m_i v <? numSteps) eqn:Hi.
    + apply Z.ltb_lt in Hi.
      destruct (minimize_body f gradf v) as [[v1|v1]|e] eqn:Hb; simpl;
        [| |discriminate].
      * apply IH; [|eapply HN; eauto].
        apply minimize_body_next in Hb. lia.
      * intros H; injection H as <-. eapply HB; eauto.
    + apply Z.ltb_ge in Hi. intros H; injection H as <-. apply HG; assumption.
Qed.

(** How [minimize] leaves its variables when the budget is positive: [x]
    is the point at which the energy and the gradient were evaluated
    last. *)
Lemma minimize_outcome xs0 (info : LbfgsParams) paths numSteps res :
  0 < numSteps ->
  minimize xs0 f gradf info paths numSteps = Ok res ->
  exists x,
    List.length x = List.length xs0
    /\ energyVal res = f x
    /\ gradient_ res = gradf x
    /\ dot (gradf x) (gradientPreconditioned res) = Some (normGrad res)
    /\ ((unconstrainedConverged2 (normGrad res) = true
         /\ failed res = false /\ xs res = x)
        \/ (unconstrainedConverged2 (normGrad res) = false
            /\ failed res = true /\ xs res = x /\ nan_at f gradf x = true)
        \/ (unconstrainedConverged2 (normGrad res) = false
            /\ failed res = false /\ nan_at f gradf x = false
            /\ exists t,
                awLineSearch2 x f gradf (gradientPreconditioned res)
                              (f x) 10 = Ok t
                /\ xs res = descend t (gradientPreconditioned res) x)).
Proof.
  intros Hpos. unfold minimize.
  destruct (minimize_loop _ _ _ _ _) as [v'|e] eqn:Hl; simpl; [|discriminate].
  intros H; injection H as <-. simpl.
  set (n := List.length xs0) in *.
  set (Q := fun v : min_vars =>
    exists x,
      List.length x = n
      /\ m_fxs v = f x
      /\ m_gradfxs v = gradf x
      /\ dot (gradf x) (m_gradientPreconditioned v) = Some (m_normGradfxs v)
      /\ ((unconstrainedConverged2 (m_normGradfxs v) = true
           /\ m_failed v = false /\ m_xs v = x)
          \/ (unconstrainedConverged2 (m_normGradfxs v) = false
              /\ m_failed v = true /\ m_xs v = x
              /\ nan_at f gradf x = true)
          \/ (unconstrainedConverged2 (m_normGradfxs v) = false
              /\ m_failed v = false /\ nan_at f gradf x = false
              /\ exists t,
                  awLineSearch2 x f gradf (m_gradientPreconditioned v)
                                (f x) 10 = Ok t
                  /\ m_xs v = descend t (m_gradientPreconditioned v) x))).
  set (P := fun v : min_vars =>
    m_failed v = false /\ List.length (m_xs v) = n /\ 0 <= m_i v
    /\ (0 < m_i v -> Q v)).
  change (Q v').
  refine (@minimize_loop_inv P Q numSteps _ _ _ _ _ _ _ _ Hl).
  - intros v v1 HP _ Hb. unfold P in HP. destruct HP as (Hf & Hn & Hi & _).
    destruct (minimize_body_cases v Hb)
      as (pre & info' & metric & _ & Hd & Hc & Hnan & t & Ht & ->).
    unfold P, Q. simpl.
    split; [exact Hf|].
    split; [unfold descend; rewrite mapi_from_length; exact Hn|].
    split; [lia|]. intros _.
    exists (m_xs v). split; [exact Hn|].
    split; [reflexivity|]. split; [reflexivity|]. split; [exact Hd|].
    right. right. split; [exact Hc|]. split; [exact Hf|].
    split; [exact Hnan|]. exists t. split; [exact Ht|reflexivity].
  - intros v v1 HP _ Hb. unfold P in HP. destruct HP as (Hf & Hn & Hi & _).
    destruct (minimize_body_cases v Hb)
      as (pre & info' & metric & _ & Hd
          & [(Hc & ->)|(Hc & Hnan & t & Ht & ->)]);
      unfold Q; exists (m_xs v); simpl; (split; [exact Hn|]);
      (split; [reflexivity|]); (split; [reflexivity|]);
      (split; [exact Hd|]).
    + left. auto.
    + right. left. auto.
  - intros v HP Hge. unfold P in HP. destruct HP as (Hf & Hn & Hi & HQ).
    apply HQ. lia.
  - simpl. lia.
  - unfold P. simpl. repeat split; try reflexivity; lia.
Qed.

(** [minimize] returns as many variables as it was given. *)
Lemma minimize_xs_length xs0 (info : LbfgsParams) paths numSteps res :
  minimize xs0 f gradf info paths numSteps = Ok res ->
  List.length (xs res) = List.length xs0.
Proof.
  unfold minimize.
  destruct (minimize_loop _ _ _ _ _) as [v'|e] eqn:Hl; simpl; [|discriminate].
  intros H; injection H as <-. simpl.
  set (P := fun v : min_vars => List.length (m_xs v) = List.length xs0).
  change (P v').
  refine (@minimize_loop_inv P P numSteps _ _ _ _ _ _ _ _ Hl).
  - intros v v1 Hn _ Hb.
    destruct (minimize_body_cases v Hb)
      as (pre & info' & metric & _ & _ & _ & _ & t & _ & ->).
    unfold P, descend. simpl.
    rewrite mapi_from_length. exact Hn.
  - intros v v1 Hn _ Hb.
    destruct (minimize_body_cases v Hb)
      as (pre & info' & metric & _ & _
          & [(_ & ->)|(_ & _ & t & _ & ->)]); exact Hn.
  - trivial.
  - simpl. lia.
  - reflexivity.
Qed.

(** X5: [minimize] reports a failure only for a NaN: when [failed] is
    set, the energy or the Euclidean norm of the gradient it returns is
    NaN, both are those at the variables it returns, and the convergence
    test did not pass. *)
Theorem minimize_failed_nan xs0 (info : LbfgsParams) paths numSteps res :
  minimize xs0 f gradf info paths numSteps = Ok res ->
  failed res = true ->
  (PrimFloat.is_nan (energyVal res) = true
   \/ PrimFloat.is_nan (normList (gradient_ res)) = true)
  /\ energyVal res = f (xs res)
  /\ gradient_ res = gradf (xs res)
  /\ unconstrainedConverged2 (normGrad res) = false.
Proof.
  intros Hm Hf. destruct (Z_lt_le_dec 0 numSteps) as [Hpos|Hle].
  - destruct (minimize_outcome _ _ _ Hpos Hm)
      as (x & _ & He & Hg & _
          & [(_ & Hf' & _)|[(Hc & _ & Hx & Hn)|(_ & Hf' & _)]]);
      try congruence.
    rewrite Hx, He, Hg. unfold nan_at in Hn. apply orb_true_iff in Hn.
    auto.
  - unfold minimize in Hm.
    replace (Z.to_nat numSteps) with 0%nat in Hm by lia. simpl in Hm.
    injection Hm as <-. discriminate.
Qed.

(** X6: when [minimize], with a positive budget, returns a metric below
    [uoStop], it did not fail, and the energy, the gradient and the metric
    it returns are those at the variables it returns: the energy and the
    gradient there, and the product of the gradient with the direction of
    [lbfgs]. *)
Theorem minimize_converged_consistent xs0 (info : LbfgsParams) paths
  numSteps res :
  0 < numSteps ->
  minimize xs0 f gradf info paths numSteps = Ok res ->
  unconstrainedConverged2 (normGrad res) = true ->
  failed res = false
  /\ energyVal res = f (xs res)
  /\ gradient_ res = gradf (xs res)
  /\ dot (gradient_ res) (gradientPreconditioned res) = Some (normGrad res).
Proof.
  intros Hpos Hm Hc.
  destruct (minimize_outcome _ _ _ Hpos Hm)
    as (x & _ & He & Hg & Hn & [(_ & Hf & Hx)|[(Hc' & _)|(Hc' & _)]]);
    try congruence.
  rewrite Hx, Hg. auto.
Qed.

(** X7: when [minimize], with a positive budget, returns without
    convergence and without failure, the budget ran out, and the energy,
    the gradient and the metric it returns are those of the point [x]
    before the last update, not of the variables it returns: these are
    [x] moved along the direction by the step length of the line
    search. *)
Theorem minimize_running_lags xs0 (info : LbfgsParams) paths numSteps res :
  0 < numSteps ->
  minimize xs0 f gradf info paths numSteps = Ok res ->
  unconstrainedConverged2 (normGrad res) = false ->
  failed res = false ->
  exists x t,
    energyVal res = f x
    /\ gradient_ res = gradf x
    /\ dot (gradf x) (gradientPreconditioned res) = Some (normGrad res)
    /\ awLineSearch2 x f gradf (gradientPreconditioned res) (f x) 10 = Ok t
    /\ xs res = descend t (gradientPreconditioned res) x.
Proof.
  intros Hpos Hm Hc Hf.
  destruct (minimize_outcome _ _ _ Hpos Hm)
    as (x & _ & He & Hg & Hn
        & [(Hc' & _)|[(_ & Hf' & _)|(_ & _ & _ & t & Ht & Hx)]]);
    try congruence.
  exists x, t. auto.
Qed.

(** With a usable memory the only exceptions of a pass are those of the
    imported helpers, and the memory stays usable. *)
Lemma minimize_body_usable (v : min_vars) :
  usable (m_newLbfgsInfo v) ->
  match minimize_body f gradf v with
  | Ok fl =>
      usable (m_newLbfgsInfo
                (match fl with Next v' => v' | Break v' => v' end))
  | Throw e => exists c, e = Raised c
  end.
Proof.
  intros Hu.
  destruct (minimize_body f gradf v) as [fl|e] eqn:Hb.
  - destruct (minimize_body_cases v Hb)
      as (pre & info' & metric & Hl & _ & Hfl).
    pose proof (lbfgs_usable _ _ Hu Hl) as Hu'.
    destruct fl as [v'|v'].
    + destruct Hfl as (_ & _ & t & _ & ->). exact Hu'.
    + destruct Hfl as [(_ & ->)|(_ & _ & t & _ & ->)]; exact Hu'.
  - revert Hb. destruct v as [xs fxs g gp ng i t fl0 info].
    simpl in Hu. unfold minimize_body. rewrite !containsNaN_false.
    destruct (lbfgs xs (gradf xs) info) as [[pre info']|e'] eqn:Hl;
      cbn [JS.bind].
    + destruct (call "dot" _) as [m|e1] eqn:Hd; cbn [JS.bind].
      * destruct (unconstrainedConverged2 m);
          cbn [andb BREAK_EARLY USE_LINE_SEARCH]; [discriminate|].
        destruct (awLineSearch2 _ _ _ _ _ _) as [t'|e2] eqn:Hs;
          cbn [JS.bind].
        -- destruct (_ || _); discriminate.
        -- intros H; injection H as <-. eapply awLineSearch2_throw.
           exact Hs.
      * intros H; injection H as <-. apply call_throw in Hd. eauto.
    + intros H; injection H as <-. eapply lbfgs_usable_throw; eauto.
Qed.

Lemma minimize_loop_usable numSteps fuel : forall v : min_vars,
  usable (m_newLbfgsInfo v) ->
  match minimize_loop f gradf numSteps fuel v with
  | Ok v' => usable (m_newLbfgsInfo v')
  | Throw e => exists c, e = Raised c
  end.
Proof.
  induction fuel as [|fuel IH]; intros v Hu; simpl; [exact Hu|].
  destruct (m_i v <? numSteps); [|exact Hu].
  pose proof (minimize_body_usable v Hu) as Hb.
  destruct (minimize_body f gradf v) as [[v'|v']|e]; simpl;
    [apply IH; exact Hb|exact Hb|exact Hb].
Qed.

Section Dimensions.

Variable column : nat -> Matrix -> Prop.
Hypothesis laws : column_laws column.
Hypothesis algebra : column_algebra column.
Hypothesis vectors : vector_laws.

Variable n : nat.
Hypothesis Hgrad : gradient_on n gradf.

(** On [n] variables, with helpers that are defined on vectors of one
    length and a memory of columns of height [n], a pass returns, and it
    leaves [n] variables and such a memory. *)
Lemma minimize_body_returns (v : min_vars) :
  usable_at column n (m_newLbfgsInfo v) ->
  List.length (m_xs v) = n ->
  exists fl,
    minimize_body f gradf v = Ok fl
    /\ let v' := match fl with Next v' => v' | Break v' => v' end in
       usable_at column n (m_newLbfgsInfo v')
       /\ List.length (m_xs v') = n.
Proof.
  destruct v as [xs fxs g gp ng i t fl0 info]. simpl. intros Hu Hn.
  subst n.
  destruct (@lbfgs_usable_at _ column xs (gradf xs) info laws algebra Hu)
    as (pre & info' & Hl & Hu' & Hpre); [apply Hgrad; reflexivity|].
  unfold minimize_body. rewrite !containsNaN_false. rewrite Hl.
  cbn [JS.bind].
  pose proof vectors as (_ & _ & Ldot & _).
  destruct (Ldot (gradf xs) pre) as (metric & ->);
    [rewrite Hpre; apply Hgrad; reflexivity|].
  cbn [call JS.bind].
  destruct (unconstrainedConverged2 metric);
    cbn [andb BREAK_EARLY USE_LINE_SEARCH].
  - eexists. split; [reflexivity|]. simpl. auto.
  - destruct (@awLineSearch2_returns _ xs f gradf pre (f xs) 10 vectors Hpre
                Hgrad) as (t' & ->).
    cbn [JS.bind]. destruct (_ || _).
    + eexists. split; [reflexivity|]. simpl. auto.
    + eexists. split; [reflexivity|]. simpl. split; [exact Hu'|].
      apply mapi_from_length.
Qed.

Lemma minimize_loop_returns numSteps fuel : forall v : min_vars,
  usable_at column n (m_newLbfgsInfo v) ->
  List.length (m_xs v) = n ->
  exists v',
    minimize_loop f gradf numSteps fuel v = Ok v'
    /\ usable_at column n (m_newLbfgsInfo v')
    /\ List.length (m_xs v') = n.
Proof.
  induction fuel as [|fuel IH]; intros v Hu Hn; simpl; [eauto|].
  destruct (m_i v <? numSteps); [|eauto].
  destruct (minimize_body_returns v Hu Hn) as (fl & -> & Hu' & Hn').
  simpl. destruct fl as [v'|v']; [apply IH; assumption|eauto].
Qed.

End Dimensions.

(** With a usable memory [minimize] raises only what an imported helper
    raises, and the memory it returns is usable. *)
Lemma minimize_usable_cases xs0 (info : LbfgsParams) paths numSteps :
  usable info ->
  match minimize xs0 f gradf info paths numSteps with
  | Ok res => usable (newLbfgsInfo res)
  | Throw e => exists c, e = Raised c
  end.
Proof.
  intros Hu. unfold minimize.
  pose proof (@minimize_loop_usable numSteps (Z.to_nat numSteps)
                (mkMin xs0 0%float (repeat (List.length xs0) 0%float)
                       (repeat (List.length xs0) 0%float) 0%float 0
                       0.0001%float false info) Hu) as Hl.
  destruct (minimize_loop _ _ _ _ _) as [v'|e]; simpl; exact Hl.
Qed.

(** With helpers that are defined on vectors of one length, a gradient
    with one entry for each variable and a memory of columns of that
    height, [minimize] returns. *)
Lemma minimize_returns column xs0 (info : LbfgsParams) paths numSteps :
  column_laws column -> column_algebra column -> vector_laws ->
  gradient_on (List.length xs0) gradf ->
  usable_at column (List.length xs0) info ->
  exists res,
    minimize xs0 f gradf info paths numSteps = Ok res
    /\ usable_at column (List.length xs0) (newLbfgsInfo res)
    /\ List.length (xs res) = List.length xs0.
Proof.
  intros laws algebra vectors Hgrad Hat. unfold minimize.
  destruct (@minimize_loop_returns column laws algebra vectors
              (List.length xs0) Hgrad numSteps (Z.to_nat numSteps)
              (mkMin xs0 0%float (repeat (List.length xs0) 0%float)
                     (repeat (List.length xs0) 0%float) 0%float 0
                     0.0001%float false info) Hat eq_refl)
    as (v' & -> & Hu' & Hn').
  simpl. eexists. split; [reflexivity|]. simpl. auto.
Qed.

(** X8: started with a usable L-BFGS memory (as many [s] as [y]
    vectors, room for at least one pair, and the last state and gradient
    present once a step has been counted), [minimize] raises no exception
    of its own, whatever the energy, the gradient, the variables and the
    budget: if it raises one, an imported vector or matrix helper raised
    it, and if it returns, the memory it returns is usable again. It does
    return when the helpers are defined on vectors of one length, the
    gradient has one entry for each variable and the vectors of the memory
    are columns of that height; the memory it returns is of that kind
    again. *)
Theorem minimize_usable_total xs0 (info : LbfgsParams) paths numSteps :
  usable info ->
  match minimize xs0 f gradf info paths numSteps with
  | Ok res => usable (newLbfgsInfo res)
  | Throw e => exists c, e = Raised c
  end
  /\ forall column,
      column_laws column -> column_algebra column -> vector_laws ->
      gradient_on (List.length xs0) gradf ->
      usable_at column (List.length xs0) info ->
      exists res,
        minimize xs0 f gradf info paths numSteps = Ok res
        /\ usable_at column (List.length xs0) (newLbfgsInfo res)
        /\ List.length (xs res) = List.length xs0.
Proof.
  intros Hu. split.
  - apply minimize_usable_cases. exact Hu.
  - intros column laws algebra vectors Hgrad Hat.
    apply minimize_returns; assumption.
Qed.

(** X9: with an L-BFGS memory without room ([memSize] of 0 or less)
    [minimize] does not fall back to gradient descent: started on a fresh
    memory with a budget of 2 or more, at a point where the convergence
    test fails and neither the energy nor the gradient norm is NaN, it
    does not return; where the imported helpers return, it raises a
    [TypeError] in its second pass. *)
Theorem minimize_no_memory xs0 (info : LbfgsParams) paths numSteps :
  memSize info <= 0 ->
  numUnconstrSteps info = 0 ->
  2 <= numSteps ->
  (forall metric, dot (gradf xs0) (gradf xs0) = Some metric ->
                  unconstrainedConverged2 metric = false) ->
  nan_at f gradf xs0 = false ->
  exists e,
    minimize xs0 f gradf info paths numSteps = Throw e
    /\ forall metric t s y,
        let xs1 := descend t (gradf xs0) xs0 in
        dot (gradf xs0) (gradf xs0) = Some metric ->
        awLineSearch2 xs0 f gradf (gradf xs0) (f xs0) 10 = Ok t ->
        matSub (colVec xs1) (colVec xs0) = Some s ->
        matSub (colVec (gradf xs1)) (colVec (gradf xs0)) = Some y ->
        e = TypeError "undefined operand".
Proof.
  intros Hm Hc Hn Hu Hnan. unfold minimize.
  destruct (Z.to_nat numSteps) as [|[|fuel]] eqn:Hfuel; [lia|lia|].
  set (v0 := mkMin xs0 0%float (repeat (List.length xs0) 0%float)
                   (repeat (List.length xs0) 0%float) 0%float 0
                   0.0001%float false info).
  unfold minimize_loop; fold (minimize_loop f gradf numSteps).
  replace (m_i v0 <? numSteps) with true
    by (symmetry; apply Z.ltb_lt; simpl; lia).
  destruct (minimize_body f gradf v0) as [fl|e] eqn:Hbody; cbn [JS.bind].
  - destruct (minimize_body_cases v0 Hbody)
      as (pre & info1 & metric & Hl & Hd & Hfl).
    simpl m_xs in *. simpl m_newLbfgsInfo in *.
    assert (Hfirst : pre = gradf xs0
                     /\ numUnconstrSteps info1 = 1
                     /\ memSize info1 = memSize info
                     /\ lastState info1 = Some (colVec xs0)
                     /\ lastGrad info1 = Some (colVec (gradf xs0))).
    { revert Hl. unfold lbfgs. rewrite Hc. simpl.
      intros H; injection H as <- <-. auto. }
    destruct Hfirst as (-> & Hc1 & Hm1 & Hx1 & Hg1).
    destruct fl as [v1|v1].
    2:{ destruct Hfl as [(Hc' & _)|(_ & Hn' & _)];
          [rewrite (Hu _ Hd) in Hc'; discriminate|congruence]. }
    destruct Hfl as (_ & _ & t & Ht & Hv1).
    replace (m_i v1 <? numSteps) with true
      by (symmetry; apply Z.ltb_lt; rewrite Hv1; simpl; lia).
    destruct (@lbfgs_no_room _ (m_xs v1) (gradf (m_xs v1)) info1)
      as (e & He & Hty); [lia|lia|].
    assert (Hb1 : minimize_body f gradf v1 = Throw e).
    { rewrite Hv1. rewrite Hv1 in He. simpl in He.
      unfold minimize_body. rewrite !containsNaN_false. rewrite He.
      reflexivity. }
    rewrite Hb1. cbn [JS.bind]. exists e. split; [reflexivity|].
    intros metric' t' s y Hd' Ht' Hs Hy.
    rewrite Ht in Ht'. injection Ht' as <-.
    rewrite Hv1 in Hty. simpl in Hty.
    exact (Hty _ _ _ _ Hx1 Hg1 Hs Hy).
  - exists e. split; [reflexivity|].
    intros metric t s y Hd Ht Hs Hy. exfalso.
    revert Hbody. unfold v0, minimize_body. rewrite !containsNaN_false.
    unfold lbfgs. rewrite Hc. simpl Z.eqb. cbn iota. cbn [JS.bind].
    rewrite Hd. cbn [call JS.bind]. rewrite (Hu _ Hd).
    cbn [andb BREAK_EARLY USE_LINE_SEARCH]. rewrite Ht. cbn [JS.bind].
    destruct (_ || _); discriminate.
Qed.

End MinimizeOutcome.
(** ** The line search with the default budget *)

Section LineSearchLevels.

Context {U : OtherUtils}.

Variable xs0 : list number.
Variable f : list number -> number.
Variable gradf : list number -> list number.
Variable gradfxs0 : list number.
Variable fxs0 : number.
Variable maxSteps : Z.
Variable slope0 : number.

(** The variables with which a pass starts are among those listed for its
    counter, and the counter does not pass [maxSteps + 1]. *)
Lemma aw_reach_level v :
  aw_reach xs0 f gradf gradfxs0 fxs0 maxSteps slope0 v ->
  0 <= aw_i v <= Z.max 0 (maxSteps + 1)
  /\ In (aw_a v, aw_b v, aw_t v) (aw_level (Z.to_nat (aw_i v))).
Proof.
  induction 1 as [|v v' Hr (Hi & Hin) Hbody].
  - simpl. split; [lia|]. left. reflexivity.
  - pose proof (aw_body_continue _ _ _ _ _ _ _ _ Hbody) as [Hle Hi'].
    destruct v as [a b t i]. simpl in Hi, Hin, Hle, Hi'.
    rewrite aw_body_unfold in Hbody.
    destruct (shouldStop maxSteps i a b); [discriminate|].
    destruct (call "addv" _) as [point|e1]; simpl in Hbody; [|discriminate].
    destruct (call "dot" _) as [slope|e2]; simpl in Hbody; [|discriminate].
    assert (Hn : Z.to_nat (i + 1) = S (Z.to_nat i)) by lia.
    destruct (negb _).
    + injection Hbody as <-. simpl. split; [lia|]. rewrite Hn. simpl.
      apply in_flat_map. exists (a, b, t). split; [exact Hin|].
      left. reflexivity.
    + destruct (negb _); [|discriminate].
      injection Hbody as <-. simpl. split; [lia|]. rewrite Hn. simpl.
      apply in_flat_map. exists (a, b, t). split; [exact Hin|].
      right. left. reflexivity.
Qed.

End LineSearchLevels.

(** All brackets and trials of the passes 0 to 11 are wide. *)
Lemma aw_levels_wide :
  forallb (fun n => forallb aw_wide (aw_level n)) (seq 0 12) = true.
Proof. vm_compute. reflexivity. Qed.

Lemma aw_level_wide n v :
  (n <= 11)%nat -> In v (aw_level n) -> aw_wide v = true.
Proof.
  intros Hn Hin. pose proof aw_levels_wide as H.
  rewrite forallb_forall in H. specialize (H n).
  rewrite forallb_forall in H. apply H; [|exact Hin].
  apply in_seq. lia.
Qed.

(** X10: with the budget of 10 updates, which is the one [minimize]
    uses, the line search raises the exception of a vector helper or
    returns a step length between 2^-11 and 2^11, whatever the energy, the
    gradient and the point: never zero, negative, infinite or NaN; and it
    returns when the helpers are defined on vectors of one length and the
    direction and the gradients have one entry for each variable. The
    bracket never gets narrower than [minInterval], so the search is
    stopped by the count of updates only, and it ends either after 11
    updates or at a step length that satisfies the Armijo and the weak
    Wolfe condition. *)
Theorem awLineSearch2_default_range {U : OtherUtils} xs0 f gradf gradfxs0
  fxs0 :
  match awLineSearch2 xs0 f gradf gradfxs0 fxs0 10 with
  | Ok t =>
      JS.le 0x1p-11%float t = true /\ JS.le t 0x1p11%float = true
      /\ exists slope0 v,
          dot (negv gradfxs0) (gradf xs0) = Some slope0
          /\ aw_reach xs0 f gradf gradfxs0 fxs0 10 slope0 v
          /\ t = aw_t v
          /\ (aw_i v = 11
              \/ (armijo xs0 f gradfxs0 fxs0 slope0 t = Ok true
                  /\ wolfe xs0 gradf gradfxs0 slope0 t = Ok true))
  | Throw e => exists c, e = Raised c
  end
  /\ (forall slope0 v,
        aw_reach xs0 f gradf gradfxs0 fxs0 10 slope0 v ->
        JS.lt (Math_abs (aw_b v - aw_a v)%float) minInterval = false
        /\ shouldStop 10 (aw_i v) (aw_a v) (aw_b v) = (aw_i v =? 11))
  /\ (vector_laws ->
      List.length gradfxs0 = List.length xs0 ->
      gradient_on (List.length xs0) gradf ->
      exists t, awLineSearch2 xs0 f gradf gradfxs0 fxs0 10 = Ok t).
Proof.
  assert (Hw : forall slope0 v,
             aw_reach xs0 f gradf gradfxs0 fxs0 10 slope0 v ->
             0 <= aw_i v <= 11 /\ aw_wide (aw_a v, aw_b v, aw_t v) = true).
  { intros slope0 v Hr. destruct (aw_reach_level Hr) as [Hi Hin].
    split; [lia|]. eapply aw_level_wide; [|exact Hin]. lia. }
  split; [|split].
  - destruct (awLineSearch2 xs0 f gradf gradfxs0 fxs0 10) as [t|e] eqn:Hs;
      [|eapply awLineSearch2_throw; exact Hs].
    destruct (@awLineSearch2_ok _ _ _ _ _ _ _ _ Hs) as (slope0 & v & Hd & Hl & Hr & Hb & Ht).
    destruct (Hw slope0 v Hr) as [Hi Hwide].
    pose proof Hwide as Hwide'. unfold aw_wide in Hwide'.
    apply andb_true_iff in Hwide'. destruct Hwide' as [Hwide' H2].
    apply andb_true_iff in Hwide'. destruct Hwide' as [H0 H1].
    apply negb_true_iff in H0.
    rewrite Ht. split; [exact H1|]. split; [exact H2|].
    exists slope0, v. split; [exact Hd|]. split; [exact Hr|].
    split; [reflexivity|].
    destruct v as [a b t' i]. simpl in *. subst t'.
    unfold aw_body in Hb.
    destruct (shouldStop 10 i a b) eqn:Hstop.
    + left. unfold shouldStop in Hstop. rewrite H0 in Hstop.
      simpl in Hstop. apply Z.ltb_lt in Hstop. lia.
    + right.
      destruct (armijo xs0 f gradfxs0 fxs0 slope0 t) as [[|]|e];
        cbn [JS.bind] in Hb; [| |discriminate].
      * destruct (wolfe xs0 gradf gradfxs0 slope0 t) as [[|]|e];
          cbn [JS.bind negb] in Hb; [auto|discriminate|discriminate].
      * destruct (wolfe xs0 gradf gradfxs0 slope0 t) as [[|]|e];
          cbn [JS.bind negb] in Hb; discriminate.
  - intros slope0 v1 Hr1. destruct (Hw slope0 v1 Hr1) as [Hi Hwide].
    unfold aw_wide in Hwide.
    apply andb_true_iff in Hwide. destruct Hwide as [Hwide _].
    apply andb_true_iff in Hwide. destruct Hwide as [H0 _].
    apply negb_true_iff in H0. split; [exact H0|].
    unfold shouldStop. rewrite H0. simpl.
    destruct (aw_i v1 =? 11) eqn:He.
    + apply Z.eqb_eq in He. apply Z.ltb_lt. lia.
    + apply Z.eqb_neq in He. apply Z.ltb_ge. lia.
  - apply awLineSearch2_returns.
Qed.

(** ** The initialization and the function dictionaries *)

Section Initialization.

Context {U : OtherUtils} {E : Eigen} {T : Types} {C : Collaborators}.

(** Applying the dictionary to the terms of a list fails at the first
    term it does not hold, and only there. *)
Lemma mapM_applyFn (dict : Dict) (h : VarAD -> VarAD) (fs : list FnDone) :
  match unresolved dict fs with
  | Some f0 =>
      mapM (fun c => let* e := applyFn c dict in Ok (h e)) fs
      = Throw (not_found f0)
  | None =>
      exists es, mapM (fun c => let* e := applyFn c dict in Ok (h e)) fs
                 = Ok es
  end.
Proof.
  induction fs as [|f0 fs IH]; simpl.
  - eexists; reflexivity.
  - destruct (dict (name f0)) as [g|] eqn:Hd.
    + assert (Ha : applyFn f0 dict = Ok (g (map argValue (args f0))))
        by (unfold applyFn; rewrite Hd; reflexivity).
      rewrite Ha. simpl.
      destruct (unresolved dict fs) as [f1|].
      * rewrite IH. reflexivity.
      * destruct IH as [es ->]. eexists; reflexivity.
    + assert (Ha : applyFn f0 dict = Throw (not_found f0))
        by (unfold applyFn; rewrite Hd; reflexivity).
      rewrite Ha. reflexivity.
Qed.

Lemma mapM_ext {A B : Type} (g h : A -> result B) l :
  (forall a, g a = h a) -> mapM g l = mapM h l.
Proof.
  intros H. induction l as [|a l IH]; simpl; [reflexivity|].
  rewrite H, IH. reflexivity.
Qed.

(** The energy is built exactly when the dictionaries hold the names of
    all terms; otherwise the first objective without an implementation,
    or else the first such constraint, is reported. *)
Lemma evalEnergyOnCustom_cases (state : State) (xsVars : list VarAD) :
  let translation_ :=
    insertVaryings
      (makeTranslationDifferentiable
         (clone (makeTranslationNumeric (translation state))))
      (zip (varyingPaths state) xsVars) in
  let varyingMap := genPathMap (varyingPaths state) xsVars in
  let objEvaled := evalFns (objFns state) translation_ varyingMap in
  let constrEvaled := evalFns (constrFns state) translation_ varyingMap in
  match unresolved objDict objEvaled, unresolved constrDict constrEvaled with
  | Some f0, _ => evalEnergyOnCustom state xsVars = Throw (not_found f0)
  | None, Some f0 => evalEnergyOnCustom state xsVars = Throw (not_found f0)
  | None, None => exists res, evalEnergyOnCustom state xsVars = Ok res
  end.
Proof.
  intros translation_ varyingMap objEvaled constrEvaled.
  unfold evalEnergyOnCustom.
  fold translation_ varyingMap. fold objEvaled constrEvaled.
  pose proof (mapM_applyFn objDict (fun e => e) objEvaled) as Ho.
  rewrite (mapM_ext _ (fun o => applyFn o objDict)) in Ho
    by (intros a; destruct (applyFn a objDict); reflexivity).
  pose proof (mapM_applyFn constrDict toPenalty constrEvaled) as Hc.
  destruct (unresolved objDict objEvaled) as [f0|].
  - rewrite Ho. reflexivity.
  - destruct Ho as [objEngs ->]. simpl.
    destruct (unresolved constrDict constrEvaled) as [f0|].
    + rewrite Hc. reflexivity.
    + destruct Hc as [constrEngs ->]. simpl. eexists; reflexivity.
Qed.

(** X11: the outcome of a call on a state whose status is [NewIter].
    When the objective and the gradient are compiled already the call
    returns, without consulting the dictionaries. Otherwise it compiles the
    problem: it returns exactly when the dictionaries hold the names of
    all evaluated terms, and else raises "constraint or objective ... not
    found in dirctionary" for the first objective term without an
    implementation or, when there is none, for the first such constraint
    term. *)
Theorem step_NewIter_outcome (state : State) steps evaluate :
  optStatus (params state) = NewIter ->
  let evaled fns :=
    evalFns fns
      (insertVaryings
         (makeTranslationDifferentiable
            (clone (makeTranslationNumeric (translation state))))
         (zip (varyingPaths state) (makeADInputVars (varyingValues state))))
      (genPathMap (varyingPaths state)
                  (makeADInputVars (varyingValues state))) in
  match objective (params state), gradient (params state) with
  | Some _, Some _ => exists s', step state steps evaluate = Ok s'
  | _, _ =>
      match unresolved objDict (evaled (objFns state)),
            unresolved constrDict (evaled (constrFns state)) with
      | Some f0, _ => step state steps evaluate = Throw (not_found f0)
      | None, Some f0 => step state steps evaluate = Throw (not_found f0)
      | None, None => exists s', step state steps evaluate = Ok s'
      end
  end.
Proof.
  intros Hst evaled. unfold step. rewrite Hst. unfold step_NewIter.
  assert (Hgen :
    match unresolved objDict (evaled (objFns state)),
          unresolved constrDict (evaled (constrFns state)) with
    | Some f0, _ => genOptProblem state = Throw (not_found f0)
    | None, Some f0 => genOptProblem state = Throw (not_found f0)
    | None, None => exists s', genOptProblem state = Ok s'
    end).
  { pose proof (evalEnergyOnCustom_cases state
                  (makeADInputVars (varyingValues state))) as H.
    cbv zeta in H. fold (evaled (objFns state)) in H.
    fold (evaled (constrFns state)) in H. unfold genOptProblem.
    destruct (unresolved objDict (evaled (objFns state))) as [f0|].
    - rewrite H. reflexivity.
    - destruct (unresolved constrDict (evaled (constrFns state))) as [f0|].
      + rewrite H. reflexivity.
      + destruct H as [res ->]. simpl. eexists; reflexivity. }
  assert (Hthen :
    match unresolved objDict (evaled (objFns state)),
          unresolved constrDict (evaled (constrFns state)) with
    | Some f0, _ =>
        (let* ex := let* s := genOptProblem state in Ok (Return_ s) in
         match ex with
         | Return_ s => Ok s
         | Break_ optParams xs => step_finish state optParams xs evaluate
         end) = Throw (not_found f0)
    | None, Some f0 =>
        (let* ex := let* s := genOptProblem state in Ok (Return_ s) in
         match ex with
         | Return_ s => Ok s
         | Break_ optParams xs => step_finish state optParams xs evaluate
         end) = Throw (not_found f0)
    | None, None =>
        exists s',
          (let* ex := let* s := genOptProblem state in Ok (Return_ s) in
           match ex with
           | Return_ s => Ok s
           | Break_ optParams xs => step_finish state optParams xs evaluate
           end) = Ok s'
    end).
  { destruct (unresolved objDict (evaled (objFns state))) as [f0|].
    - rewrite Hgen. reflexivity.
    - destruct (unresolved constrDict (evaled (constrFns state))) as [f0|].
      + rewrite Hgen. reflexivity.
      + destruct Hgen as [s' ->]. simpl. eexists; reflexivity. }
  destruct (objective (params state)) as [obj|];
    [destruct (gradient (params state)) as [grad|]|].
  - simpl. eexists; reflexivity.
  - exact Hthen.
  - exact Hthen.
Qed.

End Initialization.

(** ** The state machine: its edges and the invariants of a run *)

Section StateMachine.

Context {U : OtherUtils} {E : Eigen} {T : Types} {C : Collaborators}.

(** What a call does on a state whose status is [UnconstrainedRunning]. *)
Lemma step_running_cases (state : State) steps evaluate s' :
  RenderFrame ->
  optStatus (params state) = UnconstrainedRunning ->
  step state steps evaluate = Ok s' ->
  let p := params state in
  let p' := params s' in
  exists res,
    minimize (varyingValues state) (currObjective p) (currGradient p)
             (lbfgsInfo p) (map prettyPrintPath (varyingPaths state)) steps
    = Ok res
    /\ optStatus p'
       = (if failed res then Error
          else if unconstrainedConverged2 (normGrad res)
               then UnconstrainedConverged else UnconstrainedRunning)
    /\ lbfgsInfo p'
       = (if unconstrainedConverged2 (normGrad res) then defaultLbfgsParams
          else newLbfgsInfo res)
    /\ varyingValues s'
       = (if failed res then varyingValues state
          else if evaluate then xs res else varyingValues state)
    /\ lastUOstate p' = xs res
    /\ lastUOenergy p' = energyVal res
    /\ lastGradient p' = gradient_ res
    /\ lastGradientPreconditioned p' = gradientPreconditioned res
    /\ UOround p' = UOround p + 1
    /\ weight p' = weight p
    /\ EPround p' = EPround p
    /\ objective p' = objective p
    /\ gradient p' = gradient p
    /\ currObjective p' = currObjective p
    /\ currGradient p' = currGradient p
    /\ lastEPstate p' = lastEPstate p
    /\ lastEPenergy p' = lastEPenergy p.
Proof.
  intros HF Hst Hs p p'. subst p p'. unfold step in Hs. rewrite Hst in Hs.
  unfold step_UnconstrainedRunning in Hs.
  destruct (minimize _ _ _ _ _ _) as [res|e]; simpl in Hs; [|discriminate].
  exists res. split; [reflexivity|].
  destruct (failed res); simpl in Hs.
  - injection Hs as Hs; subst s'. simpl.
    destruct (unconstrainedConverged2 (normGrad res)); repeat split.
  - destruct (step_finish_ok _ _ _ _ HF Hs) as [-> ->].
    destruct (unconstrainedConverged2 (normGrad res)); simpl; repeat split.
Qed.

(** What a call does on a state whose status is
    [UnconstrainedConverged]. *)
Lemma step_converged_cases (state : State) steps evaluate s' :
  RenderFrame ->
  optStatus (params state) = UnconstrainedConverged ->
  step state steps evaluate = Ok s' ->
  let p := params state in
  let p' := params s' in
  varyingValues s' = varyingValues state
  /\ lbfgsInfo p' = lbfgsInfo p
  /\ objective p' = objective p
  /\ gradient p' = gradient p
  /\ lastEPstate p' = lastUOstate p
  /\ lastEPenergy p' = lastUOenergy p
  /\ lastUOstate p' = lastUOstate p
  /\ lastUOenergy p' = lastUOenergy p
  /\ ((optStatus p' = EPConverged
       /\ 1 < EPround p
       /\ epConverged2 (lastEPstate p) (lastUOstate p)
                       (lastEPenergy p) (lastUOenergy p) = Ok true
       /\ weight p' = weight p
       /\ EPround p' = EPround p
       /\ UOround p' = UOround p
       /\ currObjective p' = currObjective p
       /\ currGradient p' = currGradient p)
      \/ (exists obj grad,
             objective p = Some obj
             /\ gradient p = Some grad
             /\ optStatus p' = UnconstrainedRunning
             /\ weight p' = (10 * weight p)%float
             /\ EPround p' = EPround p + 1
             /\ UOround p' = 0
             /\ currObjective p' = obj (10 * weight p)%float
             /\ currGradient p' = grad (10 * weight p)%float)).
Proof.
  intros HF Hst Hs p p'. subst p p'. unfold step in Hs. rewrite Hst in Hs.
  unfold step_UnconstrainedConverged in Hs.
  set (test := if 1 <? EPround (params state)
               then epConverged2 (lastEPstate (params state))
                                 (lastUOstate (params state))
                                 (lastEPenergy (params state))
                                 (lastUOenergy (params state))
               else Ok false) in Hs.
  destruct test as [[|]|e] eqn:Hc; cbn [JS.bind] in Hs; [| |discriminate].
  - destruct (step_finish_ok _ _ _ _ HF Hs) as [-> ->].
    unfold test in Hc.
    destruct (1 <? EPround (params state)) eqn:H1; [|discriminate].
    apply Z.ltb_lt in H1. simpl.
    repeat (split; [first [reflexivity | destruct evaluate; reflexivity]|]).
    left. repeat split; assumption.
  - simpl in Hs.
    destruct (objective (params state)) as [obj|] eqn:Ho; simpl in Hs;
      [|discriminate].
    destruct (gradient (params state)) as [grad|] eqn:Hg; simpl in Hs;
      [|discriminate].
    destruct (step_finish_ok _ _ _ _ HF Hs) as [-> ->].
    simpl.
    repeat (split; [first [reflexivity | assumption
                          | destruct evaluate; reflexivity]|]).
    right. exists obj, grad. repeat split.
Qed.

(** What the initialization does. *)
Lemma step_NewIter_cases (state : State) steps evaluate s' :
  optStatus (params state) = NewIter ->
  step state steps evaluate = Ok s' ->
  let p := params state in
  let p' := params s' in
  optStatus p' = UnconstrainedRunning
  /\ weight p' = initConstraintWeight
  /\ EPround p' = 0
  /\ UOround p' = 0
  /\ lbfgsInfo p' = defaultLbfgsParams
  /\ s' = set_params p' state
  /\ ((exists obj grad,
          objective p = Some obj /\ gradient p = Some grad
          /\ objective p' = Some obj /\ gradient p' = Some grad
          /\ currObjective p' = currObjective p
          /\ currGradient p' = currGradient p)
      \/ ((objective p = None \/ gradient p = None)
          /\ genOptProblem state = Ok s'
          /\ exists obj grad, bound obj grad p')).
Proof.
  intros Hst Hs p p'. subst p p'. unfold step in Hs. rewrite Hst in Hs.
  unfold step_NewIter in Hs.
  assert (Hgen : forall s1, genOptProblem state = Ok s1 ->
            optStatus (params s1) = UnconstrainedRunning
            /\ weight (params s1) = initConstraintWeight
            /\ EPround (params s1) = 0
            /\ UOround (params s1) = 0
            /\ lbfgsInfo (params s1) = defaultLbfgsParams
            /\ s1 = set_params (params s1) state
            /\ exists obj grad, bound obj grad (params s1)).
  { intros s1. unfold genOptProblem.
    destruct (evalEnergyOnCustom _ _) as [res|e]; simpl; [|discriminate].
    intros H; injection H as <-. simpl. repeat split.
    do 2 eexists. repeat split. }
  destruct (objective (params state)) as [obj|] eqn:Ho;
    [destruct (gradient (params state)) as [grad|] eqn:Hg|]; simpl in Hs.
  - injection Hs as Hs. subst s'. simpl.
    repeat (split; [reflexivity|]). left. exists obj, grad. repeat split;
      assumption.
  - destruct (genOptProblem state) as [s1|e] eqn:Hp; simpl in Hs;
      [|discriminate].
    injection Hs as Hs. subst s'.
    destruct (Hgen s1 eq_refl) as (H1 & H2 & H3 & H4 & H5 & H6 & H7).
    repeat (split; [assumption|]). right. split; [right; reflexivity|].
    split; [reflexivity|exact H7].
  - destruct (genOptProblem state) as [s1|e] eqn:Hp; simpl in Hs;
      [|discriminate].
    injection Hs as Hs. subst s'.
    destruct (Hgen s1 eq_refl) as (H1 & H2 & H3 & H4 & H5 & H6 & H7).
    repeat (split; [assumption|]). right. split; [left; reflexivity|].
    split; [reflexivity|exact H7].
Qed.


(** X12: the edges of the state machine. A call that returns leads from
    [NewIter] to [UnconstrainedRunning]; from [UnconstrainedRunning] to
    itself, to [UnconstrainedConverged] or to [Error]; from
    [UnconstrainedConverged] to [UnconstrainedRunning] or to [EPConverged];
    and from [EPConverged] and [Error] to themselves. So, along successive
    calls with any budgets, a state with status [EPConverged] or [Error] is
    never changed, and the status [NewIter] is never produced. *)
Theorem step_transitions :
  RenderFrame ->
  (forall (state : State) steps evaluate s',
      step state steps evaluate = Ok s' ->
      transition (optStatus (params state)) (optStatus (params s')) = true)
  /\ (forall s s' : State,
        calls s s' ->
        optStatus (params s) = EPConverged \/ optStatus (params s) = Error ->
        s' = s)
  /\ (forall s s' : State,
        calls s s' ->
        optStatus (params s') = NewIter -> s' = s).
Proof.
  intros HF.
  assert (H1 : forall (state : State) steps evaluate s',
             step state steps evaluate = Ok s' ->
             transition (optStatus (params state)) (optStatus (params s'))
             = true).
  { intros state steps evaluate s' Hs.
    destruct (optStatus (params state)) eqn:Hst.
    - destruct (step_NewIter_cases _ _ _ Hst Hs) as (-> & _). reflexivity.
    - destruct (step_running_cases _ _ _ HF Hst Hs) as (res & _ & -> & _).
      destruct (failed res); [reflexivity|].
      destruct (unconstrainedConverged2 _); reflexivity.
    - destruct (step_converged_cases _ _ _ HF Hst Hs)
        as (_ & _ & _ & _ & _ & _ & _ & _ & [(-> & _)|(? & ? & _ & _ & -> & _)]);
        reflexivity.
    - unfold step in Hs. rewrite Hst in Hs. injection Hs as <-.
      rewrite Hst. reflexivity.
    - unfold step in Hs. rewrite Hst in Hs. injection Hs as <-.
      rewrite Hst. reflexivity. }
  split; [exact H1|]. split.
  - intros s s' Hc Hst. induction Hc as [s|s s1 s2 steps evaluate Hc IH Hs].
    + reflexivity.
    + specialize (IH Hst). subst s1. unfold step in Hs.
      destruct Hst as [Hst|Hst]; rewrite Hst in Hs; injection Hs as <-;
        reflexivity.
  - intros s s' Hc Hst. destruct Hc as [s|s s1 s2 steps evaluate Hc Hs].
    + reflexivity.
    + apply H1 in Hs. rewrite Hst in Hs.
      destruct (optStatus (params s1)); discriminate.
Qed.

(** X13: a point at which the convergence test passes is a fixed point
    of the minimisation. On a state with status [UnconstrainedRunning] and
    a positive budget, when [lbfgs] returns a direction whose product with
    the gradient at the variables is below [uoStop], [step] returns unless
    the colouring of the shapes, which runs when [evaluate] is set,
    raises an exception; it leaves the variables as they are, records them
    and their energy and gradient as the last unconstrained ones, resets
    the L-BFGS memory to the default one and moves to
    [UnconstrainedConverged]. *)
Theorem step_stationary (state : State) steps evaluate pre info' metric :
  RenderFrame ->
  optStatus (params state) = UnconstrainedRunning ->
  0 < steps ->
  let x := varyingValues state in
  let f := currObjective (params state) in
  let gradf := currGradient (params state) in
  lbfgs x (gradf x) (lbfgsInfo (params state)) = Ok (pre, info') ->
  dot (gradf x) pre = Some metric ->
  unconstrainedConverged2 metric = true ->
  match step state steps evaluate with
  | Ok s' =>
      optStatus (params s') = UnconstrainedConverged
      /\ varyingValues s' = x
      /\ lastUOstate (params s') = x
      /\ lastUOenergy (params s') = f x
      /\ lastGradient (params s') = gradf x
      /\ lbfgsInfo (params s') = defaultLbfgsParams
      /\ weight (params s') = weight (params state)
  | Throw e => evaluate = true /\ exists s1, colour s1 = Throw e
  end.
Proof.
  intros HF Hst Hpos x f gradf Hl Hd Hc.
  assert (Hm : minimize x f gradf (lbfgsInfo (params state))
                 (map prettyPrintPath (varyingPaths state)) steps
               = Ok {| xs := x; energyVal := f x;
                       normGrad := metric;
                       newLbfgsInfo := info';
                       gradient_ := gradf x;
                       gradientPreconditioned := pre;
                       failed := false |}).
  { unfold minimize. destruct (Z.to_nat steps) as [|fuel] eqn:Hfuel; [lia|].
    simpl minimize_loop.
    replace (0 <? steps) with true by (symmetry; apply Z.ltb_lt; exact Hpos).
    unfold minimize_body. rewrite !containsNaN_false, Hl. cbn [JS.bind].
    rewrite Hd. cbn [call JS.bind]. rewrite Hc. reflexivity. }
  unfold step. rewrite Hst. unfold step_UnconstrainedRunning.
  fold x f gradf. rewrite Hm.
  cbn [JS.bind failed xs energyVal normGrad newLbfgsInfo gradient_
       gradientPreconditioned].
  rewrite Hc. cbv iota.
  apply step_finish_cases; [exact HF|].
  intros s' -> ->. simpl. repeat split. destruct evaluate; reflexivity.
Qed.

(** Along calls from a state past its initialization. *)
Lemma calls_invariant (I : State -> Prop) (s s' : State) :
  (forall s1 s2 steps evaluate,
      I s1 -> optStatus (params s1) <> NewIter ->
      step s1 steps evaluate = Ok s2 -> I s2) ->
  RenderFrame ->
  calls s s' ->
  optStatus (params s) <> NewIter ->
  I s ->
  I s' /\ optStatus (params s') <> NewIter.
Proof.
  intros Hstep HF Hc Hst HI.
  induction Hc as [s|s s1 s2 steps evaluate Hc IH Hs]; [auto|].
  destruct (IH Hst HI) as [HI1 Hst1]. split; [eapply Hstep; eauto|].
  edestruct step_weight as [Hn _]; [exact HF|exact Hst1|exact Hs|exact Hn].
Qed.

(** X14: in a run, on every state after the initialization, the round
    counters are not negative, the weight is [initConstraintWeight]
    multiplied by 10 as many times as [EPround] says, and the status
    [EPConverged] is reached with [EPround] at least 2 only: the
    exterior-point method never converges before the weight was raised
    twice. *)
Theorem run_rounds (s0 s1 s : State) steps0 evaluate0 :
  RenderFrame ->
  optStatus (params s0) = NewIter ->
  step s0 steps0 evaluate0 = Ok s1 ->
  calls s1 s ->
  0 <= EPround (params s)
  /\ 0 <= UOround (params s)
  /\ weight (params s)
     = Nat.iter (Z.to_nat (EPround (params s)))
                (fun w => (10 * w)%float) initConstraintWeight
  /\ (optStatus (params s) = EPConverged -> 2 <= EPround (params s)).
Proof.
  intros HF Hst0 Hs0 Hc.
  destruct (step_NewIter_cases _ _ _ Hst0 Hs0) as (H1 & H2 & H3 & H4 & _).
  set (I := fun s : State =>
    0 <= EPround (params s)
    /\ 0 <= UOround (params s)
    /\ weight (params s)
       = Nat.iter (Z.to_nat (EPround (params s)))
                  (fun w => (10 * w)%float) initConstraintWeight
    /\ (optStatus (params s) = EPConverged -> 2 <= EPround (params s))).
  refine (proj1 (@calls_invariant I s1 s _ HF Hc _ _)).
  - intros a b steps evaluate (Ha1 & Ha2 & Ha3 & Ha4) Hna Hs. unfold I.
    destruct (optStatus (params a)) eqn:Hst; try congruence.
    + destruct (step_running_cases _ _ _ HF Hst Hs)
        as (res & _ & Hb1 & _ & _ & _ & _ & _ & _ & Hb2 & Hb3 & Hb4 & _).
      rewrite Hb2, Hb3, Hb4. repeat split; try lia; try assumption.
      rewrite Hb1. destruct (failed res); [discriminate|].
      destruct (unconstrainedConverged2 _); discriminate.
    + destruct (step_converged_cases _ _ _ HF Hst Hs)
        as (_ & _ & _ & _ & _ & _ & _ & _
            & [(Hb1 & Hb2 & _ & Hb3 & Hb4 & Hb5 & _)
              |(obj & grad & _ & _ & Hb1 & Hb2 & Hb3 & Hb4 & _)]).
      * rewrite Hb3, Hb4, Hb5. repeat split; try lia; assumption.
      * rewrite Hb1, Hb2, Hb3, Hb4. split; [lia|]. split; [lia|].
        split; [|discriminate].
        replace (Z.to_nat (EPround (params a) + 1))
          with (S (Z.to_nat (EPround (params a)))) by lia.
        simpl. rewrite <- Ha3. reflexivity.
    + unfold step in Hs. rewrite Hst in Hs. injection Hs as <-.
      split; [exact Ha1|]. split; [exact Ha2|]. split; [exact Ha3|].
      rewrite Hst. exact Ha4.
    + unfold step in Hs. rewrite Hst in Hs. injection Hs as <-.
      split; [exact Ha1|]. split; [exact Ha2|]. split; [exact Ha3|].
      rewrite Hst. exact Ha4.
  - rewrite H1. discriminate.
  - unfold I. rewrite H1, H2, H3, H4. repeat split; try lia. discriminate.
Qed.

(** A call on a state past its initialization keeps the closures bound
    to the weight. *)
Lemma step_bound (a b : State) steps evaluate obj grad :
  RenderFrame ->
  bound obj grad (params a) ->
  optStatus (params a) <> NewIter ->
  step a steps evaluate = Ok b ->
  bound obj grad (params b).
Proof.
  intros HF (Ha1 & Ha2 & Ha3 & Ha4) Hna Hs. unfold bound.
  destruct (optStatus (params a)) eqn:Hst; try congruence.
  - destruct (step_running_cases _ _ _ HF Hst Hs)
      as (res & _ & _ & _ & _ & _ & _ & _ & _ & _ & Hw & _ & Ho & Hg & Hco
          & Hcg & _).
    rewrite Hw, Ho, Hg, Hco, Hcg. auto.
  - destruct (step_converged_cases _ _ _ HF Hst Hs)
      as (_ & _ & Ho & Hg & _ & _ & _ & _
          & [(_ & _ & _ & Hw & _ & _ & Hco & Hcg)
            |(obj' & grad' & Ho' & Hg' & _ & Hw & _ & _ & Hco & Hcg)]).
    + rewrite Hw, Ho, Hg, Hco, Hcg. auto.
    + rewrite Ho, Hg, Hw, Hco, Hcg.
      rewrite Ha1 in Ho'. injection Ho' as <-.
      rewrite Ha2 in Hg'. injection Hg' as <-. auto.
  - unfold step in Hs. rewrite Hst in Hs. injection Hs as <-. auto.
  - unfold step in Hs. rewrite Hst in Hs. injection Hs as <-. auto.
Qed.

(** X15: in a run that starts by compiling the problem, the compiled
    objective and gradient stay the same on every later state, and the
    closures in use, [currObjective] and [currGradient], are always the
    compiled ones applied to the current weight. *)
Theorem run_closures_bound (s0 s1 : State) steps0 evaluate0 :
  RenderFrame ->
  optStatus (params s0) = NewIter ->
  objective (params s0) = None \/ gradient (params s0) = None ->
  step s0 steps0 evaluate0 = Ok s1 ->
  exists obj grad,
    forall s,
      calls s1 s ->
      objective (params s) = Some obj
      /\ gradient (params s) = Some grad
      /\ currObjective (params s) = obj (weight (params s))
      /\ currGradient (params s) = grad (weight (params s)).
Proof.
  intros HF Hst0 Hnone Hs0.
  destruct (step_NewIter_cases _ _ _ Hst0 Hs0)
    as (H1 & _ & _ & _ & _ & _ & [(obj & grad & Ho & Hg & _)|(_ & _ & Hb)]).
  - destruct Hnone; congruence.
  - destruct Hb as (obj & grad & Hb). exists obj, grad. intros s Hc.
    refine (proj1 (@calls_invariant (fun s => bound obj grad (params s))
                     s1 s _ HF Hc _ Hb)).
    + intros a b steps evaluate Ha Hna Hs. eapply step_bound; eauto.
    + rewrite H1. discriminate.
Qed.

(** X16: re-initializing a state of such a run (its status set back to
    [NewIter], the compiled functions kept) resets the weight to
    [initConstraintWeight] but does not bind the closures to it again:
    after the call [currObjective] is still the compiled objective at the
    weight the state had before. *)
Theorem reinit_keeps_closures (s0 s1 s : State) steps0 evaluate0
  steps evaluate :
  RenderFrame ->
  optStatus (params s0) = NewIter ->
  objective (params s0) = None \/ gradient (params s0) = None ->
  step s0 steps0 evaluate0 = Ok s1 ->
  calls s1 s ->
  exists s' obj,
    step (set_params (set_optStatus NewIter (params s)) s) steps evaluate
    = Ok s'
    /\ optStatus (params s') = UnconstrainedRunning
    /\ weight (params s') = initConstraintWeight
    /\ objective (params s') = Some obj
    /\ currObjective (params s') = obj (weight (params s)).
Proof.
  intros HF Hst0 Hnone Hs0 Hc.
  destruct (step_NewIter_cases _ _ _ Hst0 Hs0)
    as (H1 & _ & _ & _ & _ & _ & [(obj & grad & Ho & Hg & _)|(_ & _ & Hb)]);
    [destruct Hnone; congruence|].
  destruct Hb as (obj & grad & Hb).
  assert (Hbs : bound obj grad (params s)).
  { refine (proj1 (@calls_invariant (fun s => bound obj grad (params s))
                     s1 s _ HF Hc _ Hb)).
    - intros a b st ev Ha Hna Hs. eapply step_bound; eauto.
    - rewrite H1. discriminate. }
  destruct Hbs as (Ho & Hg & Hco & Hcg).
  unfold step, step_NewIter. simpl. rewrite Ho, Hg. simpl.
  eexists. exists obj. split; [reflexivity|]. simpl. auto.
Qed.

(** X17: when the default L-BFGS memory is usable (no vectors, room for
    at least one pair, counter 0), no call of [step] after a compiling
    initialization raises an exception of the optimizer's own: whatever
    the budgets, the energy and the values met, a call returns a state,
    or raises what an imported vector or matrix helper raised, or, with
    [evaluate] set, what the colouring of the shapes raised. *)
Theorem run_never_throws (s0 s1 s : State) steps0 evaluate0 steps evaluate :
  RenderFrame ->
  usable defaultLbfgsParams ->
  optStatus (params s0) = NewIter ->
  objective (params s0) = None \/ gradient (params s0) = None ->
  step s0 steps0 evaluate0 = Ok s1 ->
  calls s1 s ->
  match step s steps evaluate with
  | Ok s' => usable (lbfgsInfo (params s'))
  | Throw e =>
      (exists c, e = Raised c)
      \/ (evaluate = true /\ exists s2, colour s2 = Throw e)
  end.
Proof.
  intros HF Hd Hst0 Hnone Hs0 Hc.
  destruct (step_NewIter_cases _ _ _ Hst0 Hs0)
    as (H1 & _ & _ & _ & H5 & _ & [(obj & grad & Ho & Hg & _)|(_ & _ & Hb)]);
    [destruct Hnone; congruence|].
  destruct Hb as (obj & grad & Hb).
  set (I := fun s : State =>
    bound obj grad (params s) /\ usable (lbfgsInfo (params s))).
  assert (Hstep : forall (a b : State) st ev,
             I a -> optStatus (params a) <> NewIter ->
             step a st ev = Ok b -> I b).
  { intros a b st ev (Ha & Hu) Hna Hs. split; [eapply step_bound; eauto|].
    destruct (optStatus (params a)) eqn:Hst; try congruence.
    + destruct (step_running_cases _ _ _ HF Hst Hs)
        as (res & Hm & _ & -> & _).
      destruct (unconstrainedConverged2 _); [exact Hd|].
      pose proof (minimize_usable_cases (currObjective (params a))
                    (currGradient (params a)) (varyingValues a)
                    (map prettyPrintPath (varyingPaths a)) st Hu) as Hmu.
      rewrite Hm in Hmu. exact Hmu.
    + destruct (step_converged_cases _ _ _ HF Hst Hs) as (_ & -> & _).
      exact Hu.
    + unfold step in Hs. rewrite Hst in Hs. injection Hs as <-. exact Hu.
    + unfold step in Hs. rewrite Hst in Hs. injection Hs as <-. exact Hu. }
  assert (HI : I s /\ optStatus (params s) <> NewIter).
  { refine (@calls_invariant I s1 s Hstep HF Hc _ _).
    - rewrite H1. discriminate.
    - split; [exact Hb|]. rewrite H5. exact Hd. }
  destruct HI as [HIs Hn].
  destruct (step s steps evaluate) as [s'|e] eqn:Hs.
  - exact (proj2 (Hstep s s' steps evaluate HIs Hn Hs)).
  - destruct HIs as [(Ho & Hg & _) Hu]. revert Hs. unfold step.
    destruct (optStatus (params s)) eqn:Hst; try congruence.
    + unfold step_UnconstrainedRunning.
      pose proof (minimize_usable_cases (currObjective (params s))
                    (currGradient (params s)) (varyingValues s)
                    (map prettyPrintPath (varyingPaths s)) steps Hu) as Hmu.
      destruct (minimize _ _ _ _ _ _) as [res|e1]; cbn [JS.bind].
      * destruct (failed res); [discriminate|].
        intros Hf. right. eapply step_finish_throw. exact Hf.
      * intros H; injection H as <-. left. exact Hmu.
    + unfold step_UnconstrainedConverged.
      destruct (1 <? EPround (params s)).
      * unfold epConverged2.
        destruct (call "subv" _) as [change|e1] eqn:Hsub; cbn [JS.bind].
        -- destruct (_ || _); cbn [JS.bind].
           ++ intros Hf. right. eapply step_finish_throw. exact Hf.
           ++ simpl. rewrite Ho. simpl. rewrite Hg. simpl.
              intros Hf. right. eapply step_finish_throw. exact Hf.
        -- intros H; injection H as <-. left. apply call_throw in Hsub.
           eauto.
      * cbn [JS.bind]. simpl. rewrite Ho. simpl. rewrite Hg. simpl.
        intros Hf. right. eapply step_finish_throw. exact Hf.
    + discriminate.
    + discriminate.
Qed.

(** X18: calls of [step] with [evaluate] false change nothing but the
    optimization parameters: the state after any number of them is the
    state before with other [params]; the variables, the translation and
    the shapes stay, so the point the minimisation reached is in
    [lastUOstate] only. *)
Theorem run_without_evaluate n steps (s s' : State) :
  run n steps false s = Ok s' ->
  s' = set_params (params s') s.
Proof.
  assert (H1 : forall a b : State,
             step a steps false = Ok b -> b = set_params (params b) a).
  { intros a b. unfold step.
    destruct (optStatus (params a)).
    - unfold step_NewIter.
      destruct (objective (params a)); [destruct (gradient (params a))|];
        simpl; try (intros H; injection H as <-; reflexivity);
        unfold genOptProblem;
        (destruct (evalEnergyOnCustom _ _); simpl; [|discriminate]);
        intros H; injection H as <-; reflexivity.
    - unfold step_UnconstrainedRunning.
      destruct (minimize _ _ _ _ _ _) as [res|e]; simpl; [|discriminate].
      destruct (failed res); simpl; intros H; injection H as <-;
        reflexivity.
    - unfold step_UnconstrainedConverged.
      destruct (if 1 <? EPround (params a) then _ else _) as [[|]|e];
        cbn [JS.bind]; [| |discriminate].
      + simpl. intros H; injection H as <-. reflexivity.
      + simpl.
        destruct (objective (params a)); simpl; [|discriminate].
        destruct (gradient (params a)); simpl; [|discriminate].
        intros H; injection H as <-. reflexivity.
    - simpl. intros H; injection H as <-. destruct a; reflexivity.
    - simpl. intros H; injection H as <-. destruct a; reflexivity. }
  revert s. induction n as [|n IH]; intros s; simpl.
  - intros H; injection H as <-. destruct s; reflexivity.
  - destruct (step s steps false) as [s1|e] eqn:Hs; simpl; [|discriminate].
    intros Hr. apply IH in Hr. apply H1 in Hs.
    transitivity (set_params (params s') s1); [exact Hr|].
    rewrite Hs. reflexivity.
Qed.

(** X19: the number of variables never changes: [minimize] returns as
    many variables as it was given, and along successive calls of [step],
    with any budgets, [varyingValues] keeps its length. *)
Theorem variables_count_constant :
  (forall xs0 f gradf (info : LbfgsParams) paths numSteps res,
      minimize xs0 f gradf info paths numSteps = Ok res ->
      List.length (xs res) = List.length xs0)
  /\ (RenderFrame ->
      forall s s' : State,
        calls s s' ->
        List.length (varyingValues s') = List.length (varyingValues s)).
Proof.
  split; [intros xs0 f gradf info paths numSteps res;
          apply minimize_xs_length|].
  intros HF s s' Hc.
  induction Hc as [s|s s1 s2 steps evaluate Hc IH Hs]; [reflexivity|].
  rewrite <- IH. clear IH Hc.
  destruct (optStatus (params s1)) eqn:Hst.
  - destruct (step_NewIter_cases _ _ _ Hst Hs) as (_ & _ & _ & _ & _ & -> & _).
    reflexivity.
  - destruct (step_running_cases _ _ _ HF Hst Hs)
      as (res & Hm & _ & _ & -> & _).
    apply minimize_xs_length in Hm.
    destruct (failed res); [reflexivity|].
    destruct evaluate; [exact Hm|reflexivity].
  - destruct (step_converged_cases _ _ _ HF Hst Hs) as (-> & _). reflexivity.
  - unfold step in Hs. rewrite Hst in Hs. injection Hs as <-. reflexivity.
  - unfold step in Hs. rewrite Hst in Hs. injection Hs as <-. reflexivity.
Qed.

End StateMachine.

(** ** The colouring helpers

    Facts about binary64 subtraction and square roots, then the
    properties of [dist], [sampleUniformPalette] and
    [distGraphToKNNGraph]. *)

Unset Implicit Arguments.

(** Changing the sign of a rounding changes the sign of its result. *)
Lemma binary_round_aux_opp sx mx e l :
  SFopp (binary_round_aux prec emax sx mx e l)
  = binary_round_aux prec emax (negb sx) mx e l.
Proof.
  unfold binary_round_aux.
  destruct (shr_fexp prec emax mx e l) as [mrs1 e1].
  destruct (shr_fexp prec emax _ e1 loc_Exact) as [mrs2 e2].
  destruct (shr_m mrs2); simpl; try reflexivity.
  destruct (_ <=? _); reflexivity.
Qed.

Lemma binary_round_opp sx mx e :
  SFopp (binary_round prec emax sx mx e)
  = binary_round prec emax (negb sx) mx e.
Proof.
  unfold binary_round. destruct (shl_align _ _ _) as [mz ez].
  apply binary_round_aux_opp.
Qed.

(** [x - y] and [y - x] are equal or opposite. *)
Lemma SFsub_mirror x y :
  SFsub prec emax x y = SFsub prec emax y x
  \/ SFsub prec emax x y = SFopp (SFsub prec emax y x).
Proof.
  destruct x as [sx|sx| |sx mx ex]; destruct y as [sy|sy| |sy my ey];
    try (left; reflexivity);
    try (destruct sx, sy; simpl; auto; fail);
    try (destruct sx; simpl; auto; fail);
    try (destruct sy; simpl; auto; fail).
  unfold SFsub. rewrite (Z.min_comm ey ex).
  set (ez := Z.min ex ey).
  set (a := cond_Zopp sx (Z.pos (fst (shl_align mx ex ez)))).
  set (b := cond_Zopp sy (Z.pos (fst (shl_align my ey ez)))).
  replace (b - a) with (- (a - b)) by lia.
  destruct (a - b) as [|p|p]; simpl.
  - left. reflexivity.
  - right. rewrite binary_round_opp. reflexivity.
  - right. rewrite binary_round_opp. reflexivity.
Qed.

Lemma SFmul_opp_self x :
  SFmul prec emax (SFopp x) (SFopp x) = SFmul prec emax x x.
Proof. destruct x as [s|s| |s m e]; try destruct s; reflexivity. Qed.

(** The square of a difference does not depend on the order. *)
Lemma sub_sq_comm (a b : float) :
  ((a - b) * (a - b) = (b - a) * (b - a))%float.
Proof.
  apply Prim2SF_inj. rewrite !mul_spec, !sub_spec.
  unfold SF64mul, SF64sub.
  destruct (SFsub_mirror (Prim2SF a) (Prim2SF b)) as [-> | ->];
    [reflexivity|apply SFmul_opp_self].
Qed.

(** A finite number minus itself is +0. *)
Lemma sub_diag_finite (x : float) :
  PrimFloat.is_finite x = true -> (x - x = 0)%float.
Proof.
  intros Hf. apply Prim2SF_inj. rewrite sub_spec.
  change (Prim2SF 0%float) with (S754_zero false).
  revert Hf. unfold is_finite, is_nan, is_infinity.
  rewrite !FloatAxioms.eqb_spec, abs_spec. unfold SF64sub.
  destruct (Prim2SF x) as [s|s| |s m e]; simpl; try discriminate.
  - destruct s; reflexivity.
  - destruct s; discriminate.
  - intros _. rewrite Z.min_id. unfold shl_align. rewrite Z.sub_diag.
    simpl. rewrite ?Z.sub_diag. reflexivity.
Qed.

(** A square root is never below zero. *)
Lemma sqrt_not_negative (x : float) :
  PrimFloat.ltb (PrimFloat.sqrt x) 0%float = false.
Proof.
  rewrite ltb_spec, sqrt_spec. change (Prim2SF 0%float) with (S754_zero false).
  unfold SF64sqrt.
  destruct (Prim2SF x) as [s|s| |s m e]; simpl; try reflexivity.
  - destruct s; reflexivity.
  - destruct s; [reflexivity|].
    destruct (SFsqrt_core_binary prec emax (Z.pos m) e) as [[mz ez] lz] eqn:Hc.
    assert (Hmz : 0 <= mz).
    { unfold SFsqrt_core_binary in Hc.
      destruct (Z.sqrtrem _) as [q r] eqn:Hq. injection Hc as <- _ _.
      pose proof (Z.sqrtrem_sqrt
        match e - 2 * Z.min (fexp prec emax (Z.div2 (Zdigits2 (Z.pos m) + e + 1)))
                            (Z.div2 e) with
        | 0 => Z.pos m
        | Z.pos _ =>
            Z.shiftl (Z.pos m)
              (e - 2 * Z.min (fexp prec emax
                                (Z.div2 (Zdigits2 (Z.pos m) + e + 1)))
                             (Z.div2 e))
        | Z.neg _ => 0
        end) as Hs.
      rewrite Hq in Hs. simpl in Hs. subst q. apply Z.sqrt_nonneg. }
    pose proof (binary_round_aux_nonneg mz ez lz Hmz) as Hn.
    destruct (binary_round_aux prec emax false mz ez lz) as [s'|s'| |s' m' e'];
      simpl in Hn; try reflexivity.
    + destruct s'; [discriminate|reflexivity].
    + destruct s'; [discriminate|reflexivity].
Qed.

Set Implicit Arguments.

Lemma dist_fold_ext (g h : number -> nat -> number) l : forall acc,
  (forall a i, g a i = h a i) ->
  fold_left g l acc = fold_left h l acc.
Proof.
  induction l as [|i l IH]; intros acc H; simpl; [reflexivity|].
  rewrite H. apply IH. exact H.
Qed.

(** X20: the distance [dist] of the colouring. It is symmetric, also
    in its failure; it returns exactly when the two vectors are equally
    long; the distance it returns is never below zero; and the distance
    of a vector of finite numbers to itself is 0. *)
Theorem dist_properties (v1 v2 : list number) :
  dist v1 v2 = dist v2 v1
  /\ ((exists r, dist v1 v2 = Ok r) <-> List.length v1 = List.length v2)
  /\ (forall r, dist v1 v2 = Ok r -> JS.lt r 0%float = false)
  /\ (forallb PrimFloat.is_finite v1 = true -> dist v1 v1 = Ok 0%float).
Proof.
  split; [|split; [|split]].
  - unfold dist. rewrite (Nat.eqb_sym (List.length v2)).
    destruct (Nat.eqb (List.length v1) (List.length v2)) eqn:Hl; simpl;
      [|reflexivity].
    apply Nat.eqb_eq in Hl. rewrite <- Hl. do 2 f_equal.
    apply dist_fold_ext. intros a i. rewrite sub_sq_comm. reflexivity.
  - unfold dist.
    destruct (Nat.eqb (List.length v1) (List.length v2)) eqn:Hl; simpl.
    + apply Nat.eqb_eq in Hl. split; [intros _; exact Hl|eauto].
    + apply Nat.eqb_neq in Hl. split; [intros [r Hr]; discriminate|].
      intros H; contradiction.
  - intros r. unfold dist. destruct (negb _); [discriminate|].
    intros H; injection H as <-. apply sqrt_not_negative.
  - intros Hf. unfold dist. rewrite Nat.eqb_refl. simpl. do 2 f_equal.
    assert (H : forall l,
               (forall i, In i l -> (i < List.length v1)%nat) ->
               fold_left
                 (fun squaredSum i =>
                    (squaredSum
                     + (nth i v1 NaN - nth i v1 NaN)
                       * (nth i v1 NaN - nth i v1 NaN))%float)
                 l 0%float = 0%float).
    { induction l as [|i l IH]; intros Hl; simpl; [reflexivity|].
      rewrite sub_diag_finite.
      - change (0 + 0 * 0)%float with 0%float. apply IH.
        intros j Hj. apply Hl. right. exact Hj.
      - rewrite forallb_forall in Hf. apply Hf. apply nth_In. apply Hl.
        left. reflexivity. }
    rewrite H; [reflexivity|]. intros i Hi. apply in_seq in Hi. lia.
Qed.

(** X21: asked for [n] colors, with [n] positive and at most the
    length of the palette, [sampleUniformPalette] returns [n] colors of the
    palette, none of them undefined: the color of index [i] is the one at
    the index [i * stepSize] of the palette, which lies within the palette,
    and [stepSize] is positive, so the colors come from different places of
    the palette, in its order. *)
Theorem sampleUniformPalette_in_range {A : Type} (n : Z) (palette : list A) :
  0 < n <= Z.of_nat (List.length palette) ->
  let stepSize := (List.length palette / Z.to_nat n)%nat in
  exists colors,
    sampleUniformPalette n palette = Ok (map Some colors)
    /\ List.length colors = Z.to_nat n
    /\ (0 < stepSize)%nat
    /\ forall i,
        (i < Z.to_nat n)%nat ->
        (i * stepSize < List.length palette)%nat
        /\ nth_error colors i = nth_error palette (i * stepSize).
Proof.
  intros [Hpos Hle] stepSize.
  destruct palette as [|d p]; [simpl in Hle; lia|].
  set (palette := d :: p) in *. unfold sampleUniformPalette.
  replace (n =? 0) with false by (symmetry; apply Z.eqb_neq; lia).
  replace (Z.of_nat (List.length palette) <? n) with false
    by (symmetry; apply Z.ltb_ge; lia).
  set (len := List.length palette) in *.
  set (k := Z.to_nat n) in *.
  assert (Hk : (0 < k <= len)%nat) by (unfold k; lia).
  assert (Hstep : Z.of_nat len / n = Z.of_nat stepSize).
  { unfold stepSize, k. rewrite Nat2Z.inj_div. rewrite Z2Nat.id by lia.
    reflexivity. }
  rewrite Hstep.
  assert (H2 : (0 < stepSize)%nat) by (apply Nat.div_str_pos; lia).
  assert (Hin : forall i, (i < k)%nat -> (i * stepSize < len)%nat).
  { intros i Hi.
    assert (H1 : (k * stepSize <= len)%nat) by (apply Nat.Div0.mul_div_le).
    nia. }
  exists (map (fun i => nth (i * stepSize) palette d) (seq 0 k)).
  split; [|split; [|split]].
  - f_equal. rewrite map_map. apply map_ext_in. intros i Hi.
    apply in_seq in Hi. unfold at_index.
    replace (Z.of_nat i * Z.of_nat stepSize <? 0) with false
      by (symmetry; apply Z.ltb_ge; lia).
    replace (Z.to_nat (Z.of_nat i * Z.of_nat stepSize))
      with (i * stepSize)%nat by lia.
    apply nth_error_nth'. apply Hin. lia.
  - rewrite length_map, length_seq. reflexivity.
  - exact H2.
  - intros i Hi. split; [apply Hin; exact Hi|].
    rewrite nth_error_map, nth_error_seq.
    replace (i <? k)%nat with true by (symmetry; apply Nat.ltb_lt; exact Hi).
    unfold option_map. rewrite Nat.add_0_l. symmetry.
    apply nth_error_nth'. apply Hin. exact Hi.
Qed.

(** *** The nearest neighbours *)

Section NeighboursOfNodes.

Variable sort :
  (number * nat -> number * nat -> number) ->
  list (number * nat) -> list (number * nat).

Hypothesis Hsort : rearranges sort.

Lemma mapi_from_snd (l : list number) : forall j,
  map snd (mapi_from j (fun element index => (element, index)) l)
  = seq j (List.length l).
Proof.
  induction l as [|x l IH]; intros j; simpl; [reflexivity|].
  rewrite IH. reflexivity.
Qed.

Lemma filter_map_snd (p : nat -> bool) (l : list (number * nat)) :
  map snd (filter (fun e => p (snd e)) l) = filter p (map snd l).
Proof.
  induction l as [|e l IH]; simpl; [reflexivity|].
  destruct (p (snd e)); simpl; rewrite IH; reflexivity.
Qed.

Lemma filter_neq_seq_length i n :
  (i < n)%nat ->
  List.length (filter (fun j => negb (Nat.eqb i j)) (seq 0 n)) = (n - 1)%nat.
Proof.
  intros Hi.
  assert (H : forall len start,
             List.length (filter (fun j => negb (Nat.eqb i j)) (seq start len))
             = (len - (if (start <=? i)%nat && (i <? start + len)%nat
                       then 1 else 0))%nat).
  { induction len as [|len IH]; intros start; simpl.
    - reflexivity.
    - specialize (IH (S start)).
      destruct (Nat.eqb_spec i start) as [Heq|Hne]; simpl; rewrite IH;
        destruct (Nat.leb_spec (S start) i);
        destruct (Nat.leb_spec start i);
        destruct (Nat.ltb_spec i (S start + len));
        destruct (Nat.ltb_spec i (start + S len)); simpl; lia. }
  rewrite H. replace (0 <=? i)%nat with true by reflexivity.
  replace (i <? 0 + n)%nat with true by (symmetry; apply Nat.ltb_lt; lia).
  simpl. reflexivity.
Qed.

Lemma mapM_nth_error {A : Type} (l : list (A * nat)) k :
  (k <= List.length l)%nat ->
  mapM (fun j => match nth_error l j with
                 | Some e => Ok (snd e)
                 | None => Throw (TypeError "undefined operand")
                 end) (seq 0 k)
  = Ok (firstn k (map snd l)).
Proof.
  assert (H : forall k start (l : list (A * nat)),
             (k <= List.length l)%nat ->
             forall pre, List.length pre = start ->
             mapM (fun j => match nth_error (pre ++ l) j with
                            | Some e => Ok (snd e)
                            | None => Throw (TypeError "undefined operand")
                            end) (seq start k)
             = Ok (firstn k (map snd l))).
  { clear l k. induction k as [|k IH]; intros start l Hk pre Hpre; simpl;
      [reflexivity|].
    destruct l as [|e l]; [simpl in Hk; lia|].
    rewrite nth_error_app2 by lia.
    replace (start - List.length pre)%nat with 0%nat by lia. simpl.
    replace (pre ++ e :: l) with ((pre ++ [e]) ++ l)
      by (rewrite <- app_assoc; reflexivity).
    rewrite (IH (S start) l); [reflexivity|simpl in Hk; lia|].
    rewrite length_app. simpl. lia. }
  intros Hk. apply (H k 0%nat l Hk []). reflexivity.
Qed.

Lemma mapM_all {A B : Type} (g : A -> result B) (h : A -> B) l :
  (forall a, In a l -> g a = Ok (h a)) -> mapM g l = Ok (map h l).
Proof.
  induction l as [|a l IH]; intros H; simpl; [reflexivity|].
  rewrite H by (left; reflexivity). simpl.
  rewrite IH by (intros b Hb; apply H; right; exact Hb). reflexivity.
Qed.

(** The neighbours of the nodes of a square matrix of distances. *)
Lemma distGraphToKNNGraph_ok (distGraph : list (list number)) (k : Z) :
  let n := List.length distGraph in
  (forall row, In row distGraph -> List.length row = n) ->
  0 <= k < Z.of_nat n ->
  exists ajlist,
    distGraphToKNNGraph sort distGraph k = Ok ajlist
    /\ List.length ajlist = n
    /\ forall i nbors,
        nth_error ajlist i = Some nbors ->
        List.length nbors = Z.to_nat k
        /\ NoDup nbors
        /\ forall j, In j nbors -> (j < n)%nat /\ j <> i.
Proof.
  intros n Hsq Hk. unfold distGraphToKNNGraph. fold n.
  replace (Z.of_nat n <=? k) with false by (symmetry; apply Z.leb_gt; lia).
  set (nbors_of := fun ir : nat * list number =>
    firstn (Z.to_nat k)
      (map snd
         (sort (fun e1 e2 => (fst e1 - fst e2)%float)
            (filter (fun e => negb (Nat.eqb (fst ir) (snd e)))
               (mapi_from 0 (fun element index => (element, index))
                          (snd ir)))))).
  assert (Hperm : forall i row,
             List.length row = n ->
             Permutation
               (map snd
                  (sort (fun e1 e2 => (fst e1 - fst e2)%float)
                     (filter (fun e => negb (Nat.eqb i (snd e)))
                        (mapi_from 0 (fun element index => (element, index))
                                   row))))
               (filter (fun j => negb (Nat.eqb i j)) (seq 0 n))).
  { intros i row Hrow. rewrite (Permutation_map snd (Hsort _ _)).
    rewrite (filter_map_snd (fun j => negb (Nat.eqb i j))).
    rewrite mapi_from_snd, Hrow. reflexivity. }
  exists (map nbors_of (combine (seq 0 n) distGraph)).
  split; [|split].
  - apply mapM_all. intros [i row] Hin. cbv zeta. simpl fst. simpl snd.
    assert (Hi : (i < n)%nat).
    { apply in_combine_l in Hin. apply in_seq in Hin. lia. }
    assert (Hrow : List.length row = n)
      by (apply Hsq; eapply in_combine_r; exact Hin).
    rewrite mapM_nth_error; [reflexivity|].
    rewrite <- (length_map snd), (Permutation_length (Hperm i row Hrow)).
    rewrite filter_neq_seq_length by exact Hi. lia.
  - rewrite length_map, length_combine, length_seq. fold n. lia.
  - intros i nbors Hnth.
    rewrite nth_error_map in Hnth.
    destruct (nth_error (combine (seq 0 n) distGraph) i) as [[i' row]|] eqn:Hc;
      [|discriminate].
    injection Hnth as <-.
    assert (Hin : In (i', row) (combine (seq 0 n) distGraph))
      by (eapply nth_error_In; exact Hc).
    assert (Hi' : i' = i).
    { pose proof (nth_error_nth _ _ (0%nat, @nil number) Hc) as Hn.
      rewrite combine_nth in Hn by (rewrite length_seq; reflexivity).
      assert (Hlt : (i < n)%nat).
      { assert (Hs : nth_error (combine (seq 0 n) distGraph) i <> None)
          by (rewrite Hc; discriminate).
        apply nth_error_Some in Hs.
        rewrite length_combine, length_seq in Hs. lia. }
      rewrite seq_nth in Hn by exact Hlt. simpl in Hn. congruence. }
    subst i'.
    assert (Hi : (i < n)%nat).
    { apply in_combine_l in Hin. apply in_seq in Hin. lia. }
    assert (Hrow : List.length row = n)
      by (apply Hsq; eapply in_combine_r; exact Hin).
    unfold nbors_of. simpl fst. simpl snd.
    pose proof (Hperm i row Hrow) as Hp.
    set (all := map snd _) in *.
    assert (Hlen : List.length all = (n - 1)%nat).
    { rewrite (Permutation_length Hp). apply filter_neq_seq_length.
      exact Hi. }
    assert (Hnd : NoDup all).
    { apply (Permutation_NoDup (Permutation_sym Hp)).
      apply NoDup_filter. apply seq_NoDup. }
    split; [rewrite length_firstn; lia|].
    split.
    + rewrite <- (firstn_skipn (Z.to_nat k) all) in Hnd.
      apply NoDup_app_remove_r in Hnd. exact Hnd.
    + intros j Hj.
      assert (Hj' : In j all).
      { rewrite <- (firstn_skipn (Z.to_nat k) all). apply in_or_app.
        left. exact Hj. }
      apply (Permutation_in _ Hp) in Hj'. apply filter_In in Hj'.
      destruct Hj' as [Hs Hne]. apply in_seq in Hs.
      apply negb_true_iff in Hne. apply Nat.eqb_neq in Hne.
      split; [lia|congruence].
Qed.

(** X22: for a square matrix of distances between [n] nodes and a
    number [k] of neighbours from 0 to [n - 1], whatever the order in which
    [sort] leaves elements that compare equal or that it cannot compare,
    [distGraphToKNNGraph] returns, for each of the [n] nodes, exactly [k]
    neighbours: they are nodes of the graph, they differ from each other,
    and none is the node itself. *)
Theorem distGraphToKNNGraph_rows (distGraph : list (list number)) (k : Z) :
  let n := List.length distGraph in
  (forall row, In row distGraph -> List.length row = n) ->
  0 <= k < Z.of_nat n ->
  exists ajlist,
    distGraphToKNNGraph sort distGraph k = Ok ajlist
    /\ List.length ajlist = n
    /\ forall i nbors,
        nth_error ajlist i = Some nbors ->
        List.length nbors = Z.to_nat k
        /\ NoDup nbors
        /\ forall j, In j nbors -> (j < n)%nat /\ j <> i.
Proof. apply distGraphToKNNGraph_ok. Qed.

End NeighboursOfNodes.

(** ** The distance graph of the shapes *)

Lemma assign_length {A : Type} (a : list A) : forall i v,
  List.length (assign a i v) = List.length a.
Proof.
  induction a as [|x a IH]; intros [|i] v; simpl; try reflexivity.
  rewrite IH. reflexivity.
Qed.

Lemma nth_assign_eq {A : Type} (a : list A) : forall i v d,
  (i < List.length a)%nat -> nth i (assign a i v) d = v.
Proof.
  induction a as [|x a IH]; intros [|i] v d Hi; simpl in *; try lia;
    [reflexivity|]. apply IH. lia.
Qed.

Lemma nth_assign_neq {A : Type} (a : list A) : forall i k v d,
  i <> k -> nth k (assign a i v) d = nth k a d.
Proof.
  induction a as [|x a IH]; intros [|i] [|k] v d Hne; simpl; try reflexivity;
    try lia. apply IH. lia.
Qed.

Lemma In_assign {A : Type} (a : list A) : forall i v x,
  In x (assign a i v) -> x = v \/ In x a.
Proof.
  induction a as [|y a IH]; intros [|i] v x; simpl; try tauto.
  - intros [H|H]; auto.
  - intros [H|H]; [auto|]. destruct (IH i v x H); auto.
Qed.

Lemma createMatrix_square n :
  square n (createMatrix (Z.of_nat n) (Z.of_nat n))
  /\ forall a b, (a < n)%nat -> (b < n)%nat ->
                 entry (createMatrix (Z.of_nat n) (Z.of_nat n)) a b = 0%float.
Proof.
  unfold createMatrix. rewrite !Nat2Z.id. split; [split|].
  - apply repeat_length.
  - intros row Hin. apply repeat_spec in Hin. subst row. apply repeat_length.
  - intros a b Ha Hb. unfold entry.
    rewrite (nth_indep _ [] (List.repeat 0%float n))
      by (rewrite repeat_length; exact Ha).
    rewrite nth_repeat. rewrite (nth_indep _ NaN 0%float)
      by (rewrite repeat_length; exact Hb).
    apply nth_repeat.
Qed.

Lemma square_row n g i :
  square n g -> (i < n)%nat -> List.length (nth i g []) = n.
Proof. intros [Hl Hr] Hi. apply Hr. apply nth_In. lia. Qed.

Lemma assign_entry_square n g i j v :
  square n g -> (i < n)%nat -> square n (assign_entry g i j v).
Proof.
  intros Hsq Hi. pose proof (square_row Hsq Hi) as Hrow.
  destruct Hsq as [Hl Hr]. unfold assign_entry. split.
  - rewrite assign_length. exact Hl.
  - intros row Hin. apply In_assign in Hin. destruct Hin as [->|Hin].
    + rewrite assign_length. exact Hrow.
    + apply Hr. exact Hin.
Qed.

Lemma entry_assign_eq n g i j v :
  square n g -> (i < n)%nat -> (j < n)%nat ->
  entry (assign_entry g i j v) i j = v.
Proof.
  intros Hsq Hi Hj. pose proof (square_row Hsq Hi) as Hrow.
  destruct Hsq as [Hl Hr]. unfold entry, assign_entry.
  rewrite nth_assign_eq by lia. apply nth_assign_eq. lia.
Qed.

Lemma entry_assign_neq n g i j v a b :
  square n g -> (i < n)%nat ->
  (a, b) <> (i, j) ->
  entry (assign_entry g i j v) a b = entry g a b.
Proof.
  intros [Hl Hr] Hi Hne. unfold entry, assign_entry.
  destruct (Nat.eq_dec i a) as [<-|Hia].
  - rewrite nth_assign_eq by lia. apply nth_assign_neq. congruence.
  - rewrite nth_assign_neq by exact Hia. reflexivity.
Qed.

Lemma entry_out n g a b :
  square n g -> (n <= a)%nat \/ (n <= b)%nat -> entry g a b = NaN.
Proof.
  intros [Hl Hr] H. unfold entry.
  destruct (Nat.lt_ge_cases a n) as [Ha|Ha].
  - destruct H as [H|H]; [lia|]. apply nth_overflow.
    rewrite Hr by (apply nth_In; lia). exact H.
  - rewrite (nth_overflow g) by lia. destruct b; reflexivity.
Qed.

Lemma in_pairs n i j : In (i, j) (pairs n) <-> (i < j < n)%nat.
Proof.
  unfold pairs. rewrite in_flat_map. split.
  - intros (i' & Hi & Hin). apply in_map_iff in Hin.
    destruct Hin as (j' & Heq & Hj). injection Heq as -> ->.
    apply in_seq in Hi. apply in_seq in Hj. lia.
  - intros H. exists i. split; [apply in_seq; lia|].
    apply in_map_iff. exists j. split; [reflexivity|]. apply in_seq. lia.
Qed.

Section DistanceGraphProperties.

Context {T : Types}.

Variable center : Shape -> center_property.
Variable shapeList : list Shape.

Lemma fill_ok g i j g' :
  fill center shapeList g (i, j) = Ok g' ->
  exists d,
    centers_distance center shapeList i j d
    /\ g' = assign_entry (assign_entry g i j d) j i
                         (entry (assign_entry g i j d) i j).
Proof.
  unfold fill, contents_of. simpl fst. simpl snd. cbv zeta.
  destruct (nth_error shapeList i) as [s1|] eqn:H1; simpl; [|discriminate].
  destruct (center s1) as [|c1] eqn:Hc1; simpl; [discriminate|].
  destruct c1 as [a1| |]; simpl; try discriminate.
  - destruct (nth_error shapeList j) as [s2|] eqn:H2; simpl; [|discriminate].
    destruct (center s2) as [|c2] eqn:Hc2; simpl; [discriminate|].
    destruct c2 as [a2| |]; simpl; try discriminate.
    destruct (Nat.eqb (List.length a1) (List.length a2)) eqn:Hl; simpl;
      [|discriminate].
    destruct (Nat.eqb (List.length a1) 0) eqn:Hz; simpl; [discriminate|].
    destruct (dist a1 a2) as [d|e] eqn:Hd; simpl; [|discriminate].
    intros H; injection H as <-. exists d. split; [|reflexivity].
    apply Nat.eqb_eq in Hl. apply Nat.eqb_neq in Hz.
    exists s1, s2, a1, a2. repeat split; try assumption. lia.
  - destruct (option_map center (nth_error shapeList j)) as [[|c2]|]; simpl;
      discriminate.
Qed.

(** The loops over a list of pairs [(i, j)] with [i < j < n]. *)
Lemma foldM_graph n : forall l g g',
  square n g ->
  (forall i j, In (i, j) l -> (i < j < n)%nat) ->
  foldM (fill center shapeList) l g = Ok g' ->
  square n g'
  /\ (forall i j, In (i, j) l ->
                  centers_distance center shapeList i j (entry g' i j)
                  /\ entry g' j i = entry g' i j)
  /\ (forall a b, ~ In (a, b) l -> ~ In (b, a) l ->
                  entry g' a b = entry g a b).
Proof.
  induction l as [|[i j] l IH]; intros g g' Hsq Hl; simpl foldM.
  - intros H; injection H as <-. split; [exact Hsq|].
    split; [intros i j []|reflexivity].
  - destruct (fill center shapeList g (i, j)) as [g1|e] eqn:Hb; simpl;
      [|discriminate].
    intros Hf.
    destruct (Hl i j (or_introl eq_refl)) as [Hij Hjn].
    destruct (fill_ok _ _ _ Hb) as (d & Hd & Hg1).
    assert (Hsq0 : square n (assign_entry g i j d))
      by (apply assign_entry_square; [exact Hsq|lia]).
    assert (Hsq1 : square n g1)
      by (rewrite Hg1; apply assign_entry_square; [exact Hsq0|lia]).
    assert (Hij1 : entry g1 i j = d).
    { rewrite Hg1. rewrite (@entry_assign_neq n); [|exact Hsq0|lia|].
      - apply (@entry_assign_eq n); [exact Hsq|lia|lia].
      - intros H; injection H as H1 H2; lia. }
    assert (Hji1 : entry g1 j i = d).
    { rewrite Hg1. rewrite (@entry_assign_eq n); [|exact Hsq0|lia|lia].
      apply (@entry_assign_eq n); [exact Hsq|lia|lia]. }
    assert (Hother : forall a b, (a, b) <> (i, j) -> (a, b) <> (j, i) ->
                                 entry g1 a b = entry g a b).
    { intros a b H1 H2. rewrite Hg1.
      rewrite (@entry_assign_neq n); [|exact Hsq0|lia|exact H2].
      apply (@entry_assign_neq n); [exact Hsq|lia|exact H1]. }
    destruct (IH g1 g' Hsq1) as (Hsq' & Hin' & Hout');
      [intros a b Hab; apply Hl; right; exact Hab|exact Hf|].
    split; [exact Hsq'|]. split.
    + intros a b [Heq|Hab]; [|apply Hin'; exact Hab].
      injection Heq as <- <-.
      assert (Hdec : In (i, j) l \/ ~ In (i, j) l).
      { destruct (in_dec (fun p q : nat * nat =>
                            ltac:(decide equality; apply Nat.eq_dec))
                         (i, j) l); auto. }
      destruct Hdec as [Hab|Hnab]; [apply Hin'; exact Hab|].
      assert (Hnba : ~ In (j, i) l).
      { intros H. assert (j < i < n)%nat by (apply Hl; right; exact H). lia. }
      rewrite (Hout' i j Hnab Hnba), (Hout' j i Hnba Hnab), Hij1, Hji1.
      split; [exact Hd|reflexivity].
    + intros a b Hab Hba.
      rewrite Hout';
        [|intros H; apply Hab; right; exact H
         |intros H; apply Hba; right; exact H].
      apply Hother; intros H; [apply Hab|apply Hba]; left; congruence.
Qed.

(** What the graph holds when [shapeListToDistanceGraph] returns. *)
Lemma shapeListToDistanceGraph_ok g :
  shapeListToDistanceGraph center shapeList = Ok g ->
  let n := List.length shapeList in
  square n g
  /\ (forall i j, entry g i j = entry g j i)
  /\ (forall i, (i < n)%nat -> entry g i i = 0%float)
  /\ (forall i j, (i < j < n)%nat ->
                  centers_distance center shapeList i j (entry g i j)).
Proof.
  intros Hf n. unfold shapeListToDistanceGraph in Hf. cbv zeta in Hf.
  fold n in Hf.
  destruct (createMatrix_square n) as [Hsq0 Hzero].
  destruct (@foldM_graph n (pairs n) _ g Hsq0) as (Hsq & Hin & Hout);
    [intros i j Hij; apply in_pairs; exact Hij|exact Hf|].
  split; [exact Hsq|]. split; [|split].
  - assert (Hlt : forall i j, (i < j)%nat -> entry g i j = entry g j i).
    { intros i j Hij. destruct (Nat.lt_ge_cases j n) as [Hj|Hj].
      - symmetry. apply Hin. apply in_pairs. lia.
      - rewrite (entry_out (n := n)) by (auto). 
        rewrite (entry_out (n := n)) by (auto). reflexivity. }
    intros i j. destruct (Nat.lt_trichotomy i j) as [H|[->|H]];
      [apply Hlt; exact H|reflexivity|symmetry; apply Hlt; exact H].
  - intros i Hi. rewrite Hout; [apply Hzero; exact Hi| |];
      rewrite in_pairs; lia.
  - intros i j Hij. apply Hin. apply in_pairs. exact Hij.
Qed.

Lemma shapeListToDistanceGraph_few :
  (List.length shapeList <= 1)%nat ->
  shapeListToDistanceGraph center shapeList
  = Ok (createMatrix (Z.of_nat (List.length shapeList))
                     (Z.of_nat (List.length shapeList))).
Proof.
  intros Hn. unfold shapeListToDistanceGraph. cbv zeta.
  destruct shapeList as [|s [|s' l]]; simpl in *; try lia; reflexivity.
Qed.

Lemma fill_legal g i j d :
  centers_distance center shapeList i j d ->
  exists g', fill center shapeList g (i, j) = Ok g'.
Proof.
  intros (s1 & s2 & a1 & a2 & H1 & H2 & Hc1 & Hc2 & Hl & Hz & Hd).
  unfold fill, contents_of. simpl fst. simpl snd. cbv zeta.
  rewrite H1, H2. unfold option_map. rewrite Hc1, Hc2. simpl.
  rewrite Hl, Nat.eqb_refl. simpl.
  replace (Nat.eqb (List.length a2) 0) with false
    by (symmetry; apply Nat.eqb_neq; lia).
  rewrite Hd. simpl. eauto.
Qed.

Lemma foldM_legal : forall l g,
  (forall i j, In (i, j) l ->
               exists d, centers_distance center shapeList i j d) ->
  exists g', foldM (fill center shapeList) l g = Ok g'.
Proof.
  induction l as [|[i j] l IH]; intros g Hl; simpl; [eauto|].
  destruct (Hl i j (or_introl eq_refl)) as (d & Hd).
  destruct (fill_legal g Hd) as (g1 & ->). simpl.
  apply IH. intros a b Hab. apply Hl. right. exact Hab.
Qed.

Lemma centered_legal dim i j :
  centered center dim shapeList -> (0 < dim)%nat ->
  (i < List.length shapeList)%nat -> (j < List.length shapeList)%nat ->
  exists d, centers_distance center shapeList i j d.
Proof.
  intros Hc Hd Hi Hj.
  destruct (nth_error shapeList i) as [s1|] eqn:H1;
    [|apply nth_error_None in H1; lia].
  destruct (nth_error shapeList j) as [s2|] eqn:H2;
    [|apply nth_error_None in H2; lia].
  destruct (Hc s1 (nth_error_In _ _ H1)) as (a1 & Ha1 & Hl1).
  destruct (Hc s2 (nth_error_In _ _ H2)) as (a2 & Ha2 & Hl2).
  destruct (dist a1 a2) as [d|e] eqn:Hdist.
  - exists d, s1, s2, a1, a2. repeat split; try assumption; lia.
  - unfold dist in Hdist. rewrite Hl1, Hl2, Nat.eqb_refl in Hdist.
    discriminate.
Qed.

(** X23: when [shapeListToDistanceGraph] returns, the graph is a matrix
    of as many rows and columns as there are shapes; it is symmetric, its
    diagonal is 0, and its entry for two different shapes is the distance
    [dist] of their centers, which are arrays of numbers of one length
    and not empty. *)
Theorem shapeListToDistanceGraph_graph g :
  shapeListToDistanceGraph center shapeList = Ok g ->
  let n := List.length shapeList in
  List.length g = n
  /\ (forall row, In row g -> List.length row = n)
  /\ (forall i j, entry g i j = entry g j i)
  /\ (forall i, (i < n)%nat -> entry g i i = 0%float)
  /\ (forall i j, (i < j < n)%nat ->
                  centers_distance center shapeList i j (entry g i j)).
Proof.
  intros Hf n. destruct (shapeListToDistanceGraph_ok Hf)
    as ([Hl Hr] & Hsym & Hdiag & Hd).
  repeat split; assumption.
Qed.

(** X24: [shapeListToDistanceGraph] returns a graph exactly when the
    centers of every two different shapes of the list are arrays of
    numbers of one length and not empty; otherwise it throws. With at most
    one shape it returns whatever the shape is, no center being read. *)
Theorem shapeListToDistanceGraph_returns_iff :
  let n := List.length shapeList in
  ((exists g, shapeListToDistanceGraph center shapeList = Ok g)
   <-> (forall i j, (i < j < n)%nat ->
                    exists d, centers_distance center shapeList i j d))
  /\ ((forall g, shapeListToDistanceGraph center shapeList <> Ok g)
      -> exists e, shapeListToDistanceGraph center shapeList = Throw e)
  /\ ((n <= 1)%nat ->
      shapeListToDistanceGraph center shapeList
      = Ok (createMatrix (Z.of_nat n) (Z.of_nat n))).
Proof.
  intros n. split; [split|split].
  - intros (g & Hf) i j Hij. exists (entry g i j).
    apply (shapeListToDistanceGraph_ok Hf). exact Hij.
  - intros Hl. unfold shapeListToDistanceGraph. cbv zeta.
    apply foldM_legal. intros i j Hij. apply Hl. apply in_pairs. exact Hij.
  - intros Hno. destruct (shapeListToDistanceGraph center shapeList) as [g|e];
      [destruct (Hno g eq_refl)|eauto].
  - apply shapeListToDistanceGraph_few.
Qed.

End DistanceGraphProperties.

(** *** The stages of the colouring *)

Section ColouringStages.

Context {E : Eigen} {T : Types}.

Variable center : Shape -> center_property.

Variable sort :
  (number * nat -> number * nat -> number) ->
  list (number * nat) -> list (number * nat).

Hypothesis Hsort : rearranges sort.

Variable RGB : Type.
Variable KNNGraphToColorList :
  list (list nat) -> Z -> list RGB -> result (list RGB).
Variable assignNewColors :
  State -> list RGB -> (Shape -> bool) -> number -> result State.

(** X25: [getNewlyColoredState] on the shapes that the given test
    selects. With at most one such shape it returns the state as it is,
    whatever the shape. With two or more, all with legal centers, the
    stages before the choice of colours never throw: the colours are
    chosen for a list that gives each of the [n] selected shapes
    [min (n - 1) 3] neighbours, different shapes among the selected ones
    and none the shape itself, and the result is that of writing these
    colours. *)
Theorem getNewlyColoredState_stages (state : State)
    (includeInColorAdjustmentFn : Shape -> bool) (palette : list RGB)
    (alpha : number) :
  let selected := filter includeInColorAdjustmentFn (shapes state) in
  let n := List.length selected in
  let k := Z.min (Z.of_nat n - 1) 3 in
  ((n <= 1)%nat ->
   getNewlyColoredState center sort KNNGraphToColorList assignNewColors
     state includeInColorAdjustmentFn palette alpha = Ok state)
  /\ ((2 <= n)%nat ->
      (forall i j, (i < j < n)%nat ->
                   exists d, centers_distance center selected i j d) ->
      exists ajlist,
        getNewlyColoredState center sort KNNGraphToColorList assignNewColors
          state includeInColorAdjustmentFn palette alpha
        = (let* colorList := KNNGraphToColorList ajlist k palette in
           assignNewColors state colorList includeInColorAdjustmentFn alpha)
        /\ List.length ajlist = n
        /\ forall i nbors,
            nth_error ajlist i = Some nbors ->
            List.length nbors = Z.to_nat k
            /\ NoDup nbors
            /\ forall j, In j nbors -> (j < n)%nat /\ j <> i).
Proof.
  intros selected n k. unfold getNewlyColoredState. fold selected. split.
  - intros Hn. rewrite shapeListToDistanceGraph_few by exact Hn.
    fold n. simpl JS.bind. cbv zeta.
    destruct (createMatrix_square n) as [[Hl _] _]. rewrite Hl.
    replace (Z.of_nat n <=? 3) with true by (symmetry; apply Z.leb_le; lia).
    replace (Z.of_nat n - 1 <=? 0) with true
      by (symmetry; apply Z.leb_le; lia).
    reflexivity.
  - intros Hn Hlegal.
    destruct (@foldM_legal _ center selected (pairs n)
                (createMatrix (Z.of_nat n) (Z.of_nat n))) as (g & Hg);
      [intros i j Hij; apply Hlegal; apply in_pairs; exact Hij|].
    assert (Hf : shapeListToDistanceGraph center selected = Ok g)
      by exact Hg.
    destruct (@shapeListToDistanceGraph_ok _ center selected g Hf)
      as ([Hl Hr] & _).
    fold n in Hl, Hr. rewrite Hf. simpl JS.bind. cbv zeta. rewrite Hl.
    assert (Hk : (if Z.of_nat n <=? 3 then Z.of_nat n - 1 else 3) = k).
    { unfold k. destruct (Z.leb_spec (Z.of_nat n) 3); lia. }
    rewrite Hk.
    replace (k <=? 0) with false by (symmetry; apply Z.leb_gt; lia).
    destruct (@distGraphToKNNGraph_ok sort Hsort g k)
      as (ajlist & Hs & Hlen & Hrows);
      [rewrite Hl; exact Hr|rewrite Hl; lia|].
    rewrite Hl in Hlen, Hrows.
    exists ajlist. rewrite Hs. split; [reflexivity|].
    split; [exact Hlen|exact Hrows].
Qed.

End ColouringStages.

(** ** The further properties at work on the reference collaborators *)

Lemma Ref_usable_default : usable defaultLbfgsParams.
Proof.
  split; [reflexivity|]. split; [simpl; lia|]. left. reflexivity.
Qed.

Lemma mat_build_length r c g : List.length (mat_build r c g) = r.
Proof. unfold mat_build. rewrite length_map, length_seq. reflexivity. Qed.

Lemma mat_build_row r c g row :
  In row (mat_build r c g) -> List.length row = c.
Proof.
  unfold mat_build. intros H. apply in_map_iff in H.
  destruct H as (i & <- & _). rewrite length_map, length_seq. reflexivity.
Qed.

Lemma mat_build_get r c g i j :
  (i < r)%nat -> (j < c)%nat -> mat_get (mat_build r c g) i j = g i j.
Proof.
  intros Hi Hj. unfold mat_get, mat_build.
  rewrite (nth_indep _ [] (map (fun j => g 0%nat j) (seq 0 c)))
    by (rewrite length_map, length_seq; exact Hi).
  rewrite (map_nth (fun i => map (fun j => g i j) (seq 0 c)) (seq 0 r) 0%nat).
  rewrite seq_nth by exact Hi. simpl.
  rewrite (nth_indep _ NaN (g i 0%nat))
    by (rewrite length_map, length_seq; exact Hj).
  rewrite (map_nth (fun j => g i j) (seq 0 c) 0%nat).
  rewrite seq_nth by exact Hj. reflexivity.
Qed.

Lemma mat_get_out (m : mat) i j :
  (List.length m <= i)%nat -> mat_get m i j = NaN.
Proof.
  intros Hi. unfold mat_get. rewrite (nth_overflow m) by exact Hi.
  destruct j; reflexivity.
Qed.

Lemma column_cols n (m : mat) :
  Cases.column n m -> (0 < n)%nat -> mat_cols m = 1%nat.
Proof.
  intros [Hl Hr] Hn. unfold mat_cols. apply Hr. apply nth_In. lia.
Qed.

Lemma Ref_column_laws : column_laws Cases.column.
Proof.
  split; [|split; [|split; [|split]]].
  - intros n v. split; [apply mat_build_length|apply mat_build_row].
  - intros n m i v Hm Hi. pose proof (column_cols Hm) as Hc.
    destruct Hm as [Hl Hr]. split.
    + simpl. rewrite mat_build_length. exact Hl.
    + intros row Hin. simpl in Hin. apply mat_build_row in Hin.
      rewrite Hin. apply Hc. lia.
  - intros n m [Hl _]. exact Hl.
  - intros n m i v Hm Hi. pose proof (column_cols Hm) as Hc.
    destruct Hm as [Hl Hr]. simpl.
    rewrite mat_build_get by (unfold mat_rows; rewrite ?Hc; lia).
    rewrite Nat.eqb_refl. reflexivity.
  - intros n m i j v Hm Hne. pose proof (column_cols Hm) as Hc.
    destruct Hm as [Hl Hr]. simpl.
    destruct (Nat.lt_ge_cases j n) as [Hj|Hj].
    + rewrite mat_build_get by (unfold mat_rows; rewrite ?Hc; lia).
      replace (Nat.eqb i j) with false
        by (symmetry; apply Nat.eqb_neq; exact Hne).
      reflexivity.
    + rewrite (mat_get_out m) by lia.
      apply mat_get_out. rewrite mat_build_length. unfold mat_rows. lia.
Qed.

Lemma mat_build_cols r c g :
  mat_cols (mat_build r c g) = if Nat.eqb r 0 then 0%nat else c.
Proof.
  unfold mat_cols, mat_build. destruct r as [|r]; [reflexivity|].
  simpl. rewrite length_map, length_seq. reflexivity.
Qed.

Lemma column_build n c g :
  ((0 < n)%nat -> c = 1%nat) -> Cases.column n (mat_build n c g).
Proof.
  intros Hc. split; [apply mat_build_length|].
  intros row Hin. pose proof (mat_build_row _ _ _ _ Hin) as Hr.
  rewrite Hr. apply Hc. destruct n; [destruct Hin|lia].
Qed.

Lemma column_same_size n (a b : mat) :
  Cases.column n a -> Cases.column n b -> same_size a b = true.
Proof.
  intros Ha Hb. unfold same_size, mat_rows.
  rewrite (proj1 Ha), (proj1 Hb), Nat.eqb_refl. simpl.
  destruct n as [|n].
  - destruct a; [|destruct Ha; discriminate].
    destruct b; [|destruct Hb; discriminate]. reflexivity.
  - rewrite (column_cols Ha), (column_cols Hb) by lia. reflexivity.
Qed.

Lemma Ref_column_algebra : column_algebra Cases.column.
Proof.
  split; [|split; [|split; [|split]]].
  - intros n a b Ha Hb. simpl. eexists. 
    assert (Hc : Nat.eqb
              (mat_cols (mat_build (mat_cols a) (mat_rows a)
                                   (fun i j => mat_get a j i)))
              (mat_rows b) = true).
    { rewrite mat_build_cols. unfold mat_rows.
      rewrite (proj1 Ha), (proj1 Hb). destruct n as [|n].
      - destruct a; [|destruct Ha; discriminate]. reflexivity.
      - rewrite (column_cols Ha) by lia. simpl. apply Nat.eqb_refl. }
    rewrite Hc. eexists. split; reflexivity.
  - intros n a b Ha Hb. simpl. rewrite (column_same_size Ha Hb).
    eexists. split; [reflexivity|]. unfold mat_rows. rewrite (proj1 Ha).
    apply column_build. apply (column_cols Ha).
  - intros n a b Ha Hb. simpl. rewrite (column_same_size Ha Hb).
    eexists. split; [reflexivity|]. unfold mat_rows. rewrite (proj1 Ha).
    apply column_build. apply (column_cols Ha).
  - intros n a k Ha. simpl. unfold mat_rows. rewrite (proj1 Ha).
    apply column_build. apply (column_cols Ha).
  - intros n y q k Hy Hq. simpl. unfold mat_rows at 1 2 3.
    rewrite !mat_build_length, !mat_build_cols.
    unfold mat_rows. rewrite (proj1 Hy), (proj1 Hq).
    assert (Hc : Nat.eqb (if Nat.eqb n 0 then 0%nat
                          else if Nat.eqb n 0 then 0%nat else n) n = true)
      by (destruct n; [reflexivity|simpl; apply Nat.eqb_refl]).
    rewrite Hc. eexists. split; [reflexivity|].
    apply column_build. apply (column_cols Hq).
Qed.

Lemma Ref_usable_at_default n :
  usable_at Cases.column n defaultLbfgsParams.
Proof.
  split; [exact Ref_usable_default|].
  split; [constructor|]. split; [constructor|]. split; discriminate.
Qed.

(** A result that is known satisfies what holds of every result. *)
Lemma result_ok {A : Type} (r : result A) (a : A) (Q : A -> Prop)
  (R : error -> Prop) :
  r = Ok a -> match r with Ok a => Q a | Throw e => R e end -> Q a.
Proof. intros ->. auto. Qed.

Lemma insert_rearranges c e l : Permutation (Cases.insert c e l) (e :: l).
Proof.
  induction l as [|x l IH]; simpl; [reflexivity|].
  destruct (JS.lt (c e x) 0%float); [reflexivity|].
  rewrite IH. apply perm_swap.
Qed.

Lemma insertion_sort_rearranges : rearranges Cases.insertion_sort.
Proof.
  intros c l. unfold Cases.insertion_sort.
  assert (H : forall l acc,
             Permutation (fold_left (fun sorted e => Cases.insert c e sorted)
                                    l acc) (acc ++ l)).
  { clear l. induction l as [|e l IH]; intros acc; simpl.
    - rewrite app_nil_r. reflexivity.
    - rewrite IH. rewrite insert_rearranges. simpl.
      apply Permutation_middle. }
  apply (H l []).
Qed.

(** The calls of the sample run after its initialization. *)
Lemma Samples_calls : calls (Samples.after 1) (Samples.after 7).
Proof.
  assert (H : forall s s' : State,
             step s 100 true = Ok s' -> calls (Samples.after 1) s ->
             calls (Samples.after 1) s')
    by (intros s s' Hs Hc; eapply calls_more; eauto).
  apply (H (Samples.after 6)); [vm_compute; reflexivity|].
  apply (H (Samples.after 5)); [vm_compute; reflexivity|].
  apply (H (Samples.after 4)); [vm_compute; reflexivity|].
  apply (H (Samples.after 3)); [vm_compute; reflexivity|].
  apply (H (Samples.after 2)); [vm_compute; reflexivity|].
  apply (H (Samples.after 1)); [vm_compute; reflexivity|].
  apply calls_none.
Qed.

Lemma Samples_init : step Samples.problem 100 true = Ok (Samples.after 1).
Proof. vm_compute. reflexivity. Qed.

Lemma lbfgsInner_returns_iff_witness :
  Cases.column 2 (colVec [3%float; 4%float])
  /\ exists r,
      lbfgsInner (colVec [3%float; 4%float])
                 [colVec [1%float; 2%float]] [colVec [2%float; 1%float]]
      = Ok r
      /\ Cases.column 2 r.
Proof.
  assert (H : forall l : list number,
             Cases.column (List.length l) (colVec l))
    by (intros l; apply colVec_column; exact Ref_column_laws).
  split; [exact (H [3%float; 4%float])|].
  apply (proj1 (proj2 (@lbfgsInner_returns_iff Ref.eigen
                         (colVec [3%float; 4%float])
                         [colVec [1%float; 2%float]]
                         [colVec [2%float; 1%float]]))
               Cases.column 2%nat Ref_column_algebra
               (H [3%float; 4%float]));
    [repeat constructor; apply (H [_; _])
    |repeat constructor; apply (H [_; _])
    |reflexivity|simpl; lia].
Defined.

(** Vectors of another height than the gradient make a matrix product
    fail, in the two-loop recursion and in the estimator. *)
Example lbfgsInner_mismatch :
  lbfgsInner (colVec [3%float; 4%float]) [colVec [1%float]]
             [colVec [2%float]]
  = Throw (Raised "matMul")
  /\ lbfgs [1%float; 2%float] [2%float; 4%float] Samples.memory1
     = Throw (Raised "matSub").
Proof. split; vm_compute; reflexivity. Qed.

Lemma lbfgs_memory_invariant_witness :
  exists pre info',
    lbfgs [0%float] [0%float] Samples.memory1 = Ok (pre, info')
    /\ List.length (s_list info') = List.length (y_list info')
    /\ memSize info' = 17.
Proof.
  destruct (lbfgs [0%float] [0%float] Samples.memory1)
    as [[pre info']|e] eqn:H; [|vm_compute in H; discriminate].
  exists pre, info'. split; [reflexivity|].
  destruct (lbfgs_memory_invariant _ _ _ H) as (H1 & _ & _ & H4 & _).
  split; [exact H1|]. rewrite H4. reflexivity.
Defined.

Lemma vecList_colVec_witness :
  column_laws Cases.column
  /\ vecList (colVec [1%float; 2%float; 3%float])
     = [1%float; 2%float; 3%float].
Proof.
  split; [exact Ref_column_laws|].
  exact (@vecList_colVec Ref.eigen Cases.column Ref_column_laws
           [1%float; 2%float; 3%float]).
Defined.

Lemma minimize_failed_nan_witness :
  exists res,
    minimize [NaN] Samples.f_sq Samples.gradf_sq defaultLbfgsParams [] 1
    = Ok res
    /\ failed res = true
    /\ energyVal res = Samples.f_sq (xs res)
    /\ unconstrainedConverged2 (normGrad res) = false.
Proof.
  destruct (minimize [NaN] Samples.f_sq Samples.gradf_sq defaultLbfgsParams
              [] 1) as [res|e] eqn:H; [|vm_compute in H; discriminate].
  assert (Hf : failed res = true).
  { pose proof H as H'. vm_compute in H'. injection H' as <-. reflexivity. }
  exists res. split; [reflexivity|]. split; [exact Hf|].
  destruct (@minimize_failed_nan _ _ _ _ _ _ _ _ _ H Hf) as (_ & He & _ & Hc).
  split; assumption.
Defined.

Lemma minimize_converged_consistent_witness :
  exists res,
    minimize [0.001%float] Samples.f_sq Samples.gradf_sq defaultLbfgsParams
             [] 5 = Ok res
    /\ unconstrainedConverged2 (normGrad res) = true
    /\ failed res = false
    /\ energyVal res = Samples.f_sq (xs res).
Proof.
  destruct (minimize [0.001%float] Samples.f_sq Samples.gradf_sq
              defaultLbfgsParams [] 5) as [res|e] eqn:H;
    [|vm_compute in H; discriminate].
  assert (Hc : unconstrainedConverged2 (normGrad res) = true).
  { pose proof H as H'. vm_compute in H'. injection H' as <-.
    vm_compute. reflexivity. }
  exists res. split; [reflexivity|]. split; [exact Hc|].
  destruct (@minimize_converged_consistent _ _ _ _ _ _ _ 5 _
              ltac:(lia) H Hc) as (Hf & He & _).
  split; assumption.
Defined.

Lemma minimize_running_lags_witness :
  exists res,
    minimize [10%float] Samples.f_sq Samples.gradf_sq defaultLbfgsParams
             [] 1 = Ok res
    /\ energyVal res = 100%float
    /\ Samples.f_sq (xs res) = 0%float
    /\ exists x t,
        energyVal res = Samples.f_sq x
        /\ awLineSearch2 x Samples.f_sq Samples.gradf_sq
                         (gradientPreconditioned res) (Samples.f_sq x) 10
           = Ok t
        /\ xs res = descend t (gradientPreconditioned res) x.
Proof.
  destruct (minimize [10%float] Samples.f_sq Samples.gradf_sq
              defaultLbfgsParams [] 1) as [res|e] eqn:H;
    [|vm_compute in H; discriminate].
  assert (Hv : unconstrainedConverged2 (normGrad res) = false
               /\ failed res = false
               /\ energyVal res = 100%float
               /\ Samples.f_sq (xs res) = 0%float).
  { pose proof H as H'. vm_compute in H'. injection H' as <-.
    repeat split; vm_compute; reflexivity. }
  destruct Hv as (Hc & Hf & He & Hx).
  exists res. split; [reflexivity|]. split; [exact He|]. split; [exact Hx|].
  destruct (@minimize_running_lags _ _ _ _ _ _ _ 1 _ ltac:(lia) H Hc Hf)
    as (x & t & H1 & _ & _ & H4 & H5).
  exists x, t. repeat split; assumption.
Defined.

Lemma minimize_usable_total_witness :
  usable defaultLbfgsParams
  /\ (exists res,
        minimize [10%float] Samples.f_sq Samples.gradf_sq defaultLbfgsParams
                 [] 100 = Ok res
        /\ usable (newLbfgsInfo res)
        /\ List.length (xs res) = 1%nat)
  /\ minimize [1%float; 2%float] (fun _ => 1%float) (fun _ => [1%float])
              defaultLbfgsParams [] 1
     = Throw (Raised "addv").
Proof.
  split; [exact Ref_usable_default|]. split.
  - destruct (proj2 (@minimize_usable_total _ _ Samples.f_sq
                       Samples.gradf_sq [10%float] defaultLbfgsParams []
                       100 Ref_usable_default)
                    Cases.column Ref_column_laws Ref_column_algebra
                    Ref_vector_laws)
      as (res & Hm & Hu & Hn).
    + intros zs Hz. reflexivity.
    + apply Ref_usable_at_default.
    + exists res. split; [exact Hm|]. split; [exact (proj1 Hu)|exact Hn].
  - vm_compute. reflexivity.
Defined.

Lemma minimize_no_memory_witness :
  memSize Cases.no_memory <= 0
  /\ numUnconstrSteps Cases.no_memory = 0
  /\ dot (Samples.gradf_sq [1%float]) (Samples.gradf_sq [1%float])
     = Some 4%float
  /\ unconstrainedConverged2 4%float = false
  /\ nan_at Samples.f_sq Samples.gradf_sq [1%float] = false
  /\ minimize [1%float] Samples.f_sq Samples.gradf_sq Cases.no_memory [] 2
     = Throw (TypeError "undefined operand").
Proof.
  assert (H1 : memSize Cases.no_memory <= 0) by (simpl; lia).
  assert (H2 : numUnconstrSteps Cases.no_memory = 0) by reflexivity.
  assert (H3 : dot (Samples.gradf_sq [1%float]) (Samples.gradf_sq [1%float])
               = Some 4%float) by (vm_compute; reflexivity).
  assert (H4 : unconstrainedConverged2 4%float = false)
    by (vm_compute; reflexivity).
  assert (H5 : nan_at Samples.f_sq Samples.gradf_sq [1%float] = false)
    by (vm_compute; reflexivity).
  repeat (split; [assumption|]).
  destruct (@minimize_no_memory _ _ Samples.f_sq Samples.gradf_sq [1%float]
              Cases.no_memory [] 2 H1 H2 ltac:(lia)) as (e & He & Hty).
  - intros metric Hm. rewrite H3 in Hm. injection Hm as <-. exact H4.
  - exact H5.
  - rewrite He. f_equal. cbv zeta in Hty.
    eapply Hty; vm_compute; reflexivity.
Defined.

Lemma step_NewIter_outcome_witness :
  optStatus (params Cases.problem_unknown) = NewIter
  /\ step Cases.problem_unknown 100 true
     = Throw (Error_
                "constraint or objective nearby not found in dirctionary").
Proof.
  split; [reflexivity|].
  exact (step_NewIter_outcome Cases.problem_unknown 100 true eq_refl).
Defined.

Lemma step_transitions_witness :
  step (Samples.after 2) 100 true = Ok (Samples.after 3)
  /\ optStatus (params (Samples.after 2)) = UnconstrainedConverged
  /\ optStatus (params (Samples.after 3)) = UnconstrainedRunning
  /\ transition (optStatus (params (Samples.after 2)))
                (optStatus (params (Samples.after 3))) = true.
Proof.
  assert (H : step (Samples.after 2) 100 true = Ok (Samples.after 3))
    by (vm_compute; reflexivity).
  split; [exact H|]. split; [vm_compute; reflexivity|].
  split; [vm_compute; reflexivity|].
  exact (proj1 (step_transitions Ref_RenderFrame) _ _ _ _ H).
Defined.

Lemma step_stationary_witness :
  let state :=
    Samples.with_status UnconstrainedRunning [0.001%float] Samples.f_sq
                        Samples.gradf_sq in
  optStatus (params state) = UnconstrainedRunning
  /\ lbfgs [0.001%float] (Samples.gradf_sq [0.001%float])
           (lbfgsInfo (params state))
     = Ok (Samples.gradf_sq [0.001%float], Samples.memory_at 0.001%float)
  /\ dot (Samples.gradf_sq [0.001%float]) (Samples.gradf_sq [0.001%float])
     = Some 0.000004%float
  /\ unconstrainedConverged2 0.000004%float = true
  /\ exists s',
      step state 5 true = Ok s'
      /\ optStatus (params s') = UnconstrainedConverged
      /\ varyingValues s' = [0.001%float]
      /\ lastUOenergy (params s') = Samples.f_sq [0.001%float].
Proof.
  intros state.
  assert (Hst : optStatus (params state) = UnconstrainedRunning)
    by reflexivity.
  assert (Hl : lbfgs (varyingValues state)
                 (currGradient (params state) (varyingValues state))
                 (lbfgsInfo (params state))
               = Ok (Samples.gradf_sq [0.001%float],
                     Samples.memory_at 0.001%float))
    by (vm_compute; reflexivity).
  assert (Hd : dot (currGradient (params state) (varyingValues state))
                   (Samples.gradf_sq [0.001%float])
               = Some 0.000004%float) by (vm_compute; reflexivity).
  assert (Hc : unconstrainedConverged2 0.000004%float = true)
    by (vm_compute; reflexivity).
  split; [exact Hst|]. split; [exact Hl|]. split; [exact Hd|].
  split; [exact Hc|].
  assert (Hs : step state 5 true
               = Ok (match step state 5 true with
                     | Ok s' => s'
                     | Throw _ => state
                     end)) by (vm_compute; reflexivity).
  eexists. split; [exact Hs|].
  pose proof (@result_ok _ (step state 5 true) _
                (fun s' =>
                   optStatus (params s') = UnconstrainedConverged
                   /\ varyingValues s' = varyingValues state
                   /\ lastUOstate (params s') = varyingValues state
                   /\ lastUOenergy (params s')
                      = currObjective (params state) (varyingValues state)
                   /\ lastGradient (params s')
                      = currGradient (params state) (varyingValues state)
                   /\ lbfgsInfo (params s') = defaultLbfgsParams
                   /\ weight (params s') = weight (params state))
                (fun e => true = true /\ exists s1, colour s1 = Throw e)
                Hs
                (@step_stationary _ _ _ _ state 5 true _ _ _ Ref_RenderFrame
                   Hst ltac:(lia) Hl Hd Hc))
    as (H1 & H2 & _ & H4 & _).
  repeat split; assumption.
Defined.

Lemma run_rounds_witness :
  optStatus (params Samples.problem) = NewIter
  /\ optStatus (params (Samples.after 7)) = EPConverged
  /\ 2 <= EPround (params (Samples.after 7))
  /\ weight (params (Samples.after 7))
     = Nat.iter (Z.to_nat (EPround (params (Samples.after 7))))
                (fun w => (10 * w)%float) initConstraintWeight.
Proof.
  assert (H0 : optStatus (params Samples.problem) = NewIter) by reflexivity.
  assert (H7 : optStatus (params (Samples.after 7)) = EPConverged)
    by (vm_compute; reflexivity).
  split; [exact H0|]. split; [exact H7|].
  destruct (@run_rounds _ _ _ _ Samples.problem (Samples.after 1)
              (Samples.after 7) 100 true Ref_RenderFrame H0 Samples_init
              Samples_calls) as (_ & _ & Hw & He).
  split; [exact (He H7)|exact Hw].
Defined.

Lemma run_closures_bound_witness :
  optStatus (params Samples.problem) = NewIter
  /\ objective (params Samples.problem) = None
  /\ exists obj,
      objective (params (Samples.after 7)) = Some obj
      /\ currObjective (params (Samples.after 7))
         = obj (weight (params (Samples.after 7))).
Proof.
  assert (H0 : optStatus (params Samples.problem) = NewIter) by reflexivity.
  assert (Hn : objective (params Samples.problem) = None) by reflexivity.
  split; [exact H0|]. split; [exact Hn|].
  destruct (@run_closures_bound _ _ _ _ Samples.problem (Samples.after 1)
              100 true Ref_RenderFrame H0 (or_introl Hn) Samples_init)
    as (obj & grad & H).
  destruct (H (Samples.after 7) Samples_calls) as (Ho & _ & Hc & _).
  exists obj. split; assumption.
Defined.

Lemma reinit_keeps_closures_witness :
  weight (params (Samples.after 7)) = 1%float
  /\ exists s' obj,
      step (set_params (set_optStatus NewIter (params (Samples.after 7)))
                       (Samples.after 7)) 100 true = Ok s'
      /\ weight (params s') = initConstraintWeight
      /\ initConstraintWeight = 10e-3%float
      /\ objective (params s') = Some obj
      /\ currObjective (params s') = obj (weight (params (Samples.after 7))).
Proof.
  split; [vm_compute; reflexivity|].
  destruct (@reinit_keeps_closures _ _ _ _ Samples.problem (Samples.after 1)
              (Samples.after 7) 100 true 100 true Ref_RenderFrame eq_refl
              (or_introl eq_refl) Samples_init Samples_calls)
    as (s' & obj & Hs & _ & Hw & Ho & Hc).
  exists s', obj. repeat split; assumption.
Defined.

Lemma run_never_throws_witness :
  usable defaultLbfgsParams
  /\ optStatus (params Samples.problem) = NewIter
  /\ objective (params Samples.problem) = None
  /\ step Samples.problem 100 true = Ok (Samples.after 1)
  /\ calls (Samples.after 1) (Samples.after 3)
  /\ optStatus (params (Samples.after 3)) = UnconstrainedRunning
  /\ step (Samples.after 3) 100 true = Ok (Samples.after 4)
  /\ usable (lbfgsInfo (params (Samples.after 4))).
Proof.
  assert (Hc : calls (Samples.after 1) (Samples.after 3)).
  { assert (H2 : step (Samples.after 1) 100 true = Ok (Samples.after 2))
      by (vm_compute; reflexivity).
    assert (H3 : step (Samples.after 2) 100 true = Ok (Samples.after 3))
      by (vm_compute; reflexivity).
    eapply calls_more; [eapply calls_more; [apply calls_none|exact H2]|].
    exact H3. }
  assert (Hs : step (Samples.after 3) 100 true = Ok (Samples.after 4))
    by (vm_compute; reflexivity).
  split; [exact Ref_usable_default|]. split; [reflexivity|].
  split; [reflexivity|]. split; [exact Samples_init|]. split; [exact Hc|].
  split; [vm_compute; reflexivity|]. split; [exact Hs|].
  exact (@result_ok _ (step (Samples.after 3) 100 true) (Samples.after 4)
           (fun s' => usable (lbfgsInfo (params s')))
           (fun e =>
              (exists c, e = Raised c)
              \/ (true = true /\ exists s2, colour s2 = Throw e))
           Hs
           (@run_never_throws _ _ _ _ Samples.problem (Samples.after 1)
              (Samples.after 3) 100 true 100 true Ref_RenderFrame
              Ref_usable_default eq_refl (or_introl eq_refl) Samples_init
              Hc)).
Defined.

Lemma run_without_evaluate_witness :
  exists s',
    run 3 100 false Samples.problem = Ok s'
    /\ s' = set_params (params s') Samples.problem
    /\ varyingValues s' = [0%float; 5%float]
    /\ lastUOstate (params s') = [2.5%float; 2.5%float].
Proof.
  destruct (run 3 100 false Samples.problem) as [s'|e] eqn:H;
    [|vm_compute in H; discriminate].
  exists s'. split; [reflexivity|].
  pose proof (run_without_evaluate _ _ _ H) as Hs.
  split; [exact Hs|]. split; [rewrite Hs; reflexivity|].
  pose proof H as H'. vm_compute in H'. injection H' as <-. reflexivity.
Defined.

Lemma variables_count_constant_witness :
  List.length (varyingValues (Samples.after 7))
  = List.length (varyingValues (Samples.after 1)).
Proof.
  exact (proj2 variables_count_constant Ref_RenderFrame _ _ Samples_calls).
Defined.

Lemma sampleUniformPalette_in_range_witness :
  0 < 2 <= Z.of_nat (List.length [10; 11; 12; 13; 14])
  /\ exists colors,
      sampleUniformPalette 2 [10; 11; 12; 13; 14] = Ok (map Some colors)
      /\ List.length colors = 2%nat.
Proof.
  assert (H : 0 < 2 <= Z.of_nat (List.length [10; 11; 12; 13; 14]))
    by (simpl; lia).
  split; [exact H|].
  destruct (sampleUniformPalette_in_range [10; 11; 12; 13; 14] H)
    as (colors & Hs & Hl & _).
  exists colors. split; assumption.
Defined.

Lemma distGraphToKNNGraph_rows_witness :
  rearranges Cases.insertion_sort
  /\ distGraphToKNNGraph Cases.insertion_sort Cases.line3 2
     = Ok [[1; 2]; [0; 2]; [1; 0]]%nat
  /\ exists ajlist,
      distGraphToKNNGraph Cases.insertion_sort Cases.line3 2 = Ok ajlist
      /\ List.length ajlist = 3%nat.
Proof.
  split; [exact insertion_sort_rearranges|].
  split; [vm_compute; reflexivity|].
  destruct (@distGraphToKNNGraph_rows Cases.insertion_sort
              insertion_sort_rearranges Cases.line3 2)
    as (ajlist & Hs & Hl & _).
  - intros row Hin. simpl in Hin.
    destruct Hin as [<-|[<-|[<-|[]]]]; reflexivity.
  - simpl. lia.
  - exists ajlist. split; assumption.
Defined.

Lemma shapes3_centered : centered Cases.center_of 2 Cases.shapes3.
Proof.
  intros s Hin. exists s. split; [reflexivity|].
  simpl in Hin. destruct Hin as [<-|[<-|[<-|[]]]]; reflexivity.
Qed.

Lemma shapeListToDistanceGraph_graph_witness :
  shapeListToDistanceGraph Cases.center_of Cases.shapes3 = Ok Cases.line3
  /\ List.length Cases.line3 = 3%nat
  /\ forall i j, entry Cases.line3 i j = entry Cases.line3 j i.
Proof.
  assert (H : shapeListToDistanceGraph Cases.center_of Cases.shapes3
              = Ok Cases.line3) by (vm_compute; reflexivity).
  split; [exact H|].
  destruct (@shapeListToDistanceGraph_graph Cases.points Cases.center_of
              Cases.shapes3 Cases.line3 H) as (Hl & _ & Hsym & _).
  split; [exact Hl|exact Hsym].
Defined.

Lemma getNewlyColoredState_stages_witness :
  rearranges Cases.insertion_sort
  /\ getNewlyColoredState Cases.center_of Cases.insertion_sort
       Cases.first_colours Cases.unchanged Cases.drawing (fun _ => true)
       [10; 11; 12; 13]%nat 0.5%float
     = Ok Cases.drawing
  /\ exists ajlist,
      getNewlyColoredState Cases.center_of Cases.insertion_sort
        Cases.first_colours Cases.unchanged Cases.drawing (fun _ => true)
        [10; 11; 12; 13]%nat 0.5%float
      = (let* colorList :=
           Cases.first_colours ajlist 2 [10; 11; 12; 13]%nat in
         Cases.unchanged Cases.drawing colorList (fun _ => true) 0.5%float)
      /\ List.length ajlist = 3%nat.
Proof.
  split; [exact insertion_sort_rearranges|].
  split; [vm_compute; reflexivity|].
  destruct (proj2 (@getNewlyColoredState_stages Ref.eigen Cases.points
                     Cases.center_of Cases.insertion_sort
                     insertion_sort_rearranges nat Cases.first_colours
                     Cases.unchanged Cases.drawing (fun _ => true)
                     [10; 11; 12; 13]%nat 0.5%float))
    as (ajlist & Hs & Hl & _).
  - simpl. lia.
  - intros i j Hij.
    apply (@centered_legal Cases.points Cases.center_of Cases.shapes3 2);
      [exact shapes3_centered|lia|simpl in *; lia|simpl in *; lia].
  - exists ajlist. split; [exact Hs|exact Hl].
Defined.
